(** * extern-contribs-agg: the external-contributor report of [main.go]

    A shallow embedding of [main.go]: the roster parser, the paginated
    listings, the commit filter, the checkpoint, the collation after
    enrichment, the bucket formatter, the report and the two modes of
    [main], with a small-step model of the rate-limited enrichment
    goroutines; then the properties the specification states about them,
    and further properties of the code. *)

From Stdlib Require Import ZArith Ascii String List Permutation Sorted.
From stdpp Require Import gmap strings list sorting pretty.

Local Open Scope string_scope.
Local Open Scope Z_scope.

(** ** The functions of Go's [strings] package that [main.go] calls

    Go strings are byte sequences and so are Rocq's: [len] is [String.length],
    [s[i:j]] is [substring i (j - i) s]. *)

Module strings.

(** [strings.HasPrefix(s, prefix)]:
    [len(s) >= len(prefix) && s[:len(prefix)] == prefix]. *)
Definition HasPrefix (s pre : string) : bool :=
  (String.length pre <=? String.length s)%nat
  && String.eqb (substring 0 (String.length pre) s) pre.

(** [strings.HasSuffix(s, suffix)]:
    [len(s) >= len(suffix) && s[len(s)-len(suffix):] == suffix]. *)
Definition HasSuffix (s suf : string) : bool :=
  (String.length suf <=? String.length s)%nat
  && String.eqb
       (substring (String.length s - String.length suf) (String.length suf) s)
       suf.

(** [strings.Contains(s, substr)]: [substr] occurs at some offset of [s]. *)
Fixpoint Contains (s substr : string) : bool :=
  String.prefix substr s
  || match s with
     | EmptyString => false
     | String _ s' => Contains s' substr
     end.

(** [strings.Split(s, sep)] for a one-byte separator, the only kind
    [main.go] passes (newline, space and comma).  The result is never empty:
    a string without the separator is returned as its only field. *)
Fixpoint Split (s : string) (sep : ascii) : list string :=
  match s with
  | EmptyString => [EmptyString]
  | String c s' =>
      if Ascii.eqb c sep then EmptyString :: Split s' sep
      else match Split s' sep with
           | f :: fs => String c f :: fs
           | [] => [String c EmptyString]
           end
  end.

(** [strings.Join(elems, sep)]. *)
Definition Join (elems : list string) (sep : string) : string :=
  String.concat sep elems.

End strings.

(** ** The roster ([AUTHORS]) parser *)

(** The literal of lines 141 and 385. *)
Definition internalDomain : string := "@cockroachlabs.com".

(** The test of line 147. *)
Definition isEmailField (field : string) : bool :=
  strings.HasPrefix field "<" && strings.HasSuffix field ">".

(** [field[1 : len(field)-1]] of line 152. *)
Definition emailOfField (field : string) : string :=
  substring 1 (String.length field - 1 - 1) field.

(** The loop of lines 146-155 over the fields of one line, from field index
    [i] on; [rest] is [fields[i:]]. *)
Fixpoint fieldsLoop (fields : list string) (i : nat) (rest : list string)
    (seenEmail : bool) (retEmails retLogins : gset string)
    : gset string * gset string :=
  match rest with
  | [] => (retEmails, retLogins)
  | field :: rest' =>
      if isEmailField field then
        let retLogins' :=
          if seenEmail then retLogins
          else {[ strings.Join (take i fields) " " ]} ∪ retLogins in
        fieldsLoop fields (S i) rest' true
          ({[ emailOfField field ]} ∪ retEmails) retLogins'
      else fieldsLoop fields (S i) rest' seenEmail retEmails retLogins
  end.

(** A line the loop of lines 137-156 skips: a comment, or a line without the
    internal domain. *)
Definition skippedLine (line : string) : bool :=
  strings.HasPrefix line "#" || negb (strings.Contains line internalDomain).

(** One iteration of the loop of lines 137-156. *)
Definition lineStep (acc : gset string * gset string) (line : string)
    : gset string * gset string :=
  if strings.HasPrefix line "#" then acc
  else if negb (strings.Contains line internalDomain) then acc
  else
    let fields := strings.Split line " " in
    fieldsLoop fields 0 fields false acc.1 acc.2.

(** [getOrganizationEmailsAndNamesFromAuthors] on the contents of the roster
    file (the fetch of lines 120-135 is the API's; a failed fetch panics
    before any parsing).  Returns [(retEmails, retLogins)]. *)
Definition getOrganizationEmailsAndNamesFromAuthors (contents : string)
    : gset string * gset string :=
  foldl lineStep (∅, ∅) (strings.Split contents "010").

(** ** A check over a range of integers *)

(** [f] holds of the [n] integers from [x] on. *)
Fixpoint allFrom (f : Z → bool) (n : nat) (x : Z) : bool :=
  match n with
  | O => true
  | S n' => f x && allFrom f n' (x + 1)
  end.

(** ** The part of Go's [time] package that [main.go] calls

    A [time.Time] is an instant, seconds and nanoseconds since the Unix
    epoch, and the offset of its zone in seconds east of UTC.  The monotonic
    reading that [time.Now()] adds is left out: [After] and [Before] use it
    only when both times have one, and the timestamps they are called on are
    parsed from text and have none. *)

Module time.

Record Time := mkTime { unixSec : Z; nsec : Z; zoneOffset : Z }.

(** [t.After(u)]: [ts > us || ts == us && t.nsec() > u.nsec()]. *)
Definition After (t u : Time) : bool :=
  (unixSec u <? unixSec t)
  || ((unixSec t =? unixSec u) && (nsec u <? nsec t)).

(** [t.Before(u)]: [ts < us || ts == us && t.nsec() < u.nsec()]. *)
Definition Before (t u : Time) : bool :=
  (unixSec t <? unixSec u)
  || ((unixSec t =? unixSec u) && (nsec t <? nsec u)).

(** [t.Equal(u)]: the same instant, whatever the zones. *)
Definition Equal (t u : Time) : bool :=
  (unixSec t =? unixSec u) && (nsec t =? nsec u).

(** *** The proleptic Gregorian calendar, in days since 0001-01-01 *)

Definition isLeap (year : Z) : bool :=
  (year mod 4 =? 0) && (negb (year mod 100 =? 0) || (year mod 400 =? 0)).

Definition daysIn (month year : Z) : Z :=
  if month =? 2 then (if isLeap year then 29 else 28)
  else if (month =? 4) || (month =? 6) || (month =? 9) || (month =? 11)
  then 30 else 31.

(** [daysBefore[month-1]]: days of a non-leap year before the month. *)
Definition daysBefore (month : Z) : Z :=
  match month with
  | 1 => 0 | 2 => 31 | 3 => 59 | 4 => 90 | 5 => 120 | 6 => 151
  | 7 => 181 | 8 => 212 | 9 => 243 | 10 => 273 | 11 => 304 | 12 => 334
  | _ => 365
  end.

Definition daysPer400Years : Z := 146097.
Definition daysPer100Years : Z := 36524.
Definition daysPer4Years : Z := 1461.

(** Days before the year numbered [y] + 1 within a 400-year cycle
    ([0 <= y < 400]): the 100-, 4- and 1-year cycles of [daysSinceEpoch]. *)
Definition daysBeforeCycleYear (y : Z) : Z :=
  let n100 := y / 100 in
  let y := y - 100 * n100 in
  let n4 := y / 4 in
  let y := y - 4 * n4 in
  daysPer100Years * n100 + daysPer4Years * n4 + 365 * y.

(** The day count of [time.Date(year, month, day, ...)]. *)
Definition daysFromCivil (year month day : Z) : Z :=
  let y := year - 1 in
  daysPer400Years * (y / 400) + daysBeforeCycleYear (y mod 400)
  + daysBefore month
  + (if isLeap year && (3 <=? month) then 1 else 0)
  + (day - 1).

(** Month and day of the day [yday] (from 0) of a year, as [absDate] finds
    them: the leap day is taken out, then the month is searched in
    [daysBefore]. *)
Definition monthDay (leap : bool) (yday : Z) : Z * Z :=
  if leap && (yday =? 31 + 29 - 1) then (2, 29)
  else
    let day := if leap && (31 + 29 - 1 <? yday) then yday - 1 else yday in
    let month := day / 31 in
    let end_ := daysBefore (month + 1 + 1) in
    if end_ <=? day then (month + 1 + 1, day - end_ + 1)
    else (month + 1, day - daysBefore (month + 1) + 1).

(** Year within the 400-year cycle (from 0) and day of the year of the day
    [d] of the cycle: the 100-, 4- and 1-year cycles of [absDate], whose
    last members are one day longer ([n -= n >> 2]). *)
Definition cycleYearDay (d : Z) : Z * Z :=
  let n100 := d / daysPer100Years in
  let n100 := n100 - Z.shiftr n100 2 in
  let d := d - daysPer100Years * n100 in
  let n4 := d / daysPer4Years in
  let d := d - daysPer4Years * n4 in
  let n1 := d / 365 in
  let n1 := n1 - Z.shiftr n1 2 in
  (100 * n100 + 4 * n4 + n1, d - 365 * n1).

(** [(year, month, day)] of a day count: [absDate]. *)
Definition civilFromDays (days : Z) : Z * Z * Z :=
  let '(y, yday) := cycleYearDay (days mod daysPer400Years) in
  let year := 400 * (days / daysPer400Years) + y + 1 in
  let '(month, day) := monthDay (isLeap year) yday in
  (year, month, day).

(** The checks behind the calendar's proofs: the year and day found for a
    day of the cycle are in range and add up to it, and so do the month and
    day found for a day of the year. *)
Definition yearLength (leap : bool) : Z := if leap then 366 else 365.

Definition cycleYearLength (y : Z) : Z := yearLength (isLeap (y + 1)).

Definition cycleDayOk (d : Z) : bool :=
  let '(y, yday) := cycleYearDay d in
  (0 <=? y) && (y <? 400) && (0 <=? yday) && (yday <? cycleYearLength y)
  && (daysBeforeCycleYear y + yday =? d).

Definition monthLength (leap : bool) (month : Z) : Z :=
  if month =? 2 then (if leap then 29 else 28)
  else if (month =? 4) || (month =? 6) || (month =? 9) || (month =? 11)
  then 30 else 31.

Definition yearDayOk (leap : bool) (yday : Z) : bool :=
  let '(month, day) := monthDay leap yday in
  (1 <=? month) && (month <=? 12) && (1 <=? day)
  && (day <=? monthLength leap month)
  && (daysBefore month + (if leap && (3 <=? month) then 1 else 0) + (day - 1)
      =? yday).

(** Days from 0001-01-01 to the Unix epoch, 1970-01-01. *)
Definition unixEpochDays : Z := 719162.

Definition secondsPerDay : Z := 86400.

(** [time.Date(year, month, day, hour, min, sec, nsec, loc)] for fields in
    their ranges (the callers pass no others) and a zone [offset] seconds
    east of UTC. *)
Definition Date (year month day hour min sec nsec offset : Z) : Time :=
  {| unixSec := (daysFromCivil year month day - unixEpochDays) * secondsPerDay
                + hour * 3600 + min * 60 + sec - offset;
     nsec := nsec;
     zoneOffset := offset |}.

(** The wall clock of [t] in its zone: days since 0001-01-01 and second of
    the day. *)
Definition localDays (t : Time) : Z :=
  (unixSec t + zoneOffset t) / secondsPerDay + unixEpochDays.
Definition localSecs (t : Time) : Z :=
  (unixSec t + zoneOffset t) mod secondsPerDay.

(** [t.Year()]. *)
Definition Year (t : Time) : Z := (civilFromDays (localDays t)).1.1.

(** *** [Format] and [Parse] with the layout [time.RFC3339] *)

Definition digitChar (n : Z) : ascii := ascii_of_N (48 + Z.to_N n).

Fixpoint zeros (n : nat) : string :=
  match n with O => EmptyString | S n' => String "0" (zeros n') end.

(** [appendInt(b, x, width)]: the decimal digits of [x], padded with zeros
    on the left to [width], after a minus sign when [x < 0]. *)
Definition appendInt (x : Z) (width : nat) : string :=
  let digits := pretty (Z.abs_N x) in
  (if x <? 0 then "-" else "")
  ++ zeros (width - String.length digits) ++ digits.

(** The two and four digits [appendInt] writes for a number that fits. *)
Definition twoDigits (x : Z) : string :=
  String (digitChar (x / 10)) (String (digitChar (x mod 10)) EmptyString).

Definition fourDigits (x : Z) : string :=
  String (digitChar (x / 1000))
    (String (digitChar (x / 100 mod 10)) (twoDigits (x mod 100))).

(** The text of a date, a time of day and a zone in the layout, digit by
    digit. *)
Definition layoutRFC3339 (year month day hour min sec : Z) (zone : string)
    : string :=
  String (digitChar (year / 1000)) (String (digitChar (year / 100 mod 10))
  (String (digitChar (year mod 100 / 10)) (String (digitChar (year mod 100 mod 10))
  (String "-"
  (String (digitChar (month / 10)) (String (digitChar (month mod 10))
  (String "-"
  (String (digitChar (day / 10)) (String (digitChar (day mod 10))
  (String "T"
  (String (digitChar (hour / 10)) (String (digitChar (hour mod 10))
  (String ":"
  (String (digitChar (min / 10)) (String (digitChar (min mod 10))
  (String ":"
  (String (digitChar (sec / 10)) (String (digitChar (sec mod 10))
  zone)))))))))))))))))).

(** The zone of the layout, [Z07:00]: [Z] for UTC, else sign, hours and
    minutes of the offset. *)
Definition formatZone (offset : Z) : string :=
  if offset =? 0 then "Z"
  else
    let zone := Z.quot offset 60 in
    (if zone <? 0 then "-" else "+")
    ++ appendInt (Z.abs zone / 60) 2 ++ ":" ++ appendInt (Z.abs zone mod 60) 2.

(** [t.Format(time.RFC3339)], layout [2006-01-02T15:04:05Z07:00]. *)
Definition Format_RFC3339 (t : Time) : string :=
  let '(year, month, day) := civilFromDays (localDays t) in
  let secs := localSecs t in
  appendInt year 4 ++ "-" ++ appendInt month 2 ++ "-" ++ appendInt day 2
  ++ "T" ++ appendInt (secs / 3600) 2 ++ ":" ++ appendInt (secs mod 3600 / 60) 2
  ++ ":" ++ appendInt (secs mod 60) 2 ++ formatZone (zoneOffset t).

Definition isDigit (c : ascii) : bool :=
  (48 <=? N_of_ascii c)%N && (N_of_ascii c <=? 57)%N.

Fixpoint atoi (s : string) (x : Z) : option Z :=
  match s with
  | EmptyString => Some x
  | String c s' =>
      if isDigit c then atoi s' (x * 10 + Z.of_N (N_of_ascii c) - 48)
      else None
  end.

(** [parseUint(s, min, max)] of [parseRFC3339]: [s] is all digits and its
    value lies in [[min, max]]. *)
Definition parseUint (s : string) (min max : Z) : option Z :=
  x ← atoi s 0;
  if (x <? min) || (max <? x) then None else Some x.

Definition charAt (s : string) (i : nat) (c : ascii) : bool :=
  match String.get i s with
  | Some c' => Ascii.eqb c' c
  | None => false
  end.

Definition dropString (n : nat) (s : string) : string :=
  substring n (String.length s - n) s.

(** The leading digits of [s] and what follows them. *)
Fixpoint spanDigits (s : string) : string * string :=
  match s with
  | String c s' =>
      if isDigit c then let '(ds, r) := spanDigits s' in (String c ds, r)
      else (EmptyString, s)
  | EmptyString => (EmptyString, EmptyString)
  end.

(** [parseNanoseconds]: the value, in nanoseconds, of the digits of a
    fraction; digits past the ninth are dropped. *)
Definition fractionNanos (digits : string) : Z :=
  let ds := substring 0 9 digits in
  match atoi ds 0 with
  | Some x => x * 10 ^ Z.of_nat (9 - String.length ds)
  | None => 0
  end.

(** An optional fraction of a second, a dot and at least one digit:
    its nanoseconds and what follows it. *)
Definition parseFraction (s : string) : Z * string :=
  match s with
  | String "." (String c s') =>
      if isDigit c then
        let '(ds, r) := spanDigits (String c s') in (fractionNanos ds, r)
      else (0, s)
  | _ => (0, s)
  end.

(** What follows the seconds: an optional fraction, then the zone. *)
Definition parseZone (year month day hour min sec : Z) (tail : string)
    : option Time :=
  let '(ns, rest) := parseFraction tail in
  if String.eqb rest "Z" then Some (Date year month day hour min sec ns 0)
  else if negb (String.length rest =? 6)%nat then None
  else
    hr ← parseUint (substring 1 2 rest) 0 23;
    mm ← parseUint (substring 4 2 rest) 0 59;
    if negb ((charAt rest 0 "-" || charAt rest 0 "+") && charAt rest 3 ":")
    then None
    else
      let zoneOffset := (hr * 60 + mm) * 60 in
      let zoneOffset := if charAt rest 0 "-" then - zoneOffset else zoneOffset in
      Some (Date year month day hour min sec ns zoneOffset).

(** [parseRFC3339(value, Local)], the parser that [time.Parse] tries first
    for the layout [time.RFC3339]: the text as [Format] writes it, with an
    optional fraction of a second. *)
Definition parseRFC3339 (s : string) : option Time :=
  if (String.length s <? 19)%nat then None else
  year ← parseUint (substring 0 4 s) 0 9999;
  month ← parseUint (substring 5 2 s) 1 12;
  day ← parseUint (substring 8 2 s) 1 (daysIn month year);
  hour ← parseUint (substring 11 2 s) 0 23;
  min ← parseUint (substring 14 2 s) 0 59;
  sec ← parseUint (substring 17 2 s) 0 59;
  if negb (charAt s 4 "-" && charAt s 7 "-" && charAt s 10 "T"
           && charAt s 13 ":" && charAt s 16 ":") then None else
  parseZone year month day hour min sec (dropString 19 s).

(** *** The layout parser, on the layout [time.RFC3339]

    [parse(layout, value, UTC, Local)] reads the value chunk by chunk of the
    layout [2006-01-02T15:04:05Z07:00]: the year of four digits, the month
    and the day of two, the hour of one or two, the minute and the second of
    two, an optional fraction after a period or a comma, and the zone.  It
    takes more texts than [parseRFC3339] does. *)

Definition digitValue (c : ascii) : Z := Z.of_N (N_of_ascii c) - 48.

(** [getnum(s, fixed)]: the number of the one or two leading digits, which
    must be two when [fixed], and what follows them. *)
Definition getnum (s : string) (fixed : bool) : option (Z * string) :=
  match s with
  | String c0 s1 =>
      if isDigit c0 then
        match s1 with
        | String c1 s2 =>
            if isDigit c1 then Some (digitValue c0 * 10 + digitValue c1, s2)
            else if fixed then None else Some (digitValue c0, s1)
        | EmptyString => if fixed then None else Some (digitValue c0, s1)
        end
      else None
  | EmptyString => None
  end.

(** [skip(value, prefix)] for a prefix of one byte that is not a space. *)
Definition skip (value : string) (prefix : ascii) : option string :=
  match value with
  | String c rest => if Ascii.eqb c prefix then Some rest else None
  | EmptyString => None
  end.

Definition commaOrPeriod (c : ascii) : bool :=
  Ascii.eqb c "." || Ascii.eqb c ",".

(** The fraction the layout parser takes after the seconds, though the
    layout has none: a period or a comma and at least one digit. *)
Definition parseFractionAfterSeconds (s : string) : Z * string :=
  match s with
  | String c0 (String c s') =>
      if commaOrPeriod c0 && isDigit c then
        let '(ds, r) := spanDigits (String c s') in (fractionNanos ds, r)
      else (0, s)
  | _ => (0, s)
  end.

(** The chunk [Z07:00] and the end of the parse: [Z], or a sign, two digits
    of hours, a colon and two digits of minutes, of which the hours may be
    24 and the minutes 60; nothing may follow, and the day must be one of
    the month. *)
Definition parseZoneChunk (year month day hour min sec nsec : Z)
    (value : string) : option Time :=
  if (day <? 1) || (daysIn month year <? day) then None
  else if charAt value 0 "Z" then
    if (String.length value =? 1)%nat
    then Some (Date year month day hour min sec nsec 0) else None
  else if negb (String.length value =? 6)%nat then None
  else if negb (charAt value 3 ":") then None
  else
    '(hr, _) ← getnum (substring 1 2 value) true;
    '(mm, _) ← getnum (substring 4 2 value) true;
    if (24 <? hr) || (60 <? mm) then None
    else
      let zoneOffset := (hr * 60 + mm) * 60 in
      if charAt value 0 "+"
      then Some (Date year month day hour min sec nsec zoneOffset)
      else if charAt value 0 "-"
      then Some (Date year month day hour min sec nsec (- zoneOffset))
      else None.

(** [parse(layout, value, UTC, Local)] for the layout [time.RFC3339], chunk
    by chunk: four digits of year, two of month, two of day, one or two of
    hour, two of minute, two of second, each after its separator; a fraction
    if there is one; the zone.  A chunk that fails or is out of range ends
    the parse with an error. *)
Definition parseLayoutRFC3339 (value : string) : option Time :=
  if (String.length value <? 4)%nat then None else
  year ← atoi (substring 0 4 value) 0;
  value ← skip (dropString 4 value) "-";
  '(month, value) ← getnum value true;
  if (month <=? 0) || (12 <? month) then None else
  value ← skip value "-";
  '(day, value) ← getnum value true;
  value ← skip value "T";
  '(hour, value) ← getnum value false;
  if 24 <=? hour then None else
  value ← skip value ":";
  '(min, value) ← getnum value true;
  if 60 <=? min then None else
  value ← skip value ":";
  '(sec, value) ← getnum value true;
  if 60 <=? sec then None else
  let '(nsec, value) := parseFractionAfterSeconds value in
  parseZoneChunk year month day hour min sec nsec value.

(** [time.Parse(time.RFC3339, value)]: [parseRFC3339], and the layout
    parser on what that one does not take.  [None] is the parse error at
    which [main.go] panics. *)
Definition Parse_RFC3339 (value : string) : option Time :=
  match parseRFC3339 value with
  | Some t => Some t
  | None => parseLayoutRFC3339 value
  end.

End time.

(** ** The fields of the API's commit objects that [main.go] reads

    A getter of [go-github] returns the zero value when the field (or the
    object) is absent, so a record of plain values stands for each object. *)

Module github.

(** [*github.User]: [GetLogin], [GetName], [GetHTMLURL]. *)
Record User := mkUser {
  GetLogin : string;
  GetName : string;
  GetHTMLURL : string
}.

(** [*github.CommitAuthor]: the author recorded in the git commit. *)
Record CommitAuthor := mkCommitAuthor {
  GetDate : time.Time;
  GetEmail : string
}.

(** [*github.Commit]: the git commit inside a repository commit; of its
    parents only the number is read. *)
Record Commit := mkCommit {
  Commit_GetAuthor : CommitAuthor;
  GetMessage : string;
  Parents : list string
}.

(** [*github.RepositoryCommit]: [GetCommit], [GetAuthor], and its own field
    [Parents], which [main.go] does not read.  The commit listing gives the
    parents of a commit in this field, and leaves the parent list of the git
    commit inside empty. *)
Record RepositoryCommit := mkRepositoryCommit {
  GetCommit : Commit;
  GetAuthor : User;
  RepositoryCommit_Parents : list string
}.

(** [github.ListOptions], the part of the options of a listing call that
    [main.go] sets: the page asked for (0, the zero value, on the first call) and
    the page size. *)
Record ListOptions := mkListOptions { Page : Z; PerPage : Z }.

End github.

(** ** The Commit Collector: the loop body of lines 375-408 *)

Section collector.

(** [organizationMembers] (only its keys are read), and the two sets of
    [getOrganizationEmailsAndNamesFromAuthors]. *)
Variables (organizationMembers emails names : gset string).

(** The seven [continue] guards of lines 376-396, in their order. *)
Definition skipCommit (commit : github.RepositoryCommit) : bool :=
  let c := github.GetCommit commit in
  let author := github.GetAuthor commit in
  let email := github.GetEmail (github.Commit_GetAuthor c) in
  if (0 <? length (github.Parents c))%nat then true
  else if String.eqb (github.GetLogin author) "" then true
  else if bool_decide (github.GetLogin author ∈ organizationMembers) then true
  else if strings.Contains email internalDomain then true
  else if strings.HasPrefix (github.GetMessage c) "Merge pull request " then true
  else if bool_decide (github.GetName author ∈ names) then true
  else if bool_decide (email ∈ emails) then true
  else false.

(** One iteration: a commit that passes every guard appends its author date
    to [userTimes[login]] (lines 404-407). *)
Definition commitStep (userTimes : gmap string (list time.Time))
    (commit : github.RepositoryCommit) : gmap string (list time.Time) :=
  if skipCommit commit then userTimes
  else
    let login := github.GetLogin (github.GetAuthor commit) in
    let date := github.GetDate (github.Commit_GetAuthor (github.GetCommit commit)) in
    <[ login := (default [] (userTimes !! login) ++ [date])%list ]> userTimes.

(** The ContributionRecord after the commits of every page of every
    repository, in the order the API lists them. *)
Definition collect (commits : list github.RepositoryCommit)
    : gmap string (list time.Time) :=
  foldl commitStep ∅ commits.

End collector.

(** ** Valid UTF-8, as [encoding/json] requires of a string it carries

    [json.Marshal] replaces every byte that is not part of a valid UTF-8
    sequence by U+FFFD, so only valid strings come back as they were. *)

Module utf8.

Definition inRangeN (lo hi b : N) : bool := ((lo <=? b) && (b <=? hi))%N.

(** A continuation byte, [0x80..0xBF]. *)
Definition isCont (c : ascii) : bool := inRangeN 128 191 (N_of_ascii c).

(** Bytes below [0x80] only. *)
Fixpoint isASCII (s : string) : bool :=
  match s with
  | EmptyString => true
  | String c s' => (N_of_ascii c <? 128)%N && isASCII s'
  end.

(** [utf8.ValidString]: one to four bytes per code point, no overlong form,
    no surrogate, nothing past U+10FFFF. *)
Fixpoint ValidString (s : string) : bool :=
  match s with
  | EmptyString => true
  | String c0 s1 =>
      let b0 := N_of_ascii c0 in
      if (b0 <? 128)%N then ValidString s1
      else
        match s1 with
        | EmptyString => false
        | String c1 s2 =>
            let b1 := N_of_ascii c1 in
            if inRangeN 194 223 b0 then isCont c1 && ValidString s2
            else
              match s2 with
              | EmptyString => false
              | String c2 s3 =>
                  if inRangeN 224 239 b0 then
                    (if (b0 =? 224)%N then inRangeN 160 191 b1
                     else if (b0 =? 237)%N then inRangeN 128 159 b1
                     else isCont c1)
                    && isCont c2 && ValidString s3
                  else
                    match s3 with
                    | EmptyString => false
                    | String c3 s4 =>
                        inRangeN 240 244 b0
                        && (if (b0 =? 240)%N then inRangeN 144 191 b1
                            else if (b0 =? 244)%N then inRangeN 128 143 b1
                            else isCont c1)
                        && isCont c2 && isCont c3 && ValidString s4
                    end
              end
        end
  end.

End utf8.

(** ** What the program takes from the Go runtime and its libraries

    The order in which [range] visits a map, the order in which
    [sort.Slice] leaves elements that compare equal, the order in which the
    goroutines' results leave the channel, the JSON text of a value and the
    API's answers are not the program's: they are parameters here, and
    their contracts are the hypotheses of the theorems that need them. *)

(** [less] is a strict weak ordering, what [sort.Slice] asks of it. *)
Definition StrictWeakOrder {A : Type} (less : A → A → bool) : Prop :=
  (∀ a, less a a = false)
  ∧ (∀ a b c, less a b = true → less b c = true → less a c = true)
  ∧ (∀ a b c, less a b = false → less b c = false → less a c = false).

(** [sort.Slice]: the slice afterwards holds the same elements, and no
    element is less than one before it. *)
Definition SortSliceSpec
    (sortSlice : ∀ A : Type, (A → A → bool) → list A → list A) : Prop :=
  ∀ (A : Type) (less : A → A → bool) (l : list A),
    sortSlice A less l ≡ₚ l
    ∧ (StrictWeakOrder less →
       Sorted (λ a b, less b a = false) (sortSlice A less l)).

(** [range] over a map visits every entry once, in an order of its own. *)
Definition MapRangeSpec
    (mapRange : ∀ V : Type, gmap string V → list (string * V)) : Prop :=
  ∀ (V : Type) (m : gmap string V), mapRange V m ≡ₚ map_to_list m.

(** Receiving [n] times from the results channel yields what the [n]
    goroutines sent, in the order they finished. *)
Definition ArrivalSpec (arrival : ∀ A : Type, list A → list A) : Prop :=
  ∀ (A : Type) (l : list A), arrival A l ≡ₚ l.

(** [json.Unmarshal] reads back the [map[string][]string] that
    [json.Marshal] wrote, when its strings are valid UTF-8. *)
Definition JSONSpec {Artifact : Type}
    (json_Marshal : gmap string (list string) → Artifact)
    (json_Unmarshal : Artifact → option (gmap string (list string))) : Prop :=
  ∀ m : gmap string (list string),
    map_Forall (λ k v, utf8.ValidString k = true
                       ∧ Forall (λ s, utf8.ValidString s = true) v) m →
    json_Unmarshal (json_Marshal m) = Some m.

(** ** The program on these parameters *)

(** [type user struct] of lines 160-165. *)
Record user := mkuser {
  userURL : string;
  login : string;
  name : string;
  times : list time.Time
}.

(** The zero value of [user], what [users[u]] is for an absent key. *)
Definition zeroUser : user := mkuser "" "" "" [].

(** [type toSortEntry struct] of lines 176-179. *)
Record toSortEntry := mkEntry { u : user; count : Z }.

Definition newline : string := String "010" EmptyString.

Section program.

Variable mapRange : ∀ V : Type, gmap string V → list (string * V).
Variable sortSlice : ∀ A : Type, (A → A → bool) → list A → list A.
Variable arrival : ∀ A : Type, list A → list A.
Context {Artifact : Type}.
Variable json_Marshal : gmap string (list string) → Artifact.
Variable json_Unmarshal : Artifact → option (gmap string (list string)).
(** [ghClient.Users.Get]: [None] is the error at which the goroutine
    panics. *)
Variable Users_Get : string → option github.User.

(** *** The Checkpoint Store *)

(** The inner loop of lines 422-424 for one user. *)
Definition formatTimes (user : string) (times : list time.Time)
    (commitTimes : gmap string (list string)) : gmap string (list string) :=
  foldl (λ m t, <[ user := (default [] (m !! user)
                            ++ [time.Format_RFC3339 t])%list ]> m)
        commitTimes times.

(** [commitTimes] after the loops of lines 420-425. *)
Definition commitTimesOf (userTimes : gmap string (list time.Time))
    : gmap string (list string) :=
  foldl (λ m kv, formatTimes kv.1 kv.2 m) ∅ (mapRange _ userTimes).

(** The checkpoint artifact written by lines 426-432. *)
Definition store (userTimes : gmap string (list time.Time)) : Artifact :=
  json_Marshal (commitTimesOf userTimes).

(** The loop of lines 243-250: [None] when a timestamp does not parse. *)
Definition parseTimes (timesIn : list string) : option (list time.Time) :=
  mapM time.Parse_RFC3339 timesIn.

(** The ContributionRecord read back from an artifact: [json.Unmarshal] of
    line 214, then the timestamps of every login parsed as the goroutines
    do; [None] when either panics. *)
Definition load (a : Artifact) : option (gmap string (list time.Time)) :=
  match json_Unmarshal a with
  | None => None
  | Some usersIn =>
      if bool_decide
           (map_Forall (λ _ timesIn, is_Some (parseTimes timesIn)) usersIn)
      then Some (omap parseTimes usersIn)
      else None
  end.

(** *** The Bounded Enricher: what a goroutine computes, and the collation *)

(** The body of the goroutine, lines 238-260. *)
Definition lookupUser (login : string) (timesIn : list string) : option user :=
  ghUser ← Users_Get login;
  times ← parseTimes timesIn;
  let name := github.GetName ghUser in
  let name := if String.eqb name "" then login else name in
  Some (mkuser (github.GetHTMLURL ghUser) login name times).

(** [blocklisted] of lines 225-228. *)
Definition blocklistedOf (flagBlocklist : string) : gset string :=
  foldl (λ blocklisted blocked, {[ blocked ]} ∪ blocklisted) ∅
        (strings.Split flagBlocklist ",").

(** One iteration of the loop of lines 267-276. *)
Definition collateStep (blocklisted blocklistedNames : gset string)
    (users : gmap string user) (r : user) : gmap string user :=
  if bool_decide (login r ∈ blocklisted) then users
  else if bool_decide (name r ∈ blocklistedNames) then users
  else <[ login r := r ]> users.

Definition collate (blocklisted blocklistedNames : gset string)
    (received : list user) : gmap string user :=
  foldl (collateStep blocklisted blocklistedNames) ∅ received.

(** [users] of [intermediateOutputToOutput] at line 277, from the
    checkpoint's [usersIn], the blocklist flag and the roster's contents;
    [None] when a goroutine panics. *)
Definition enrichedUsers (flagBlocklist roster : string)
    (usersIn : gmap string (list string)) : option (gmap string user) :=
  sent ← mapM (λ kv, lookupUser kv.1 kv.2) (mapRange _ usersIn);
  Some (collate (blocklistedOf flagBlocklist)
                (getOrganizationEmailsAndNamesFromAuthors roster).2
                (arrival _ sent)).

(** *** The Aggregator/Formatter: [formatContributors]

    The counts are Go [int]s; a count is at most the number of timestamps
    held in memory, far below the word size, so [Z] without wrap-around. *)

(** The inner loop of lines 170-174 for one user. *)
Definition countTimes (k : string) (ts : list time.Time) (from to : time.Time)
    (timesByUser : gmap string Z) : gmap string Z :=
  foldl (λ m t, if time.After t from && time.Before t to
                then <[ k := default 0 (m !! k) + 1 ]> m
                else m)
        timesByUser ts.

(** [timesByUser] after the loop of lines 169-175. *)
Definition timesByUserOf (users : gmap string user) (from to : time.Time)
    : gmap string Z :=
  foldl (λ m kv, countTimes kv.1 (times kv.2) from to m) ∅ (mapRange _ users).

(** [toSort] after the loop of lines 181-183. *)
Definition toSortOf (users : gmap string user) (from to : time.Time)
    : list toSortEntry :=
  (λ kc, mkEntry (default zeroUser (users !! kc.1)) kc.2)
    <$> mapRange _ (timesByUserOf users from to).

(** The comparator of lines 184-189. *)
Definition less (a b : toSortEntry) : bool :=
  if count a =? count b then String.ltb (login (u a)) (login (u b))
  else count b <? count a.

(** [toSort] after [sort.Slice]. *)
Definition ranking (users : gmap string user) (from to : time.Time)
    : list toSortEntry :=
  sortSlice _ less (toSortOf users from to).

(** [fmt.Sprintf("[%s](%s) (%d)", name, userURL, count)]. *)
Definition label (entry : toSortEntry) : string :=
  "[" ++ name (u entry) ++ "](" ++ userURL (u entry) ++ ") ("
  ++ pretty (count entry) ++ ")".

(** [(total, ret)] after the loop of lines 193-199. *)
Definition totalAndLabels (sorted : list toSortEntry) : Z * list string :=
  foldl (λ acc entry, (acc.1 + count entry, (acc.2 ++ [label entry])%list))
        (0, []) sorted.

(** The summary line of line 200, with its two newlines. *)
Definition summary (contributors commits : Z) : string :=
  pretty contributors ++ " contributors, " ++ pretty commits ++ " commits"
  ++ newline ++ newline.

Definition formatContributors (users : gmap string user)
    (from to : time.Time) : string :=
  let sorted := ranking users from to in
  let '(total, ret) := totalAndLabels sorted in
  summary (Z.of_nat (length sorted)) total ++ strings.Join ret ", ".

End program.

(** ** The goroutines of the enrichment phase, lines 219-266

    An interleaving of the main goroutine and of the lookup goroutines, one
    atomic step at a time.  The channel [rateLimit] carries empty structs,
    so its state is the number of values it buffers; its capacity is
    [userRateLimit].  A send on a full channel and a receive on an empty one
    block: the step is not enabled. *)

Module enrich.

Definition userRateLimit : nat := 20.

(** Where a lookup goroutine (lines 232-261) stands. *)
Inductive pc : Set :=
  | Acquire     (* before [<-rateLimit], line 237 *)
  | Lookup      (* lines 238-260: the lookup, it returns or panics *)
  | DeferDone   (* the deferred [wg.Done()], line 234 *)
  | Release     (* the deferred [rateLimit <- struct{}{}], line 235 *)
  | Finished.

(** Where the main goroutine stands. *)
Inductive mainPc : Set :=
  | Fill (i : nat)              (* the loop of lines 222-224, [i] sends done *)
  | Spawn (rest : list string)  (* the loop of lines 230-262 *)
  | Wait                        (* [wg.Wait()], line 266 *)
  | Collect.                    (* line 267 on *)

Record state := mkState {
  main : mainPc;
  rateLimit : nat;
  wg : nat;
  routines : list (string * pc)
}.

Definition initial : state := mkState (Fill 0) 0 0 [].

Global Instance pc_eq_dec : EqDecision pc.
Proof. solve_decision. Defined.

(** One step of the main goroutine over the logins of [usersIn]. *)
Definition mainStep (logins : list string) (s : state) : option state :=
  match main s with
  | Fill i =>
      if (i <? userRateLimit)%nat then
        if (rateLimit s <? userRateLimit)%nat
        then Some (mkState (Fill (S i)) (S (rateLimit s)) (wg s) (routines s))
        else None
      else Some (mkState (Spawn logins) (rateLimit s) (wg s) (routines s))
  | Spawn (l :: rest) =>
      Some (mkState (Spawn rest) (rateLimit s) (S (wg s))
                    (routines s ++ [(l, Acquire)])%list)
  | Spawn [] => Some (mkState Wait (rateLimit s) (wg s) (routines s))
  | Wait =>
      if (wg s =? 0)%nat
      then Some (mkState Collect (rateLimit s) (wg s) (routines s))
      else None
  | Collect => None
  end.

(** One step of the [i]-th goroutine spawned. *)
Definition routineStep (i : nat) (s : state) : option state :=
  match routines s !! i with
  | Some (l, Acquire) =>
      if (0 <? rateLimit s)%nat
      then Some (mkState (main s) (pred (rateLimit s)) (wg s)
                         (<[ i := (l, Lookup) ]> (routines s)))
      else None
  | Some (l, Lookup) =>
      Some (mkState (main s) (rateLimit s) (wg s)
                    (<[ i := (l, DeferDone) ]> (routines s)))
  | Some (l, DeferDone) =>
      Some (mkState (main s) (rateLimit s) (pred (wg s))
                    (<[ i := (l, Release) ]> (routines s)))
  | Some (l, Release) =>
      if (rateLimit s <? userRateLimit)%nat
      then Some (mkState (main s) (S (rateLimit s)) (wg s)
                         (<[ i := (l, Finished) ]> (routines s)))
      else None
  | Some (_, Finished) | None => None
  end.

(** Whose turn the scheduler gives. *)
Inductive action : Set := MainStep | Go (i : nat).

Definition exec (logins : list string) (s : state) (a : action)
    : option state :=
  match a with
  | MainStep => mainStep logins s
  | Go i => routineStep i s
  end.

(** The state after a schedule, [None] when it names a blocked or finished
    goroutine. *)
Fixpoint run (logins : list string) (s : state) (schedule : list action)
    : option state :=
  match schedule with
  | [] => Some s
  | a :: schedule' =>
      match exec logins s a with
      | Some s' => run logins s' schedule'
      | None => None
      end
  end.

(** The goroutines inside the lookup. *)
Definition running (s : state) : nat :=
  length (filter (λ r, r.2 = Lookup) (routines s)).

(** The goroutines that have received a token and not sent it back. *)
Definition holdsSlot (p : pc) : bool :=
  match p with
  | Lookup | DeferDone | Release => true
  | Acquire | Finished => false
  end.

Definition holding (s : state) : nat :=
  length (filter (λ r, holdsSlot r.2 = true) (routines s)).

(** The tokens main has put into the channel. *)
Definition filled (s : state) : nat :=
  match main s with
  | Fill i => i
  | _ => userRateLimit
  end.

(** The invariant of the phase: every token main has sent is in the channel
    or with a goroutine between its receive and its send, main sends no more
    than the capacity, and no goroutine exists while it does. *)
Definition slotsAccounted (s : state) : Prop :=
  (rateLimit s + holding s = filled s)%nat
  ∧ (filled s ≤ userRateLimit)%nat
  ∧ (∀ i, main s = Fill i → routines s = []).

End enrich.

(** ** A runtime to evaluate the program on

    One runtime that meets the contracts above: [range] in key order, a
    merge sort, results in the order sent, and the JSON value itself as the
    artifact. *)

Module runtime.

Definition mapRange (V : Type) (m : gmap string V) : list (string * V) :=
  map_to_list m.

Definition sortSlice (A : Type) (less : A → A → bool) (l : list A) : list A :=
  merge_sort (λ a b, less b a = false)
             (H := λ a b, decide (less b a = false)) l.

Definition arrival (A : Type) (l : list A) : list A := reverse l.

Definition json_Marshal (m : gmap string (list string))
    : gmap string (list string) := m.

Definition json_Unmarshal (a : gmap string (list string))
    : option (gmap string (list string)) := Some a.

End runtime.

(** A second runtime: [range] in the opposite order, and the merge sort
    run on the reversed slice, so that entries that compare equal come out
    in another order. *)

Module runtime2.

Definition mapRange (V : Type) (m : gmap string V) : list (string * V) :=
  reverse (map_to_list m).

Definition sortSlice (A : Type) (less : A → A → bool) (l : list A) : list A :=
  merge_sort (λ a b, less b a = false)
             (H := λ a b, decide (less b a = false)) (reverse l).

End runtime2.

(** ** The specification's words, for the statements below *)

(** A commit as the commit listing delivers it: its parents are on the
    repository commit, not in the git commit inside. *)
Definition listed (commit : github.RepositoryCommit) : Prop :=
  github.Parents (github.GetCommit commit) = [].

(** The filter conditions other than the one on parents: an external login
    that is not empty and not a member's, no merge of a pull request, no
    internal name, no internal email. *)
Definition otherConditions (organizationMembers emails names : gset string)
    (commit : github.RepositoryCommit) : Prop :=
  github.GetLogin (github.GetAuthor commit) ≠ ""
  ∧ (github.GetLogin (github.GetAuthor commit) ∉ organizationMembers)
  ∧ strings.HasPrefix (github.GetMessage (github.GetCommit commit))
      "Merge pull request " = false
  ∧ (github.GetName (github.GetAuthor commit) ∉ names)
  ∧ (github.GetEmail (github.Commit_GetAuthor (github.GetCommit commit))
     ∉ emails)
  ∧ strings.Contains
      (github.GetEmail (github.Commit_GetAuthor (github.GetCommit commit)))
      internalDomain = false.

(** [a] is an earlier instant than [b]. *)
Definition instantLt (a b : time.Time) : Prop :=
  time.unixSec a < time.unixSec b
  ∨ (time.unixSec a = time.unixSec b ∧ time.nsec a < time.nsec b).

Global Instance instantLt_dec a b : Decision (instantLt a b).
Proof. unfold instantLt. apply _. Defined.

(** [t] is strictly after [from] and strictly before [to]. *)
Definition strictlyWithin (from to t : time.Time) : Prop :=
  instantLt from t ∧ instantLt t to.

Global Instance strictlyWithin_dec from to t : Decision (strictlyWithin from to t).
Proof. unfold strictlyWithin. apply _. Defined.

(** How many of the timestamps are strictly within the range. *)
Definition countInRange (ts : list time.Time) (from to : time.Time) : Z :=
  Z.of_nat (length (filter (strictlyWithin from to) ts)).

(** The entry of a user in a bucket: none without a timestamp in range. *)
Definition entryOf (from to : time.Time) (obj : user) : option toSortEntry :=
  let c := countInRange (times obj) from to in
  if c =? 0 then None else Some (mkEntry obj c).

(** The entries of a bucket, in the key order of the map. *)
Definition entriesInRange (users : gmap string user) (from to : time.Time)
    : list toSortEntry :=
  omap (λ kv, entryOf from to kv.2) (map_to_list users).

(** The count a user has in a bucket: none without a timestamp in range. *)
Definition countOf (from to : time.Time) (obj : user) : option Z :=
  let c := countInRange (times obj) from to in
  if c =? 0 then None else Some c.

(** What [c] more timestamps in range do to a user's counter. *)
Definition bump (o : option Z) (c : Z) : option Z :=
  if c =? 0 then o else Some (default 0 o + c).

(** The users with a timestamp in range, and the timestamps in range of all
    users; [map_to_list] lists every entry of the map once. *)
Definition contributorsInRange (users : gmap string user)
    (from to : time.Time) : Z :=
  Z.of_nat (length (filter (λ kv, 0 < countInRange (times kv.2) from to)
                           (map_to_list users))).

Definition commitsInRange (users : gmap string user)
    (from to : time.Time) : Z :=
  foldr (λ kv acc, countInRange (times kv.2) from to + acc) 0
        (map_to_list users).

(** The sum of the counts of a list of entries. *)
Definition sumCounts (l : list toSortEntry) : Z :=
  foldr (λ e acc, count e + acc) 0 l.

(** [a] is ranked no later than [b]: more commits, or as many and a login
    that is not greater. *)
Definition rankedBefore (a b : toSortEntry) : Prop :=
  count b < count a
  ∨ (count a = count b ∧ String.le (login (u a)) (login (u b))).

(** The timestamps of a ContributionRecord, cut to the second. *)
Definition truncateToSecond (t : time.Time) : time.Time :=
  time.mkTime (time.unixSec t) 0 (time.zoneOffset t).

Definition recordToSecond (userTimes : gmap string (list time.Time))
    : gmap string (list time.Time) :=
  (λ times : list time.Time, truncateToSecond <$> times) <$> userTimes.

(** What RFC 3339 can write: a year of four digits, a zone offset of whole
    minutes and less than a day, nanoseconds within the second. *)
Definition representable (t : time.Time) : Prop :=
  0 <= time.Year t <= 9999
  ∧ time.zoneOffset t mod 60 = 0
  ∧ -86400 < time.zoneOffset t < 86400
  ∧ 0 <= time.nsec t < 1000000000.

(** The timestamps a login has in the checkpoint: no entry for a login
    without timestamp. *)
Definition formattedTimes (times : list time.Time) : option (list string) :=
  match times with
  | [] => None
  | _ => Some (time.Format_RFC3339 <$> times)
  end.

(** A ContributionRecord the checkpoint can hold: logins that JSON can
    carry, each with at least one timestamp, all of them writable. *)
Definition storable (userTimes : gmap string (list time.Time)) : Prop :=
  map_Forall (λ login times,
                utf8.ValidString login = true ∧ times ≠ []
                ∧ Forall representable times) userTimes.

(** ** The paginated listings of the API: lines 65-115 and 357-414

    A listing call answers with the items of one page and with
    [resp.NextPage], which is 0 on the last page; [None] is the call's
    error.  The loops of [main.go] ask for the page named as long as one is
    named, so they need not end: [fuel] is the number of calls a loop may
    make, and [OutOfFuel] says that it is still asking after them. *)

Inductive outcome (A : Type) : Type :=
  | Returned (a : A)
  | Failed
  | OutOfFuel.

Arguments Returned {A} a.
Arguments Failed {A}.
Arguments OutOfFuel {A}.

Section api.

(** [*github.Repository]: nothing is read from it. *)
Context {Repository : Type}.

(** [ghClient.Organizations.ListMembers(ctx, org, opts)],
    [ghClient.Repositories.ListByOrg(ctx, org, opts)] and
    [ghClient.Repositories.ListCommits(ctx, owner, repo, opts)]. *)
Variable Organizations_ListMembers
  : string → github.ListOptions → option (list github.User * Z).
Variable Repositories_ListByOrg
  : string → github.ListOptions → option (list Repository * Z).
Variable Repositories_ListCommits
  : string → string → github.ListOptions
    → option (list github.RepositoryCommit * Z).

(** The loop of lines 84-86. *)
Definition addMembers (logins : gmap string github.User)
    (members : list github.User) : gmap string github.User :=
  foldl (λ logins member, <[ github.GetLogin member := member ]> logins)
        logins members.

(** The loop of lines 75-91. *)
Fixpoint membersLoop (fuel : nat) (org : string) (opts : github.ListOptions)
    (logins : gmap string github.User) : outcome (gmap string github.User) :=
  match fuel with
  | O => OutOfFuel
  | S fuel' =>
      match Organizations_ListMembers org opts with
      | None => Failed
      | Some (members, NextPage) =>
          let logins := addMembers logins members in
          if negb (NextPage =? 0) then
            membersLoop fuel' org
              (github.mkListOptions NextPage (github.PerPage opts)) logins
          else Returned logins
      end
  end.

(** [getOrganizationLogins(ctx, ghClient, org)]; [Failed] is its error. *)
Definition getOrganizationLogins (fuel : nat) (org : string)
    : outcome (gmap string github.User) :=
  membersLoop fuel org (github.mkListOptions 0 100) ∅.

(** The loop of lines 99-113. *)
Fixpoint repositoriesLoop (fuel : nat) (flagOrganization : string)
    (opts : github.ListOptions) (repos : list Repository)
    : outcome (list Repository) :=
  match fuel with
  | O => OutOfFuel
  | S fuel' =>
      match Repositories_ListByOrg flagOrganization opts with
      | None => Failed
      | Some (add, NextPage) =>
          let repos := (repos ++ add)%list in
          if negb (NextPage =? 0) then
            repositoriesLoop fuel' flagOrganization
              (github.mkListOptions NextPage (github.PerPage opts)) repos
          else Returned repos
      end
  end.

(** [getRepositories(ctx, ghClient)]; [Failed] is its panic. *)
Definition getRepositories (fuel : nat) (flagOrganization : string)
    : outcome (list Repository) :=
  repositoriesLoop fuel flagOrganization (github.mkListOptions 0 0) [].

(** *** The loops of [main] around the collector's loop body *)

Variables (organizationMembers emails names : gset string).

(** The loop of lines 365-413 over the pages of one repository. *)
Fixpoint commitsLoop (fuel : nat) (flagOrganization repo : string)
    (opts : github.ListOptions) (userTimes : gmap string (list time.Time))
    : outcome (gmap string (list time.Time)) :=
  match fuel with
  | O => OutOfFuel
  | S fuel' =>
      match Repositories_ListCommits flagOrganization repo opts with
      | None => Failed
      | Some (commits, NextPage) =>
          let userTimes :=
            foldl (commitStep organizationMembers emails names)
                  userTimes commits in
          if negb (NextPage =? 0) then
            commitsLoop fuel' flagOrganization repo
              (github.mkListOptions NextPage (github.PerPage opts)) userTimes
          else Returned userTimes
      end
  end.

(** The loop of lines 357-414 over the repositories: each starts from fresh
    options, and may make [fuel] calls. *)
Fixpoint reposLoop (fuel : nat) (flagOrganization : string)
    (repos : list string) (userTimes : gmap string (list time.Time))
    : outcome (gmap string (list time.Time)) :=
  match repos with
  | [] => Returned userTimes
  | repo :: repos' =>
      match commitsLoop fuel flagOrganization repo
              (github.mkListOptions 0 1000) userTimes with
      | Returned userTimes => reposLoop fuel flagOrganization repos' userTimes
      | Failed => Failed
      | OutOfFuel => OutOfFuel
      end
  end.

(** [userTimes] at line 415. *)
Definition collectRepositories (fuel : nat) (flagOrganization flagRepos : string)
    : outcome (gmap string (list time.Time)) :=
  reposLoop fuel flagOrganization (strings.Split flagRepos ",") ∅.

End api.

(** ** The report: lines 278-316 of [intermediateOutputToOutput] *)

(** [fmt.Sprintf("[%s](https://github.com/%s/%s)", repo, org, repo)]. *)
Definition repoLink (flagOrganization repo : string) : string :=
  "[" ++ repo ++ "](https://github.com/" ++ flagOrganization ++ "/" ++ repo
  ++ ")".

(** [fromRepos] after the loop of lines 279-284. *)
Definition fromReposOf (flagRepos flagOrganization : string) : list string :=
  foldl (λ fromRepos repo, (fromRepos ++ [repoLink flagOrganization repo])%list)
        [] (strings.Split flagRepos ",").

(** The format of lines 287-297 on its three arguments. *)
Definition reportHead (generated fromRepos allTime : string) : string :=
  newline ++ "Last generated at " ++ generated ++ "." ++ newline
  ++ newline ++ "Contributions from: " ++ fromRepos ++ "." ++ newline
  ++ newline ++ "# All-Time External Contributors" ++ newline
  ++ newline ++ allTime ++ newline
  ++ newline ++ "# By Year" ++ newline.

(** The format of lines 304-308 on its two arguments. *)
Definition yearSection (year : Z) (block : string) : string :=
  "## " ++ pretty year ++ newline ++ newline ++ block ++ newline ++ newline.

(** The first instant of a year in UTC,
    [time.Date(year, 1, 1, 0, 0, 0, 0, time.UTC)]. *)
Definition yearStart (year : Z) : time.Time := time.Date year 1 1 0 0 0 0 0.

Section report.

Variable mapRange : ∀ V : Type, gmap string V → list (string * V).
Variable sortSlice : ∀ A : Type, (A → A → bool) → list A → list A.

(** The loop of lines 302-316, [n] iterations from [year] downwards. *)
Fixpoint yearsLoop (n : nat) (year : Z) (users : gmap string user)
    (out : string) : string :=
  match n with
  | O => out
  | S n' =>
      yearsLoop n' (year - 1) users
        (out ++ yearSection year
                  (formatContributors mapRange sortSlice users
                     (yearStart year) (yearStart (year + 1))))
  end.

(** [out] at line 317.  The clock is read three times, for the header, for
    the end of the all-time bucket and for the first year of the loop, which
    runs for [year], [year - 1], ..., 2014: [year - 2013] times, and not at
    all when [year < 2014]. *)
Definition report (now1 now2 now3 : time.Time)
    (flagRepos flagOrganization : string) (users : gmap string user)
    : string :=
  let out :=
    reportHead (time.Format_RFC3339 now1)
      (strings.Join (fromReposOf flagRepos flagOrganization) ", ")
      (formatContributors mapRange sortSlice users (yearStart 2014) now2) in
  yearsLoop (Z.to_nat (time.Year now3 - 2013)) (time.Year now3) users out.

End report.

(** ** The two modes of [main]: lines 203-216, 318-329 and 332-437

    The files are a mapping from paths to contents, byte slices of a type
    [Bytes]: [os.OpenFile] with [O_CREATE|O_TRUNC] followed by [Write]
    replaces the contents of a path, [os.Open] fails on a path without
    contents, and no other failure of the file system is modelled.  What
    [main] prints is left out, and the API client is taken as obtained. *)

(** The flags of lines 19-63 that the program reads. *)
Record flags := mkFlags {
  flagOrganization : string;
  flagAuthorsOrg : string;
  flagAuthorsRepo : string;
  flagAuthorsPath : string;
  flagRepos : string;
  flagIntermediateOutput : string;
  flagOutput : string;
  flagUseIntermediate : bool;
  flagBlocklist : string
}.

Section main.

Variable mapRange : ∀ V : Type, gmap string V → list (string * V).
Variable sortSlice : ∀ A : Type, (A → A → bool) → list A → list A.
Variable arrival : ∀ A : Type, list A → list A.
Context {Bytes : Type}.
Variable json_Marshal : gmap string (list string) → Bytes.
Variable json_Unmarshal : Bytes → option (gmap string (list string)).
(** The conversion [[]byte(out)] of line 323. *)
Variable bytesOf : string → Bytes.
Variable Users_Get : string → option github.User.
Variable Organizations_ListMembers
  : string → github.ListOptions → option (list github.User * Z).
Variable Repositories_ListCommits
  : string → string → github.ListOptions
    → option (list github.RepositoryCommit * Z).
(** [ghClient.Repositories.GetContents(ctx, owner, repo, path, nil)]
    followed by [GetContent()]: the text of the file, [None] when either
    fails. *)
Variable Repositories_GetContents : string → string → string → option string.

(** The fetch of lines 120-135. *)
Definition fetchAuthors (fl : flags) : option string :=
  Repositories_GetContents (flagAuthorsOrg fl) (flagAuthorsRepo fl)
    (flagAuthorsPath fl).

(** [intermediateOutputToOutput(ctx, ghClient)]: the files it leaves, and
    [Failed] when it panics.  The clock is read at lines 298, 300 and
    302. *)
Definition intermediateOutputToOutput (fl : flags)
    (now1 now2 now3 : time.Time) (files : gmap string Bytes)
    : gmap string Bytes * outcome unit :=
  match files !! flagIntermediateOutput fl with
  | None => (files, Failed)
  | Some read =>
      match json_Unmarshal read with
      | None => (files, Failed)
      | Some usersIn =>
          match fetchAuthors fl with
          | None => (files, Failed)
          | Some authors =>
              match enrichedUsers mapRange arrival Users_Get
                      (flagBlocklist fl) authors usersIn with
              | None => (files, Failed)
              | Some users =>
                  let out :=
                    report mapRange sortSlice now1 now2 now3
                      (flagRepos fl) (flagOrganization fl) users in
                  (<[ flagOutput fl := bytesOf out ]> files, Returned tt)
              end
          end
      end
  end.

(** [main()], with [fuel] calls for each listing loop. *)
Definition main (fuel : nat) (fl : flags) (now1 now2 now3 : time.Time)
    (files : gmap string Bytes) : gmap string Bytes * outcome unit :=
  if flagUseIntermediate fl then
    intermediateOutputToOutput fl now1 now2 now3 files
  else
    match getOrganizationLogins Organizations_ListMembers fuel
            (flagOrganization fl) with
    | Failed => (files, Failed)
    | OutOfFuel => (files, OutOfFuel)
    | Returned organizationMembers =>
        match fetchAuthors fl with
        | None => (files, Failed)
        | Some authors =>
            let '(emails, names) :=
              getOrganizationEmailsAndNamesFromAuthors authors in
            match collectRepositories Repositories_ListCommits
                    (dom organizationMembers) emails names fuel
                    (flagOrganization fl) (flagRepos fl) with
            | Failed => (files, Failed)
            | OutOfFuel => (files, OutOfFuel)
            | Returned userTimes =>
                let b := store mapRange json_Marshal userTimes in
                intermediateOutputToOutput fl now1 now2 now3
                  (<[ flagIntermediateOutput fl := b ]> files)
            end
        end
    end.

End main.

(** ** The wait group of the enrichment phase

    What the steps of the goroutines leave to be done, in the states of
    [enrich]. *)

(** A goroutine that has not called [wg.Done()] yet. *)
Definition awaited (p : enrich.pc) : bool :=
  match p with
  | enrich.Acquire | enrich.Lookup | enrich.DeferDone => true
  | enrich.Release | enrich.Finished => false
  end.

Definition waitedFor (s : enrich.state) : nat :=
  length (filter (λ r, awaited r.2 = true) (enrich.routines s)).

(** The logins main has not started a goroutine for. *)
Definition unspawned (logins : list string) (s : enrich.state) : list string :=
  match enrich.main s with
  | enrich.Fill _ => logins
  | enrich.Spawn rest => rest
  | enrich.Wait | enrich.Collect => []
  end.

(** The wait group counts the goroutines that have not called [wg.Done()],
    main has started one goroutine for each login before those it has left,
    and the counter is zero once main is past [wg.Wait()]. *)
Definition wgAccounted (logins : list string) (s : enrich.state) : Prop :=
  enrich.wg s = waitedFor s
  ∧ ((enrich.routines s).*1 ++ unspawned logins s)%list = logins
  ∧ (enrich.main s = enrich.Collect → enrich.wg s = 0%nat).

(** The steps a goroutine has left. *)
Definition stepsLeft (p : enrich.pc) : nat :=
  match p with
  | enrich.Acquire => 4
  | enrich.Lookup => 3
  | enrich.DeferDone => 2
  | enrich.Release => 1
  | enrich.Finished => 0
  end.

(** The steps main has left before it collects the results. *)
Definition mainStepsLeft (logins : list string) (s : enrich.state) : nat :=
  match enrich.main s with
  | enrich.Fill i => (enrich.userRateLimit - i) + 1 + (length logins + 1) + 1
  | enrich.Spawn rest => length rest + 1 + 1
  | enrich.Wait => 1
  | enrich.Collect => 0
  end.

(** The steps the phase has left: those of main, of the goroutines it has
    started and of those it will start. *)
Definition stepsToGo (logins : list string) (s : enrich.state) : nat :=
  mainStepsLeft logins s + 4 * length (unspawned logins s)
  + sum_list_with (λ r, stepsLeft r.2) (enrich.routines s).

(** The phase is over: main is past [wg.Wait()] and every goroutine has
    given its token back. *)
Definition phaseOver (s : enrich.state) : Prop :=
  enrich.main s = enrich.Collect
  ∧ Forall (λ r, r.2 = enrich.Finished) (enrich.routines s).

(** ** More of the specification's words *)

(** The pages of a listing that ends, from the page [opts] asks for: each
    but the last names the next, and the last names none. *)
Fixpoint pagesOfListing {A : Type}
    (call : github.ListOptions → option (list A * Z))
    (opts : github.ListOptions) (pages : list (list A)) : Prop :=
  match pages with
  | [] => False
  | items :: rest =>
      match rest with
      | [] => call opts = Some (items, 0)
      | _ :: _ =>
          ∃ NextPage, NextPage ≠ 0 ∧ call opts = Some (items, NextPage)
            ∧ pagesOfListing call
                (github.mkListOptions NextPage (github.PerPage opts)) rest
      end
  end.

(** The pages of a listing that breaks: each names the next, and the call
    after the last is an error. *)
Fixpoint pagesBeforeError {A : Type}
    (call : github.ListOptions → option (list A * Z))
    (opts : github.ListOptions) (pages : list (list A)) : Prop :=
  match pages with
  | [] => call opts = None
  | items :: rest =>
      ∃ NextPage, NextPage ≠ 0 ∧ call opts = Some (items, NextPage)
        ∧ pagesBeforeError call
            (github.mkListOptions NextPage (github.PerPage opts)) rest
  end.

(** The author date of a commit, and the author dates of the commits of a
    login that pass the seven guards, in the order of the listing. *)
Definition authorDate (commit : github.RepositoryCommit) : time.Time :=
  github.GetDate (github.Commit_GetAuthor (github.GetCommit commit)).

Definition keptDates (organizationMembers emails names : gset string)
    (login : string) (commits : list github.RepositoryCommit)
    : list time.Time :=
  authorDate
    <$> filter (λ commit,
                  skipCommit organizationMembers emails names commit = false
                  ∧ github.GetLogin (github.GetAuthor commit) = login)
               commits.

(** The same instant in UTC, [t.UTC()]. *)
Definition inUTC (t : time.Time) : time.Time :=
  time.mkTime (time.unixSec t) (time.nsec t) 0.

(** [a] and [b] are the same instant. *)
Definition sameInstant (a b : time.Time) : Prop :=
  time.unixSec a = time.unixSec b ∧ time.nsec a = time.nsec b.

Global Instance sameInstant_dec a b : Decision (sameInstant a b).
Proof. unfold sameInstant. apply _. Defined.

(** The years of the yearly sections, newest first. *)
Definition yearsOf (year : Z) : list Z :=
  (λ i : nat, year - Z.of_nat i) <$> seq 0 (Z.to_nat (year - 2013)).

(** ** Sample data *)

(** The commits of the specification's scenario, by the external login
    [external1], as the listing delivers them: with the parents given, or
    without parent. *)
Definition scenarioCommit (parents : list string) : github.RepositoryCommit :=
  github.mkRepositoryCommit
    (github.mkCommit
       (github.mkCommitAuthor (time.mkTime 1600000000 0 0) "external1@gmail.com")
       "Fix bug" [])
    (github.mkUser "external1" "External One" "https://github.com/external1")
    parents.

(** A bucket, the year 2021, and four users: two with two commits in it, one
    with commits on both of its bounds and one inside, one with none. *)
Definition jan2021 : time.Time := time.mkTime 1609459200 0 0.
Definition jan2022 : time.Time := time.mkTime 1640995200 0 0.
Definition in2021 (n : Z) : time.Time := time.mkTime (1609459200 + n) 0 0.

Definition sampleUsers : gmap string user :=
  {[ "bob" := mkuser "https://github.com/bob" "bob" "Bob" [in2021 5; in2021 70];
     "alice" := mkuser "https://github.com/alice" "alice" "Alice"
                  [in2021 1; in2021 2];
     "carol" := mkuser "https://github.com/carol" "carol" "carol"
                  [jan2021; in2021 10; jan2022];
     "dave" := mkuser "https://github.com/dave" "dave" "Dave" [jan2022] ]}.

(** Two users filed under different keys with one login: no caller builds
    such a mapping, and on it the order of the block is the runtime's. *)
Definition twins : gmap string user :=
  {[ "a" := mkuser "https://github.com/x" "x" "A" [in2021 1];
     "b" := mkuser "https://github.com/x" "x" "B" [in2021 2] ]}.

(** A checkpoint, a blocklist, a roster and the profiles of the API: a
    blocklisted login with ten commits, a login whose display name is an
    internal name, and an external login without display name. *)
Definition sampleUsersIn : gmap string (list string) :=
  {[ "spammer" := replicate 10 "2021-03-04T05:06:07Z";
     "jdoe" := ["2021-05-06T07:08:09Z"];
     "external1" := ["2021-01-01T00:00:01Z"; "2020-12-31T23:59:59-05:00"] ]}.

Definition sampleBlocklist : string := "craig[bot],spammer".

Definition sampleRoster : string := "Jane Doe <jane@cockroachlabs.com>".

Definition sampleProfiles (login : string) : option github.User :=
  if String.eqb login "jdoe"
  then Some (github.mkUser login "Jane Doe" ("https://github.com/" ++ login))
  else Some (github.mkUser login "" ("https://github.com/" ++ login)).

(** Twenty-one logins and a schedule: main fills the channel and spawns the
    goroutines, then the first twenty goroutines receive a token each. *)
Definition sampleLogins : list string :=
  (λ n, "user" ++ pretty n) <$> seq 0 21.

Definition sampleSchedule : list enrich.action :=
  (replicate 42 enrich.MainStep ++ (enrich.Go <$> seq 0 20))%list.

Definition sampleState : enrich.state :=
  default enrich.initial (enrich.run sampleLogins enrich.initial sampleSchedule).

(** ** Sample listings *)

(** The members of an organization on two pages, one login on both; the
    same listing with an error in place of its second page. *)
Definition sampleMembers (org : string) (opts : github.ListOptions)
    : option (list github.User * Z) :=
  if github.Page opts =? 0 then
    Some ([github.mkUser "jane" "Jane Doe" "https://github.com/jane";
           github.mkUser "joe" "" "https://github.com/joe"], 2)
  else if github.Page opts =? 2 then
    Some ([github.mkUser "jane" "Jane D." "https://github.com/jane"], 0)
  else None.

Definition sampleBrokenMembers (org : string) (opts : github.ListOptions)
    : option (list github.User * Z) :=
  if github.Page opts =? 0 then sampleMembers org opts else None.

(** Repositories on three pages, and a listing whose every page names a
    next one. *)
Definition sampleRepositories (org : string) (opts : github.ListOptions)
    : option (list string * Z) :=
  if github.Page opts =? 0 then Some (["cockroach"; "pebble"], 2)
  else if github.Page opts =? 2 then Some (["docs"], 3)
  else if github.Page opts =? 3 then Some ([], 0)
  else None.

Definition sampleUnendingRepositories (org : string)
    (opts : github.ListOptions) : option (list string * Z) :=
  Some (["cockroach"], 1).

(** The commits of two repositories: two pages of [cockroach], one of
    [pebble].  The parents given to a sample commit fill both of its parent
    lists, that of the repository commit and that of the git commit inside,
    so that the guard of line 376 is taken on one of them. *)
Definition sampleCommit (login email : string) (sec : Z)
    (parents : list string) : github.RepositoryCommit :=
  github.mkRepositoryCommit
    (github.mkCommit (github.mkCommitAuthor (time.mkTime sec 0 0) email)
       "Fix bug" parents)
    (github.mkUser login "" ("https://github.com/" ++ login))
    parents.

Definition sampleCommits (org repo : string) (opts : github.ListOptions)
    : option (list github.RepositoryCommit * Z) :=
  if String.eqb repo "cockroach" then
    if github.Page opts =? 0 then
      Some ([sampleCommit "external1" "external1@gmail.com" 1600000300 [];
             sampleCommit "jane" "jane@cockroachlabs.com" 1600000200 []], 2)
    else if github.Page opts =? 2 then
      Some ([sampleCommit "external1" "external1@gmail.com" 1600000100 ["0a1b2c"];
             sampleCommit "external2" "external2@gmail.com" 1600000000 []], 0)
    else None
  else if String.eqb repo "pebble" then
    if github.Page opts =? 0 then
      Some ([sampleCommit "external1" "external1@gmail.com" 1500000000 []], 0)
    else None
  else None.

(** One login, and a schedule that runs the phase to its end: main up to
    [wg.Wait()], the goroutine up to its [wg.Done()], main past the barrier,
    and the goroutine's last step. *)
Definition sampleFullSchedule : list enrich.action :=
  (replicate 23 enrich.MainStep ++ replicate 3 (enrich.Go 0)
   ++ [enrich.MainStep; enrich.Go 0])%list.

(** The same schedule with one more step of main, which brings it to
    [wg.Wait()]. *)
Definition sampleWaitingSchedule : list enrich.action :=
  (sampleSchedule ++ [enrich.MainStep])%list.

Definition sampleWaitingState : enrich.state :=
  default enrich.initial
    (enrich.run sampleLogins enrich.initial sampleWaitingSchedule).

(** ** A sample run of [main] *)

(** Files for the evaluation: a file holds a checkpoint or a text. *)
Inductive sampleBytes : Type :=
  | checkpointBytes (m : gmap string (list string))
  | textBytes (s : string).

Definition sampleMarshal (m : gmap string (list string)) : sampleBytes :=
  checkpointBytes m.

Definition sampleUnmarshal (b : sampleBytes)
    : option (gmap string (list string)) :=
  match b with
  | checkpointBytes m => Some m
  | textBytes _ => None
  end.

Definition sampleFlags (useIntermediate : bool) : flags :=
  mkFlags "cockroachdb" "cockroachdb" "cockroach" "AUTHORS"
    "cockroach,pebble" "intermediate_output.json" "output.md"
    useIntermediate "craig[bot],spammer".

Definition sampleContents (org repo path : string) : option string :=
  Some sampleRoster.

(** The commits of the sample listing, in its order. *)
Definition sampleCommitPages : list (list (list github.RepositoryCommit)) :=
  [ [ [sampleCommit "external1" "external1@gmail.com" 1600000300 [];
       sampleCommit "jane" "jane@cockroachlabs.com" 1600000200 []];
      [sampleCommit "external1" "external1@gmail.com" 1600000100 ["0a1b2c"];
       sampleCommit "external2" "external2@gmail.com" 1600000000 []] ];
    [ [sampleCommit "external1" "external1@gmail.com" 1500000000 []] ] ].

Definition sampleMemberPages : list (list github.User) :=
  [ [github.mkUser "jane" "Jane Doe" "https://github.com/jane";
     github.mkUser "joe" "" "https://github.com/joe"];
    [github.mkUser "jane" "Jane D." "https://github.com/jane"] ].

(** A clock set in 2021. *)
Definition sampleNow : time.Time := in2021 86400.


(** ** Tactics *)

(** Linear arithmetic with division and remainder by constants. *)
Ltac divlia := Z.div_mod_to_equations; lia.
Ltac quotlia := Z.quot_rem_to_equations; Z.div_mod_to_equations; lia.


(** * Properties *)

(** ** Go's [strings] functions *)

Example Split_samples :
  strings.Split "a,b,,c" "," = ["a"; "b"; ""; "c"]
  ∧ strings.Split "" "," = [""]
  ∧ strings.Split "," "," = [""; ""]
  ∧ strings.Join ["a"; "b"; ""; "c"] ", " = "a, b, , c"
  ∧ strings.Join [] ", " = "".
Proof. by vm_compute. Qed.

Example prefix_suffix_samples :
  strings.HasPrefix "# name" "#" = true
  ∧ strings.HasPrefix "" "#" = false
  ∧ strings.HasSuffix "<a@b>" ">" = true
  ∧ strings.HasSuffix "<" ">" = false
  ∧ strings.Contains "Jane <jane@cockroachlabs.com>" internalDomain = true
  ∧ strings.Contains "Jane <jane@cockroachlabs.co>" internalDomain = false
  ∧ isEmailField "<>" = true
  ∧ emailOfField "<>" = "".
Proof. by vm_compute. Qed.

Section strings_facts.

Implicit Types (s t : string) (c : ascii) (l : list string).

Lemma Split_nonempty s c : strings.Split s c ≠ [].
Proof.
  destruct s as [|a s]; simpl; [done|].
  destruct (Ascii.eqb a c); [done|]. by destruct (strings.Split s c).
Qed.

Lemma Join_cons_cons x y l sep :
  strings.Join (x :: y :: l) sep = x ++ sep ++ strings.Join (y :: l) sep.
Proof. done. Qed.

(** Joining the fields of a split with the separator gives the string
    back. *)
Lemma Join_Split s c : strings.Join (strings.Split s c) (String c "") = s.
Proof.
  induction s as [|a s IH]; simpl; [done|].
  destruct (Ascii.eqb_spec a c) as [->|Hne].
  - pose proof (Split_nonempty s c).
    destruct (strings.Split s c) as [|y l] eqn:E; [done|].
    rewrite Join_cons_cons. by rewrite IH.
  - pose proof (Split_nonempty s c).
    destruct (strings.Split s c) as [|y l] eqn:E; [done|].
    destruct l as [|z l]; [by rewrite <-IH|].
    rewrite Join_cons_cons. rewrite Join_cons_cons in IH.
    rewrite <-IH. reflexivity.
Qed.

Lemma string_app_assoc s1 s2 s3 : (s1 ++ s2) ++ s3 = s1 ++ s2 ++ s3.
Proof.
  induction s1 as [|a s1 IH]; [done|].
  change (String a ((s1 ++ s2) ++ s3) = String a (s1 ++ s2 ++ s3)).
  by rewrite IH.
Qed.

Lemma Join_app l1 l2 sep :
  l1 ≠ [] → l2 ≠ [] →
  strings.Join (l1 ++ l2) sep
  = strings.Join l1 sep ++ sep ++ strings.Join l2 sep.
Proof.
  intros H1 H2. induction l1 as [|x l1 IH]; [done|].
  destruct l1 as [|y l1].
  - destruct l2; [done|]. done.
  - change ((x :: y :: l1) ++ l2)%list with (x :: y :: (l1 ++ l2))%list.
    rewrite !Join_cons_cons.
    change (y :: (l1 ++ l2))%list with ((y :: l1) ++ l2)%list.
    rewrite IH by done. by rewrite !string_app_assoc.
Qed.

(** The fields before the [i]-th, joined, are the text of the line before
    the [i]-th field and its separator. *)
Lemma Join_take_drop s c i :
  (0 < i < length (strings.Split s c))%nat →
  s = strings.Join (take i (strings.Split s c)) (String c "")
      ++ String c "" ++ strings.Join (drop i (strings.Split s c)) (String c "").
Proof.
  intros Hi. rewrite <-Join_app.
  - by rewrite take_drop, Join_Split.
  - intros E. apply (f_equal length) in E. rewrite length_take in E.
    simpl in E. lia.
  - intros E. apply (f_equal length) in E. rewrite length_drop in E.
    simpl in E. lia.
Qed.

End strings_facts.
(** ** Facts about the roster parser *)

Section roster_facts.

Implicit Types (fields rest : list string) (E N : gset string).

(** The emails and the name the field loop adds, in closed form. *)
Lemma fieldsLoop_spec fields i rest seenEmail E N :
  fieldsLoop fields i rest seenEmail E N =
    ( list_to_set (emailOfField <$> filter isEmailField rest) ∪ E,
      if seenEmail then N
      else match list_find isEmailField rest with
           | Some (j, _) => {[ strings.Join (take (i + j) fields) " " ]} ∪ N
           | None => N
           end ).
Proof.
  revert i seenEmail E N.
  induction rest as [|field rest IH]; intros i seenEmail E N; simpl.
  { change (list_to_set _) with (∅ : gset string).
    rewrite (left_id_L ∅ (∪)). by destruct seenEmail. }
  rewrite filter_cons.
  destruct (isEmailField field) eqn:Hf; simpl; rewrite IH.
  - destruct seenEmail; rewrite ?Nat.add_0_r; f_equal; set_solver.
  - destruct seenEmail; [done|].
    destruct (list_find isEmailField rest) as [[j f]|]; simpl; [|done].
    by rewrite Nat.add_succ_r.
Qed.

(** A skipped line leaves both sets as they were. *)
Lemma lineStep_skipped acc line :
  skippedLine line = true → lineStep acc line = acc.
Proof.
  unfold skippedLine, lineStep.
  destruct (strings.HasPrefix line "#"); [done|]. simpl.
  by intros ->.
Qed.

Lemma lineStep_emails acc line e :
  e ∈ (lineStep acc line).1 ↔
    e ∈ acc.1 ∨
    (skippedLine line = false ∧
     ∃ field, field ∈ strings.Split line " " ∧ isEmailField field = true
              ∧ e = emailOfField field).
Proof.
  destruct (skippedLine line) eqn:Hs.
  { rewrite lineStep_skipped by done. naive_solver. }
  unfold skippedLine in Hs. apply orb_false_iff in Hs as [Hc Hd].
  unfold lineStep. rewrite Hc, Hd, fieldsLoop_spec. simpl.
  rewrite elem_of_union, elem_of_list_to_set, list_elem_of_fmap.
  split.
  - intros [(f & -> & Hf)|?]; [right|by left].
    apply list_elem_of_filter in Hf as [Hf Hin].
    split; [done|]. exists f. by rewrite (Is_true_true_1 _ Hf).
  - intros [?|(_ & f & Hin & Hf & ->)]; [by right|left].
    exists f. split; [done|]. apply list_elem_of_filter.
    split; [by rewrite Hf|done].
Qed.

Lemma foldl_lineStep_emails lines acc e :
  e ∈ (foldl lineStep acc lines).1 ↔
    e ∈ acc.1 ∨
    ∃ line field, line ∈ lines ∧ skippedLine line = false
      ∧ field ∈ strings.Split line " " ∧ isEmailField field = true
      ∧ e = emailOfField field.
Proof.
  revert acc. induction lines as [|l lines IH]; intros acc; simpl.
  { split; [by left|]. intros [?|(?&?&Hin&_)]; [done|]. by inv Hin. }
  rewrite IH, lineStep_emails. split.
  - intros [[?|(Hs & f & ? & ? & ?)]|(l' & f & ? & ?)].
    + by left.
    + right. exists l, f. split; [by left|done].
    + right. exists l', f. split; [by right|done].
  - intros [?|(l' & f & Hin & Hs & ? & ? & ?)]; [by left; left|].
    inv Hin.
    + left; right. split; [done|]. by exists f.
    + right. by exists l', f.
Qed.

End roster_facts.

(** ** Email fields are the fields in angle brackets *)

Section email_fields.

Implicit Types (e f s : string).

Lemma string_length_app s1 s2 :
  String.length (s1 ++ s2) = (String.length s1 + String.length s2)%nat.
Proof.
  induction s1 as [|a s1 IH]; [done|].
  change (S (String.length (s1 ++ s2))
          = S (String.length s1 + String.length s2)). by rewrite IH.
Qed.

Lemma substring_app_l e s : substring 0 (String.length e) (e ++ s) = e.
Proof.
  induction e as [|a e IH]; simpl; [by destruct s|].
  change (String a e ++ s) with (String a (e ++ s)). by rewrite IH.
Qed.

Lemma substring_app_r e s n :
  substring (String.length e) n (e ++ s) = substring 0 n s.
Proof. induction e as [|a e IH]; [done|]. exact IH. Qed.

Lemma substring_last_inv s c :
  s ≠ "" → substring (String.length s - 1) 1 s = String c "" →
  ∃ e, s = e ++ String c "".
Proof.
  induction s as [|a s IH]; [done|]. intros _ H.
  destruct s as [|b s].
  - simpl in H. injection H as ->. by exists "".
  - destruct IH as [e ->]; [done| |by exists (String a e)].
    simpl in H. simpl. by rewrite Nat.sub_0_r.
Qed.

(** A field in angle brackets is an email field, and its email is what the
    brackets enclose. *)
Lemma isEmailField_angle e :
  isEmailField ("<" ++ e ++ ">") = true ∧ emailOfField ("<" ++ e ++ ">") = e.
Proof.
  unfold isEmailField, emailOfField, strings.HasPrefix, strings.HasSuffix.
  change ("<" ++ e ++ ">") with (String "<" (e ++ ">")).
  cbn [String.length substring].
  rewrite string_length_app. cbn [String.length].
  replace (S (String.length e + 1) - 1 - 1)%nat with (String.length e) by lia.
  replace (S (String.length e + 1) - 1)%nat with (S (String.length e)) by lia.
  cbn [substring]. rewrite substring_app_l, substring_app_r.
  split; [|done]. cbn [substring].
  destruct (e ++ ">") eqn:E; [by destruct e|]. done.
Qed.

(** Only fields in angle brackets are email fields. *)
Lemma isEmailField_inv f :
  isEmailField f = true → ∃ e, f = "<" ++ e ++ ">".
Proof.
  unfold isEmailField, strings.HasPrefix, strings.HasSuffix.
  rewrite !andb_true_iff. intros [[_ Hp] [_ Hs]].
  apply String.eqb_eq in Hp, Hs.
  destruct f as [|a f]; [done|].
  cbn [String.length substring] in Hp. destruct f as [|b f].
  { simpl in *. congruence. }
  injection Hp as ->.
  cbn [String.length] in Hs.
  replace (S (S (String.length f)) - 1)%nat with (S (String.length f)) in Hs by lia.
  cbn [substring] in Hs.
  destruct (substring_last_inv (String b f) ">") as [e He]; [done| |].
  { cbn [String.length].
    by replace (S (String.length f) - 1)%nat with (String.length f) by lia. }
  exists e. by rewrite He.
Qed.

End email_fields.

(** ** The Filter Rules Provider *)

Example roster_jane :
  getOrganizationEmailsAndNamesFromAuthors
    "# comment
Jane Doe <jane@cockroachlabs.com>
Bob <bob@example.com>"
  = ({[ "jane@cockroachlabs.com" ]}, {[ "Jane Doe" ]}).
Proof. vm_compute. reflexivity. Qed.

(** C2, as the code has it.  An email is extracted exactly when it stands in
    angle brackets as a space-separated field of a line that is not a comment
    and that contains the internal domain: the domain is looked for in the
    line, not in the email, and a skipped line gives nothing. *)
Theorem roster_emails_of_kept_lines (contents e : string) :
  e ∈ (getOrganizationEmailsAndNamesFromAuthors contents).1 ↔
  ∃ line,
    line ∈ strings.Split contents "010"
    ∧ strings.HasPrefix line "#" = false
    ∧ strings.Contains line internalDomain = true
    ∧ ("<" ++ e ++ ">") ∈ strings.Split line " ".
Proof.
  unfold getOrganizationEmailsAndNamesFromAuthors.
  rewrite foldl_lineStep_emails. simpl. split.
  - intros [Hin|(line & field & Hl & Hs & Hf & He & ->)]; [set_solver|].
    unfold skippedLine in Hs. apply orb_false_iff in Hs as [Hc Hd].
    apply negb_false_iff in Hd.
    exists line. repeat split; [done..|].
    destruct (isEmailField_inv _ He) as [e ->].
    by rewrite (proj2 (isEmailField_angle e)).
  - intros (line & Hl & Hc & Hd & Hf). right.
    exists line, ("<" ++ e ++ ">"). repeat split; [done| |done|..].
    + unfold skippedLine. by rewrite Hc, Hd.
    + apply isEmailField_angle.
    + symmetry. apply isEmailField_angle.
Qed.

(** C2 as stated fails: on a line that contains the internal domain, an
    email without the domain is extracted as well. *)
Lemma roster_email_without_domain :
  "jane@gmail.com" ∈
    (getOrganizationEmailsAndNamesFromAuthors
       "Jane Doe <jane@gmail.com> <jane@cockroachlabs.com>").1
  ∧ strings.Contains "jane@gmail.com" internalDomain = false.
Proof.
  split; [|by vm_compute].
  apply foldl_lineStep_emails. right.
  exists "Jane Doe <jane@gmail.com> <jane@cockroachlabs.com>",
         "<jane@gmail.com>".
  split; [vm_compute (strings.Split _ _); by left|].
  split; [by vm_compute|].
  split; [vm_compute (strings.Split _ _); set_solver|].
  split; by vm_compute.
Qed.

(** C7.  On a roster line, one that is not a comment and contains the
    internal domain, with its first email field at index [i0]: every email
    field of the line gives its email, and the only name added is the text of
    the fields before the first email field, which is the text of the line
    before that field and its separating space. *)
Theorem roster_line_first_name_all_emails
    (line : string) (acc : gset string * gset string) (i0 : nat) (f0 : string) :
  strings.HasPrefix line "#" = false →
  strings.Contains line internalDomain = true →
  list_find isEmailField (strings.Split line " ") = Some (i0, f0) →
  lineStep acc line
  = ( list_to_set (emailOfField <$> filter isEmailField (strings.Split line " "))
      ∪ acc.1,
      {[ strings.Join (take i0 (strings.Split line " ")) " " ]} ∪ acc.2 )
  ∧ ((0 < i0)%nat →
     line = strings.Join (take i0 (strings.Split line " ")) " " ++ " "
            ++ strings.Join (drop i0 (strings.Split line " ")) " ").
Proof.
  intros Hc Hd Hfind. split.
  - unfold lineStep. rewrite Hc, Hd. simpl.
    by rewrite fieldsLoop_spec, Hfind.
  - intros Hi. apply Join_take_drop. split; [done|].
    apply list_find_Some in Hfind as (Hl & _). by apply lookup_lt_Some in Hl.
Qed.

Lemma roster_line_first_name_all_emails_witness :
  lineStep (∅, ∅) "Jane Doe <jane@cockroachlabs.com> <jd@example.org>"
  = ({[ "jane@cockroachlabs.com"; "jd@example.org" ]}, {[ "Jane Doe" ]})
  ∧ "Jane Doe <jane@cockroachlabs.com> <jd@example.org>"
    = "Jane Doe" ++ " " ++ "<jane@cockroachlabs.com> <jd@example.org>".
Proof.
  destruct (roster_line_first_name_all_emails
              "Jane Doe <jane@cockroachlabs.com> <jd@example.org>" (∅, ∅)
              2 "<jane@cockroachlabs.com>") as [H1 H2];
    [by vm_compute..|].
  split; [rewrite H1; by vm_compute|].
  rewrite (H2 ltac:(lia)) at 1. by vm_compute.
Defined.

(** A comment line is no roster entry: whatever it contains, it adds neither
    name nor email (line 138). *)
Example roster_comment_line_adds_nothing :
  strings.Contains "#Jane Doe <jane@cockroachlabs.com> <jd@example.org>"
    internalDomain = true
  ∧ length (filter isEmailField
      (strings.Split "#Jane Doe <jane@cockroachlabs.com> <jd@example.org>" " "))
    = 2%nat
  ∧ lineStep (∅, ∅) "#Jane Doe <jane@cockroachlabs.com> <jd@example.org>"
    = (∅, ∅).
Proof. by vm_compute. Qed.

(** ** The Commit Collector *)

Section collector_facts.

Variables (organizationMembers emails names : gset string).

Implicit Types (commit : github.RepositoryCommit)
  (userTimes : gmap string (list time.Time)).

(** The guards, read together: a commit is kept exactly when the parent list
    of its git commit is empty and it passes the six tests on its author and
    message. *)
Lemma skipCommit_false commit :
  skipCommit organizationMembers emails names commit = false ↔
    github.Parents (github.GetCommit commit) = []
    ∧ github.GetLogin (github.GetAuthor commit) ≠ ""
    ∧ (github.GetLogin (github.GetAuthor commit) ∉ organizationMembers)
    ∧ (strings.Contains
         (github.GetEmail (github.Commit_GetAuthor (github.GetCommit commit)))
         internalDomain = false)
    ∧ (strings.HasPrefix (github.GetMessage (github.GetCommit commit))
         "Merge pull request " = false)
    ∧ (github.GetName (github.GetAuthor commit) ∉ names)
    ∧ github.GetEmail (github.Commit_GetAuthor (github.GetCommit commit))
      ∉ emails.
Proof.
  unfold skipCommit.
  destruct (github.Parents (github.GetCommit commit)) as [|p ps]; simpl;
    [|naive_solver].
  destruct (String.eqb_spec (github.GetLogin (github.GetAuthor commit)) "");
    [naive_solver|].
  case_bool_decide; [naive_solver|].
  destruct (strings.Contains _ _); [naive_solver|].
  destruct (strings.HasPrefix _ _); [naive_solver|].
  case_bool_decide; [naive_solver|].
  case_bool_decide; naive_solver.
Qed.

End collector_facts.

(** C1, as the code has it.  The commit listing gives the parents of a
    commit on the repository commit; the guard of line 376 reads the parent
    list of the git commit inside, which the listing leaves empty.  So for a
    listed commit the parents play no part: whatever they are, the commit is
    kept exactly when it satisfies the other filter conditions, and then its
    author date is appended to the timestamps of its author's login;
    otherwise the ContributionRecord is left as it was.  In particular a
    root commit that satisfies them is included. *)
Theorem listed_commit_kept_whatever_its_parents
    (organizationMembers emails names : gset string)
    (userTimes : gmap string (list time.Time))
    (commit : github.RepositoryCommit) :
  listed commit →
  (∀ parents : list string,
     commitStep organizationMembers emails names userTimes
       (github.mkRepositoryCommit (github.GetCommit commit)
          (github.GetAuthor commit) parents)
     = commitStep organizationMembers emails names userTimes commit)
  ∧ (otherConditions organizationMembers emails names commit →
     commitStep organizationMembers emails names userTimes commit
     = <[ github.GetLogin (github.GetAuthor commit) :=
            (default [] (userTimes !! github.GetLogin (github.GetAuthor commit))
             ++ [github.GetDate
                   (github.Commit_GetAuthor (github.GetCommit commit))])%list ]>
         userTimes)
  ∧ (¬ otherConditions organizationMembers emails names commit →
     commitStep organizationMembers emails names userTimes commit = userTimes).
Proof.
  unfold listed, otherConditions. intros Hl. split; [done|]. split.
  - intros H. unfold commitStep.
    rewrite (proj2 (skipCommit_false _ _ _ commit)); [done|naive_solver].
  - intros H. unfold commitStep.
    destruct (skipCommit _ _ _ commit) eqn:E; [done|].
    apply skipCommit_false in E. naive_solver.
Qed.

Lemma listed_commit_kept_whatever_its_parents_witness :
  github.RepositoryCommit_Parents (scenarioCommit ["0a1b2c"]) = ["0a1b2c"]
  ∧ commitStep {[ "jane" ]} {[ "jane@cockroachlabs.com" ]} {[ "Jane Doe" ]} ∅
      (scenarioCommit ["0a1b2c"])
    = {[ "external1" := [time.mkTime 1600000000 0 0] ]}
  ∧ commitStep {[ "jane" ]} {[ "jane@cockroachlabs.com" ]} {[ "Jane Doe" ]} ∅
      (scenarioCommit [])
    = {[ "external1" := [time.mkTime 1600000000 0 0] ]}.
Proof.
  split; [done|].
  destruct (listed_commit_kept_whatever_its_parents
              {[ "jane" ]} {[ "jane@cockroachlabs.com" ]} {[ "Jane Doe" ]} ∅
              (scenarioCommit ["0a1b2c"])) as (Hp & Hk & _); [done|].
  assert (otherConditions {[ "jane" ]} {[ "jane@cockroachlabs.com" ]}
            {[ "Jane Doe" ]} (scenarioCommit ["0a1b2c"])) as Ho.
  { repeat split; try (apply (bool_decide_unpack _); by vm_compute);
      by vm_compute. }
  split.
  - by rewrite (Hk Ho).
  - change (scenarioCommit []) with
      (github.mkRepositoryCommit
         (github.GetCommit (scenarioCommit ["0a1b2c"]))
         (github.GetAuthor (scenarioCommit ["0a1b2c"])) []).
    by rewrite (Hp []), (Hk Ho).
Defined.

(** C1 as stated fails on a root commit: the first commit of a repository,
    by an external author who passes the other conditions, is recorded. *)
Lemma root_commit_by_external_author_recorded :
  github.RepositoryCommit_Parents (scenarioCommit []) = []
  ∧ github.Parents (github.GetCommit (scenarioCommit [])) = []
  ∧ collect {[ "jane" ]} {[ "jane@cockroachlabs.com" ]} {[ "Jane Doe" ]}
      [scenarioCommit []]
    = {[ "external1" := [time.mkTime 1600000000 0 0] ]}.
Proof. by vm_compute. Qed.

(** ** The calendar of [time]: days and dates are inverse *)

Section calendar.

Import time.

(** A property checked on every number of a range holds on the range. *)
Lemma allFrom_spec (f : Z → bool) (n : nat) (x : Z) :
  allFrom f n x = true → ∀ y, x <= y < x + Z.of_nat n → f y = true.
Proof.
  revert x. induction n as [|n IH]; intros x H y Hy; [lia|].
  simpl in H. apply andb_true_iff in H as [Hx H].
  destruct (decide (y = x)) as [->|?]; [done|].
  apply (IH (x + 1)); [done|lia].
Qed.

Lemma allBelow_spec (f : Z → bool) (n : Z) :
  allFrom f (Z.to_nat n) 0 = true → ∀ y, 0 <= y < n → f y = true.
Proof. intros H y Hy. apply (allFrom_spec f _ 0 H). lia. Qed.

Lemma cycleDayOk_all d : 0 <= d < daysPer400Years → cycleDayOk d = true.
Proof. apply allBelow_spec. vm_compute. reflexivity. Qed.

Lemma yearDayOk_all leap yday :
  0 <= yday < yearLength leap → yearDayOk leap yday = true.
Proof.
  destruct leap; apply allBelow_spec; vm_compute; reflexivity.
Qed.

Lemma isLeap_cycle q y : isLeap (400 * q + y + 1) = isLeap (y + 1).
Proof.
  unfold isLeap.
  replace (400 * q + y + 1) with (y + 1 + (100 * q) * 4) at 1 by lia.
  replace (400 * q + y + 1) with (y + 1 + (4 * q) * 100) at 1 by lia.
  replace (400 * q + y + 1) with (y + 1 + q * 400) by lia.
  by rewrite !Z_mod_plus_full.
Qed.

(** The date of a day count is a date of the calendar, and its day count is
    the one it came from. *)
Lemma civilFromDays_spec days year month day :
  civilFromDays days = (year, month, day) →
  1 <= month <= 12 ∧ 1 <= day <= daysIn month year
  ∧ daysFromCivil year month day = days.
Proof.
  unfold civilFromDays.
  assert (0 <= days mod daysPer400Years < daysPer400Years) as Hr
    by (by apply Z.mod_pos_bound).
  pose proof (cycleDayOk_all _ Hr) as Hc. unfold cycleDayOk in Hc.
  destruct (cycleYearDay (days mod daysPer400Years)) as [y yday].
  rewrite !andb_true_iff, !Z.leb_le, !Z.ltb_lt, Z.eqb_eq in Hc.
  destruct Hc as ((((Hy0 & Hy1) & Hd0) & Hd1) & Hsum).
  rewrite isLeap_cycle.
  pose proof (yearDayOk_all (isLeap (y + 1)) yday) as Hm.
  unfold cycleYearLength in Hd1. specialize (Hm (conj Hd0 Hd1)).
  unfold yearDayOk in Hm.
  destruct (monthDay (isLeap (y + 1)) yday) as [m d].
  rewrite !andb_true_iff, !Z.leb_le, Z.eqb_eq in Hm.
  destruct Hm as ((((Hm1 & Hm2) & Hdd1) & Hdd2) & Hyd).
  intros [= <- <- <-]. split; [done|]. split.
  - unfold daysIn. rewrite isLeap_cycle. by unfold monthLength in Hdd2.
  - unfold daysFromCivil. rewrite isLeap_cycle.
    replace (400 * (days / daysPer400Years) + y + 1 - 1)
      with (y + (days / daysPer400Years) * 400) by lia.
    rewrite Z_div_plus_full, Z_mod_plus_full by lia.
    rewrite (Z.div_small y 400), (Z.mod_small y 400) by lia.
    assert (days = daysPer400Years * (days / daysPer400Years)
                   + days mod daysPer400Years) by (by apply Z.div_mod).
    lia.
Qed.

End calendar.

(** ** [Format] and [Parse] with the layout RFC 3339 *)

Section rfc3339.

Import time.

Lemma appendInt_two x : 0 <= x < 100 → appendInt x 2 = twoDigits x.
Proof.
  intros Hx. apply String.eqb_eq.
  apply (allBelow_spec (λ x, String.eqb (appendInt x 2) (twoDigits x)) 100);
    [|done].
  vm_compute. reflexivity.
Qed.

Lemma appendInt_four x : 0 <= x < 10000 → appendInt x 4 = fourDigits x.
Proof.
  intros Hx. apply String.eqb_eq.
  apply (allBelow_spec (λ x, String.eqb (appendInt x 4) (fourDigits x)) 10000);
    [|done].
  vm_compute. reflexivity.
Qed.

Lemma digitChar_spec a :
  0 <= a <= 9 →
  isDigit (digitChar a) = true
  ∧ Z.of_N (N_of_ascii (digitChar a)) - 48 = a
  ∧ (N_of_ascii (digitChar a) <? 128)%N = true.
Proof.
  intros Ha.
  assert (a = 0 ∨ a = 1 ∨ a = 2 ∨ a = 3 ∨ a = 4 ∨ a = 5 ∨ a = 6 ∨ a = 7
          ∨ a = 8 ∨ a = 9) as H by lia.
  repeat destruct H as [->|H]; try subst a; by vm_compute.
Qed.

Lemma atoi_digit a s acc :
  0 <= a <= 9 → atoi (String (digitChar a) s) acc = atoi s (acc * 10 + a).
Proof.
  intros Ha. destruct (digitChar_spec a Ha) as (H1 & H2 & _).
  cbn [atoi]. rewrite H1. f_equal. lia.
Qed.

Lemma atoi_twoDigits x acc :
  0 <= x < 100 → atoi (twoDigits x) acc = Some (acc * 100 + x).
Proof.
  intros Hx. unfold twoDigits.
  rewrite !atoi_digit by divlia. cbn [atoi]. f_equal. divlia.
Qed.

Lemma atoi_fourDigits x :
  0 <= x < 10000 → atoi (fourDigits x) 0 = Some x.
Proof.
  intros Hx. unfold fourDigits.
  rewrite !atoi_digit by divlia.
  rewrite atoi_twoDigits by divlia. f_equal. divlia.
Qed.

Lemma parseUint_twoDigits x lo hi :
  0 <= x < 100 → lo <= x <= hi →
  parseUint (twoDigits x) lo hi = Some x.
Proof.
  intros Hx Hr. unfold parseUint. rewrite atoi_twoDigits by done.
  change (0 * 100 + x) with x. simpl.
  by rewrite (proj2 (Z.ltb_ge x lo)), (proj2 (Z.ltb_ge hi x)) by lia.
Qed.

Lemma parseUint_fourDigits x :
  0 <= x <= 9999 → parseUint (fourDigits x) 0 9999 = Some x.
Proof.
  intros Hx. unfold parseUint. rewrite atoi_fourDigits by lia. simpl.
  by rewrite (proj2 (Z.ltb_ge x 0)), (proj2 (Z.ltb_ge 9999 x)) by lia.
Qed.

End rfc3339.

Section rfc3339_roundtrip.

Import time.

Lemma substring_all (s : string) : substring 0 (String.length s) s = s.
Proof. induction s as [|a s IH]; simpl; by f_equal. Qed.

Lemma substring_0_0 (s : string) : substring 0 0 s = "".
Proof. by destruct s. Qed.

(** Parsing the text of a date and time of day in range reads its fields
    back, and goes on with what follows the seconds. *)
Lemma Parse_layout year month day hour min sec tail :
  0 <= year <= 9999 → 1 <= month <= 12 → 1 <= day <= daysIn month year →
  0 <= hour <= 23 → 0 <= min <= 59 → 0 <= sec <= 59 →
  parseRFC3339 (layoutRFC3339 year month day hour min sec tail)
  = parseZone year month day hour min sec tail.
Proof.
  intros Hy Hm Hd Hh Hmi Hs.
  assert (daysIn month year <= 31) as Hd31.
  { unfold daysIn. repeat case_match; lia. }
  unfold parseRFC3339, layoutRFC3339.
  cbn [String.length Nat.ltb Nat.leb substring charAt String.get
       Ascii.eqb Bool.eqb andb negb dropString Nat.sub].
  rewrite (substring_0_0 tail), Nat.sub_0_r, substring_all.
  fold (twoDigits (year mod 100)). fold (fourDigits year).
  fold (twoDigits month) (twoDigits day) (twoDigits hour) (twoDigits min)
       (twoDigits sec).
  rewrite parseUint_fourDigits by done. cbn [mbind option_bind].
  rewrite (parseUint_twoDigits month) by lia. cbn [mbind option_bind].
  rewrite (parseUint_twoDigits day) by lia. cbn [mbind option_bind].
  rewrite (parseUint_twoDigits hour) by lia. cbn [mbind option_bind].
  rewrite (parseUint_twoDigits min) by lia. cbn [mbind option_bind].
  rewrite (parseUint_twoDigits sec) by lia. cbn [mbind option_bind].
  done.
Qed.

Lemma localSecs_range t : 0 <= localSecs t < 86400.
Proof. unfold localSecs, secondsPerDay. by apply Z.mod_pos_bound. Qed.

(** For a year of four digits, [Format] writes the layout digit by digit. *)
Lemma Format_layout t year month day :
  civilFromDays (localDays t) = (year, month, day) →
  0 <= year <= 9999 →
  Format_RFC3339 t
  = layoutRFC3339 year month day (localSecs t / 3600)
      (localSecs t mod 3600 / 60) (localSecs t mod 60)
      (formatZone (zoneOffset t)).
Proof.
  intros Hciv Hy. unfold Format_RFC3339. rewrite Hciv.
  destruct (civilFromDays_spec _ _ _ _ Hciv) as (Hm & Hd & _).
  assert (daysIn month year <= 31) as Hd31.
  { unfold daysIn. repeat case_match; lia. }
  pose proof (localSecs_range t) as Hs.
  rewrite appendInt_four by lia.
  rewrite !appendInt_two by divlia.
  reflexivity.
Qed.

(** The zone [Format] writes for an offset of whole minutes, less than a
    day, is read back as that offset. *)
Lemma parseZone_formatZone year month day hour min sec off :
  off mod 60 = 0 → -86400 < off < 86400 →
  parseZone year month day hour min sec (formatZone off)
  = Some (Date year month day hour min sec 0 off).
Proof.
  intros Hmod Hoff. unfold formatZone.
  destruct (Z.eqb_spec off 0) as [->|Hne]; [done|].
  set (zone := Z.quot off 60).
  assert (zone * 60 = off ∧ -1440 < zone < 1440) as [Hq Hz].
  { unfold zone. quotlia. }
  set (hh := Z.abs zone / 60). set (mm := Z.abs zone mod 60).
  assert (0 <= hh <= 23 ∧ 0 <= mm <= 59 ∧ Z.abs zone = hh * 60 + mm)
    as (Hh & Hm & Habs).
  { unfold hh, mm. divlia. }
  rewrite !appendInt_two by lia.
  unfold parseZone.
  destruct (Z.ltb_spec zone 0).
  - change ("-" ++ twoDigits hh ++ ":" ++ twoDigits mm)
      with (String "-" (String (digitChar (hh / 10))
              (String (digitChar (hh mod 10)) (String ":" (twoDigits mm))))).
    cbn [parseFraction String.eqb Ascii.eqb Bool.eqb String.length Nat.eqb
         negb substring twoDigits].
    fold (twoDigits hh). fold (twoDigits mm).
    rewrite (parseUint_twoDigits hh), (parseUint_twoDigits mm) by lia.
    cbn. f_equal. f_equal. lia.
  - change ("+" ++ twoDigits hh ++ ":" ++ twoDigits mm)
      with (String "+" (String (digitChar (hh / 10))
              (String (digitChar (hh mod 10)) (String ":" (twoDigits mm))))).
    cbn [parseFraction String.eqb Ascii.eqb Bool.eqb String.length Nat.eqb
         negb substring twoDigits].
    fold (twoDigits hh). fold (twoDigits mm).
    rewrite (parseUint_twoDigits hh), (parseUint_twoDigits mm) by lia.
    cbn. f_equal. f_equal. lia.
Qed.

(** A time that RFC 3339 can write is read back as the same instant in the
    same zone, without its fraction of a second. *)
Lemma Parse_Format t :
  representable t →
  Parse_RFC3339 (Format_RFC3339 t) = Some (truncateToSecond t).
Proof.
  intros (Hy & Hmod & Hoff & _). unfold Year in Hy.
  destruct (civilFromDays (localDays t)) as [[year month] day] eqn:Hciv.
  simpl in Hy.
  destruct (civilFromDays_spec _ _ _ _ Hciv) as (Hm & Hd & Hdays).
  pose proof (localSecs_range t) as Hs.
  rewrite (Format_layout t year month day) by done.
  unfold Parse_RFC3339. rewrite Parse_layout by (try done; divlia).
  rewrite parseZone_formatZone by done.
  f_equal. unfold Date, truncateToSecond. f_equal.
  rewrite Hdays. unfold localDays, localSecs, secondsPerDay in *. divlia.
Qed.

(** What [Format] writes is ASCII, hence valid UTF-8. *)
Lemma isASCII_ValidString (s : string) :
  utf8.isASCII s = true → utf8.ValidString s = true.
Proof.
  induction s as [|c s IH]; [done|]. cbn [utf8.isASCII utf8.ValidString].
  intros [Hc Hs]%andb_true_iff. rewrite Hc. by apply IH.
Qed.

Lemma isASCII_app (a b : string) :
  utf8.isASCII (a ++ b) = utf8.isASCII a && utf8.isASCII b.
Proof.
  induction a as [|c a IH]; [done|].
  change (String c a ++ b) with (String c (a ++ b)).
  cbn [utf8.isASCII]. by rewrite IH, andb_assoc.
Qed.

Lemma isASCII_twoDigits x : 0 <= x < 100 → utf8.isASCII (twoDigits x) = true.
Proof.
  intros Hx. unfold twoDigits. cbn [utf8.isASCII].
  destruct (digitChar_spec (x / 10)) as (_ & _ & ->); [divlia|].
  destruct (digitChar_spec (x mod 10)) as (_ & _ & ->); [divlia|]. done.
Qed.

Lemma isASCII_fourDigits x :
  0 <= x < 10000 → utf8.isASCII (fourDigits x) = true.
Proof.
  intros Hx. unfold fourDigits. cbn [utf8.isASCII].
  destruct (digitChar_spec (x / 1000)) as (_ & _ & ->); [divlia|].
  destruct (digitChar_spec (x / 100 mod 10)) as (_ & _ & ->); [divlia|].
  apply isASCII_twoDigits. divlia.
Qed.

Lemma isASCII_formatZone off :
  off mod 60 = 0 → -86400 < off < 86400 →
  utf8.isASCII (formatZone off) = true.
Proof.
  intros Hmod Hoff. unfold formatZone.
  destruct (Z.eqb_spec off 0) as [->|Hne]; [done|].
  rewrite !appendInt_two by quotlia.
  rewrite !isASCII_app, !isASCII_twoDigits by quotlia.
  by destruct (_ <? 0).
Qed.

Lemma Format_ValidString t :
  representable t → utf8.ValidString (Format_RFC3339 t) = true.
Proof.
  intros (Hy & Hmod & Hoff & _). unfold Year in Hy.
  destruct (civilFromDays (localDays t)) as [[year month] day] eqn:Hciv.
  simpl in Hy.
  destruct (civilFromDays_spec _ _ _ _ Hciv) as (Hm & Hd & Hdays).
  assert (daysIn month year <= 31) as Hd31.
  { unfold daysIn. repeat case_match; lia. }
  pose proof (localSecs_range t) as Hs.
  rewrite (Format_layout t year month day) by done.
  apply isASCII_ValidString.
  change (layoutRFC3339 ?y ?m ?d ?h ?mi ?se ?z)
    with (fourDigits y ++ "-" ++ twoDigits m ++ "-" ++ twoDigits d ++ "T"
          ++ twoDigits h ++ ":" ++ twoDigits mi ++ ":" ++ twoDigits se ++ z).
  rewrite !isASCII_app, isASCII_fourDigits, !isASCII_twoDigits by divlia.
  by rewrite isASCII_formatZone.
Qed.

End rfc3339_roundtrip.

(** ** [Format] and [Parse] on sample instants *)

Example format_epoch :
  time.Format_RFC3339 (time.mkTime 0 0 0) = "1970-01-01T00:00:00Z".
Proof. vm_compute. reflexivity. Qed.

Example format_with_offset :
  time.Format_RFC3339 (time.mkTime 1609459199 5 (-18000))
  = "2020-12-31T18:59:59-05:00".
Proof. vm_compute. reflexivity. Qed.

Example parse_with_fraction :
  time.Parse_RFC3339 "2020-12-31T18:59:59.25-05:00"
  = Some (time.mkTime 1609459199 250000000 (-18000)).
Proof. vm_compute. reflexivity. Qed.

Example format_leap_day :
  time.Format_RFC3339 (time.mkTime 951826154 5 3600)
  = "2000-02-29T13:09:14+01:00".
Proof. vm_compute. reflexivity. Qed.

Example format_year_one :
  time.Format_RFC3339 (time.mkTime (-62135596800) 5 0)
  = "0001-01-01T00:00:00Z".
Proof. vm_compute. reflexivity. Qed.

Example format_year_ends :
  time.Format_RFC3339 (time.mkTime 1709251199 0 0) = "2024-02-29T23:59:59Z"
  ∧ time.Format_RFC3339 (time.mkTime 1709251200 0 0) = "2024-03-01T00:00:00Z"
  ∧ time.Format_RFC3339 (time.mkTime 1735689599 0 0) = "2024-12-31T23:59:59Z"
  ∧ time.Format_RFC3339 (time.mkTime 4102444799 0 0) = "2099-12-31T23:59:59Z"
  ∧ time.Format_RFC3339 (time.mkTime 4107542400 0 0) = "2100-03-01T00:00:00Z".
Proof. vm_compute. repeat split. Qed.

Example parse_rejects :
  time.Parse_RFC3339 "2021-02-29T00:00:00Z" = None
  ∧ time.Parse_RFC3339 "2021-01-01 00:00:00Z" = None
  ∧ time.Parse_RFC3339 "2021-01-01T00:00:00" = None
  ∧ time.Parse_RFC3339 "2021-01-01T24:00:00Z" = None
  ∧ time.Parse_RFC3339 "2021-01-01T00:00:00+25:00" = None
  ∧ time.Parse_RFC3339 "2021-01-01T00:00:00Zulu" = None.
Proof. vm_compute. repeat split. Qed.

(** What only the layout parser takes: an hour of one digit, a comma before
    the fraction, a zone of twenty-four hours. *)
Example parse_by_the_layout :
  time.parseRFC3339 "2021-03-04T5:06:07Z" = None
  ∧ time.Parse_RFC3339 "2021-03-04T5:06:07Z"
    = Some (time.mkTime 1614834367 0 0)
  ∧ time.parseRFC3339 "2021-03-04T05:06:07,5Z" = None
  ∧ time.Parse_RFC3339 "2021-03-04T05:06:07,5Z"
    = Some (time.mkTime 1614834367 500000000 0)
  ∧ time.parseRFC3339 "2021-03-04T05:06:07+24:00" = None
  ∧ time.Parse_RFC3339 "2021-03-04T05:06:07+24:00"
    = Some (time.mkTime 1614747967 0 86400).
Proof. vm_compute. repeat split. Qed.


(** ** The Aggregator/Formatter *)

Section in_range.

Implicit Types (t from to : time.Time).

Lemma After_spec t u' : time.After t u' = true ↔ instantLt u' t.
Proof.
  unfold time.After, instantLt.
  rewrite orb_true_iff, andb_true_iff, !Z.ltb_lt, Z.eqb_eq. naive_solver lia.
Qed.

Lemma Before_spec t u' : time.Before t u' = true ↔ instantLt t u'.
Proof.
  unfold time.Before, instantLt.
  rewrite orb_true_iff, andb_true_iff, !Z.ltb_lt, Z.eqb_eq. naive_solver lia.
Qed.

(** The test of line 171 is the specification's "strictly within". *)
Lemma inRange_spec from to t :
  time.After t from && time.Before t to = true ↔ strictlyWithin from to t.
Proof.
  unfold strictlyWithin. by rewrite andb_true_iff, After_spec, Before_spec.
Qed.

Lemma instantLt_irrefl_Equal t u' : time.Equal t u' = true → ¬ instantLt t u'.
Proof.
  unfold time.Equal, instantLt. rewrite andb_true_iff, !Z.eqb_eq. lia.
Qed.

Lemma instantLt_irrefl_Equal_r t u' : time.Equal t u' = true → ¬ instantLt u' t.
Proof.
  unfold time.Equal, instantLt. rewrite andb_true_iff, !Z.eqb_eq. lia.
Qed.

End in_range.

Section count_loops.

Implicit Types (ts : list time.Time) (from to : time.Time)
  (m : gmap string Z) (users : gmap string user).

Lemma countInRange_nonneg ts from to : 0 <= countInRange ts from to.
Proof. unfold countInRange. lia. Qed.

Lemma countInRange_cons t ts from to :
  countInRange (t :: ts) from to
  = (if time.After t from && time.Before t to then 1 else 0)
    + countInRange ts from to.
Proof.
  unfold countInRange. rewrite filter_cons.
  destruct (time.After t from && time.Before t to) eqn:E.
  - rewrite decide_True by (by apply inRange_spec). simpl length. lia.
  - rewrite decide_False; [lia|]. rewrite <-inRange_spec. by rewrite E.
Qed.

(** The inner loop adds the user's count of timestamps in range, and makes
    no entry when there is none. *)
Lemma countTimes_lookup k ts from to m k' :
  countTimes k ts from to m !! k'
  = if decide (k' = k) then bump (m !! k) (countInRange ts from to)
    else m !! k'.
Proof.
  unfold countTimes. revert m.
  induction ts as [|t ts IH]; intros m.
  { simpl. unfold bump, countInRange. simpl. by case_decide; subst. }
  cbn [foldl]. rewrite IH, countInRange_cons.
  pose proof (countInRange_nonneg ts from to).
  destruct (time.After t from && time.Before t to).
  - case_decide; subst.
    + rewrite lookup_insert_eq. unfold bump.
      destruct (Z.eqb_spec (countInRange ts from to) 0) as [->|?].
      * done.
      * rewrite (proj2 (Z.eqb_neq (1 + _) 0)) by lia. simpl. f_equal. lia.
    + by rewrite lookup_insert_ne.
  - case_decide; [|done]. f_equal.
Qed.

End count_loops.

Section entries.

Variable mapRange : ∀ V : Type, gmap string V → list (string * V).
Variable sortSlice : ∀ A : Type, (A → A → bool) → list A → list A.
Hypothesis Hrange : MapRangeSpec mapRange.
Hypothesis Hsort : SortSliceSpec sortSlice.

Implicit Types (from to : time.Time) (users : gmap string user)
  (it : list (string * user)).

Lemma foldl_countTimes_lookup it from to (m : gmap string Z) k :
  NoDup it.*1 →
  foldl (λ m kv, countTimes kv.1 (times kv.2) from to m) m it !! k
  = match (list_to_map it : gmap string user) !! k with
    | Some obj => bump (m !! k) (countInRange (times obj) from to)
    | None => m !! k
    end.
Proof.
  revert m. induction it as [|[k1 o1] it IH]; intros m Hnd; [done|].
  apply NoDup_cons in Hnd as [Hk1 Hnd]. cbn [foldl].
  rewrite IH by done. cbn [fst snd]. rewrite list_to_map_cons.
  rewrite countTimes_lookup.
  destruct (decide (k = k1)) as [->|Hne].
  - rewrite lookup_insert_eq.
    by rewrite (proj1 (not_elem_of_list_to_map it k1) Hk1).
  - by rewrite lookup_insert_ne.
Qed.

Lemma mapRange_NoDup {V} (m : gmap string V) : NoDup (mapRange V m).*1.
Proof. rewrite (Hrange V m). apply NoDup_fst_map_to_list. Qed.

Lemma mapRange_list_to_map {V} (m : gmap string V) :
  list_to_map (mapRange V m) = m.
Proof.
  rewrite (list_to_map_proper _ (map_to_list m)).
  - apply list_to_map_to_list.
  - apply mapRange_NoDup.
  - apply Hrange.
Qed.

(** [timesByUser] holds, for each user with a timestamp in range, the
    number of such timestamps, and nothing else. *)
Lemma timesByUserOf_spec users from to :
  timesByUserOf mapRange users from to = omap (countOf from to) users.
Proof.
  apply map_eq. intros k. unfold timesByUserOf.
  rewrite foldl_countTimes_lookup by apply mapRange_NoDup.
  rewrite mapRange_list_to_map, lookup_omap, lookup_empty.
  destruct (users !! k) as [obj|]; [|done]. simpl.
  unfold bump, countOf. by destruct (_ =? 0).
Qed.

Lemma toSort_of_submap users (m : gmap string user) from to :
  m ⊆ users →
  (λ kc, mkEntry (default zeroUser (users !! kc.1)) kc.2)
    <$> map_to_list (omap (countOf from to) m)
  ≡ₚ omap (λ kv, entryOf from to kv.2) (map_to_list m).
Proof.
  induction m as [|i x m Hi IH] using map_ind; intros Hsub.
  { by rewrite omap_empty, !map_to_list_empty. }
  assert (users !! i = Some x) as Hx.
  { eapply lookup_weaken; [|done]. apply lookup_insert_eq. }
  assert (m ⊆ users) as Hm.
  { etrans; [|done]. by apply insert_subseteq. }
  rewrite (map_to_list_insert m i x) by done. cbn [omap list_omap snd].
  rewrite omap_insert. unfold entryOf at 1, countOf at 1.
  destruct (countInRange (times x) from to =? 0) eqn:E.
  - rewrite delete_id by (by rewrite lookup_omap, Hi). by apply IH.
  - rewrite map_to_list_insert by (by rewrite lookup_omap, Hi).
    rewrite fmap_cons. cbn [fst snd]. rewrite Hx. simpl.
    f_equiv. by apply IH.
Qed.

(** The entries of a bucket are those of the users with a timestamp in
    range, each with the number of such timestamps. *)
Lemma ranking_entries users from to :
  ranking mapRange sortSlice users from to ≡ₚ entriesInRange users from to.
Proof.
  unfold ranking, toSortOf, entriesInRange.
  rewrite (proj1 (Hsort _ _ _)), timesByUserOf_spec, (Hrange _ _).
  by apply toSort_of_submap.
Qed.

End entries.

(** *** The comparator of the ranking *)

Section comparator.

Implicit Types (a b c : toSortEntry).

(** Go's [<] on strings is the strict part of the bytewise order. *)
Lemma ltb_negb_leb (s1 s2 : string) : String.ltb s1 s2 = negb (String.leb s2 s1).
Proof.
  unfold String.ltb, String.leb. rewrite (String.compare_antisym s2 s1).
  by destruct (String.compare s1 s2).
Qed.

Lemma ltb_false_le (s1 s2 : string) : String.ltb s1 s2 = false ↔ String.le s2 s1.
Proof.
  rewrite ltb_negb_leb, negb_false_iff. unfold String.le.
  by rewrite Is_true_true.
Qed.

Lemma ltb_true_le (s1 s2 : string) : String.ltb s1 s2 = true ↔ String.le s1 s2 ∧ s1 ≠ s2.
Proof.
  split.
  - intros H. assert (¬ String.le s2 s1) as Hn.
    { rewrite <-ltb_false_le. by rewrite H. }
    split; [by destruct (total String.le s1 s2)|].
    intros ->. by apply Hn.
  - intros [Hle Hne]. apply not_false_iff_true. rewrite ltb_false_le.
    intros Hle'. apply Hne. by apply (anti_symm String.le).
Qed.

(** The comparator says "not less" exactly when the first entry may be
    ranked before the second. *)
Lemma less_false a b : less b a = false ↔ rankedBefore a b.
Proof.
  unfold less, rankedBefore.
  destruct (Z.eqb_spec (count b) (count a)) as [E|E].
  - rewrite ltb_false_le. split; [right; by split|].
    intros [?|[_ ?]]; [lia|done].
  - rewrite Z.ltb_ge. split; [left; lia|]. intros [?|[? _]]; lia.
Qed.

Lemma rankedBefore_trans : Transitive rankedBefore.
Proof.
  intros a b c [H1|[H1 L1]] [H2|[H2 L2]]; unfold rankedBefore;
    [left; lia..|].
  right. split; [lia|]. by etrans.
Qed.

#[global] Existing Instance rankedBefore_trans.

Lemma rankedBefore_total a b : rankedBefore a b ∨ rankedBefore b a.
Proof.
  unfold rankedBefore.
  destruct (Z.lt_total (count a) (count b)) as [?|[?|?]]; [by auto..| |by auto].
  destruct (total String.le (login (u a)) (login (u b))); auto.
Qed.

(** Two entries each ranked before the other have the same count and the
    same login. *)
Lemma rankedBefore_antisym a b :
  rankedBefore a b → rankedBefore b a →
  count a = count b ∧ login (u a) = login (u b).
Proof.
  intros [?|[? L1]] [?|[? L2]]; try lia.
  split; [done|]. by apply (anti_symm String.le).
Qed.

Lemma less_StrictWeakOrder : StrictWeakOrder less.
Proof.
  assert (∀ a b, less a b = true ↔ ¬ rankedBefore b a) as Hlt.
  { intros a b. rewrite <-less_false. by destruct (less a b). }
  split; [|split].
  - intros a. apply less_false. right. done.
  - intros a b c. rewrite !Hlt. intros Hab Hbc Hca.
    destruct (rankedBefore_total a b) as [H|H]; [|done].
    apply Hbc. by etrans.
  - intros a b c. rewrite !less_false. intros ??. by etrans.
Qed.

Lemma Sorted_weaken {A} (R1 R2 : relation A) (l : list A) :
  (∀ x y, R1 x y → R2 x y) → Sorted R1 l → Sorted R2 l.
Proof.
  intros HR. induction 1 as [|x l Hl IH Hx]; constructor; [done|].
  destruct Hx; constructor. by apply HR.
Qed.

Lemma StronglySorted_lookup_lt {A} (R : relation A) (l : list A) i j x y :
  StronglySorted R l → l !! i = Some x → l !! j = Some y → (i < j)%nat →
  R x y.
Proof.
  intros Hl. revert i j.
  induction Hl as [|z l Hl IH Hz]; intros i j Hi Hj Hij; [done|].
  destruct j as [|j]; [lia|]. simpl in Hj.
  destruct i as [|i]; simpl in Hi.
  - injection Hi as ->. rewrite Forall_forall in Hz. apply Hz.
    by eapply list_elem_of_lookup_2.
  - eapply IH; [done..|lia].
Qed.

End comparator.

(** *** The rendered block *)

Section rendering.

Implicit Types (sorted l : list toSortEntry) (users : gmap string user)
  (from to : time.Time).

Lemma string_app_nil_r (s : string) : s ++ "" = s.
Proof.
  induction s as [|a s IH]; [done|].
  change (String a (s ++ "") = String a s). by rewrite IH.
Qed.

Lemma totalAndLabels_spec sorted :
  totalAndLabels sorted = (sumCounts sorted, label <$> sorted).
Proof.
  unfold totalAndLabels.
  assert (∀ z ls,
    foldl (λ acc entry, (acc.1 + count entry, (acc.2 ++ [label entry])%list))
          (z, ls) sorted
    = (z + sumCounts sorted, (ls ++ (label <$> sorted))%list)) as H.
  { induction sorted as [|e sorted IH]; intros z ls; simpl.
    - by rewrite Z.add_0_r, app_nil_r.
    - rewrite IH. simpl. f_equal; [lia|]. by rewrite <-app_assoc. }
  by rewrite H.
Qed.

Lemma sumCounts_perm : Proper ((≡ₚ) ==> (=)) sumCounts.
Proof.
  intros l1 l2 Hp. unfold sumCounts.
  induction Hp; simpl; [done|congruence|lia|congruence].
Qed.

#[global] Existing Instance sumCounts_perm.

Lemma entryOf_Some from to obj e :
  entryOf from to obj = Some e ↔
    e = mkEntry obj (countInRange (times obj) from to)
    ∧ 0 < countInRange (times obj) from to.
Proof.
  unfold entryOf. pose proof (countInRange_nonneg (times obj) from to).
  destruct (Z.eqb_spec (countInRange (times obj) from to) 0); naive_solver lia.
Qed.

Lemma elem_of_entriesInRange users from to e :
  e ∈ entriesInRange users from to ↔
    ∃ k, users !! k = Some (u e)
         ∧ count e = countInRange (times (u e)) from to
         ∧ 0 < count e.
Proof.
  unfold entriesInRange. rewrite list_elem_of_omap. split.
  - intros ([k obj] & Hin & He). apply elem_of_map_to_list in Hin.
    apply entryOf_Some in He as [-> ?]. by exists k.
  - intros (k & Hk & Hc & Hpos). exists (k, u e).
    split; [by apply elem_of_map_to_list|].
    apply entryOf_Some. destruct e as [obj c]; simpl in *. by subst.
Qed.

Lemma sumCounts_omap_entryOf from to (kvs : list (string * user)) :
  sumCounts (omap (λ kv, entryOf from to kv.2) kvs)
  = foldr (λ kv acc, countInRange (times kv.2) from to + acc) 0 kvs.
Proof.
  induction kvs as [|[k obj] kvs IH]; [done|]. cbn [omap list_omap foldr snd].
  unfold entryOf at 1.
  destruct (Z.eqb_spec (countInRange (times obj) from to) 0) as [E|E].
  - rewrite IH, E. lia.
  - cbn [sumCounts foldr count]. fold (sumCounts (omap (λ kv, entryOf from to kv.2) kvs)).
    by rewrite IH.
Qed.

Lemma length_omap_entryOf from to (kvs : list (string * user)) :
  length (omap (λ kv, entryOf from to kv.2) kvs)
  = length (filter (λ kv, 0 < countInRange (times kv.2) from to) kvs).
Proof.
  induction kvs as [|[k obj] kvs IH]; [done|]. cbn [omap list_omap snd].
  rewrite filter_cons. cbn [snd]. unfold entryOf at 1.
  pose proof (countInRange_nonneg (times obj) from to).
  destruct (Z.eqb_spec (countInRange (times obj) from to) 0) as [E|E].
  - rewrite decide_False by lia. done.
  - rewrite decide_True by lia. simpl. by rewrite IH.
Qed.

End rendering.

(** ** The two runtimes meet the contracts *)

Section runtimes.

Lemma StrictWeakOrder_total {A} (less : A → A → bool) :
  StrictWeakOrder less → Total (λ a b, less b a = false).
Proof.
  intros (Hirr & Htr & _) a b.
  destruct (less b a) eqn:Hba; [|by left].
  destruct (less a b) eqn:Hab; [|by right].
  pose proof (Hirr a) as Haa. by rewrite (Htr _ _ _ Hab Hba) in Haa.
Qed.

Lemma runtime_MapRangeSpec : MapRangeSpec runtime.mapRange.
Proof. by intros V m. Qed.

Lemma runtime_SortSliceSpec : SortSliceSpec runtime.sortSlice.
Proof.
  intros A less l. unfold runtime.sortSlice. split.
  - apply merge_sort_Permutation.
  - intros Hswo. pose proof (StrictWeakOrder_total less Hswo).
    by apply Sorted_merge_sort.
Qed.

Lemma runtime_ArrivalSpec : ArrivalSpec runtime.arrival.
Proof. intros A l. apply reverse_Permutation. Qed.

Lemma runtime_JSONSpec : JSONSpec runtime.json_Marshal runtime.json_Unmarshal.
Proof. by intros m _. Qed.

Lemma runtime2_MapRangeSpec : MapRangeSpec runtime2.mapRange.
Proof. intros V m. apply reverse_Permutation. Qed.

Lemma runtime2_SortSliceSpec : SortSliceSpec runtime2.sortSlice.
Proof.
  intros A less l. unfold runtime2.sortSlice. split.
  - rewrite merge_sort_Permutation. apply reverse_Permutation.
  - intros Hswo. pose proof (StrictWeakOrder_total less Hswo).
    by apply Sorted_merge_sort.
Qed.

End runtimes.

Example sample_block_2021 :
  formatContributors runtime.mapRange runtime.sortSlice sampleUsers
    jan2021 jan2022
  = "3 contributors, 5 commits" ++ newline ++ newline
    ++ "[Alice](https://github.com/alice) (2), [Bob](https://github.com/bob) (2), [carol](https://github.com/carol) (1)".
Proof. by vm_compute. Qed.

Example sample_block_2021_other_runtime :
  formatContributors runtime2.mapRange runtime2.sortSlice sampleUsers
    jan2021 jan2022
  = "3 contributors, 5 commits" ++ newline ++ newline
    ++ "[Alice](https://github.com/alice) (2), [Bob](https://github.com/bob) (2), [carol](https://github.com/carol) (1)".
Proof. by vm_compute. Qed.

Example sample_empty_block :
  formatContributors runtime.mapRange runtime.sortSlice sampleUsers
    jan2022 jan2021
  = "0 contributors, 0 commits" ++ newline ++ newline.
Proof. by vm_compute. Qed.

(** ** The Checkpoint Store *)

Section checkpoint.

Variable mapRange : ∀ V : Type, gmap string V → list (string * V).
Hypothesis Hrange : MapRangeSpec mapRange.

Implicit Types (times : list time.Time)
  (userTimes : gmap string (list time.Time)) (m : gmap string (list string)).

Lemma formatTimes_lookup user times m k :
  formatTimes user times m !! k
  = if decide (k = user)
    then match formattedTimes times with
         | Some ss => Some (default [] (m !! user) ++ ss)%list
         | None => m !! user
         end
    else m !! k.
Proof.
  unfold formatTimes. revert m.
  induction times as [|t times IH]; intros m.
  { simpl. by case_decide; subst. }
  cbn [foldl]. rewrite IH. case_decide; [subst|by rewrite lookup_insert_ne].
  rewrite lookup_insert_eq. cbn [default formattedTimes].
  destruct times as [|t' times]; simpl; [done|]. by rewrite <-app_assoc.
Qed.

Lemma foldl_formatTimes_lookup (it : list (string * list time.Time)) m k :
  NoDup it.*1 → (∀ k', k' ∈ it.*1 → m !! k' = None) →
  foldl (λ m kv, formatTimes kv.1 kv.2 m) m it !! k
  = match (list_to_map it : gmap string (list time.Time)) !! k with
    | Some times => formattedTimes times
    | None => m !! k
    end.
Proof.
  revert m. induction it as [|[k1 ts1] it IH]; intros m Hnd Hm; [done|].
  apply NoDup_cons in Hnd as [Hk1 Hnd]. cbn [foldl fst snd].
  rewrite IH; [|done|].
  - rewrite list_to_map_cons, formatTimes_lookup.
    destruct (decide (k = k1)) as [->|Hne].
    + rewrite lookup_insert_eq.
      rewrite (proj1 (not_elem_of_list_to_map it k1) Hk1).
      rewrite (Hm k1) by (simpl; by left). by destruct (formattedTimes ts1).
    + by rewrite lookup_insert_ne.
  - intros k' Hk'. rewrite formatTimes_lookup.
    rewrite decide_False by (intros ->; done).
    apply Hm. simpl. by right.
Qed.

(** The checkpoint holds, for each login with a timestamp, its timestamps in
    RFC 3339, in their order. *)
Lemma commitTimesOf_spec userTimes :
  commitTimesOf mapRange userTimes = omap formattedTimes userTimes.
Proof.
  apply map_eq. intros k. unfold commitTimesOf.
  rewrite foldl_formatTimes_lookup; [|by apply mapRange_NoDup|done].
  rewrite mapRange_list_to_map by done. rewrite lookup_omap, lookup_empty.
  by destruct (userTimes !! k).
Qed.

Lemma parseTimes_Format times :
  Forall representable times →
  parseTimes (time.Format_RFC3339 <$> times)
  = Some (truncateToSecond <$> times).
Proof.
  unfold parseTimes. induction 1 as [|t times Ht _ IH]; [done|].
  cbn. rewrite (Parse_Format t Ht). cbn. by rewrite IH.
Qed.

Lemma truncateToSecond_whole t : time.nsec t = 0 → truncateToSecond t = t.
Proof. destruct t as [s n z]. unfold truncateToSecond. simpl. by intros ->. Qed.

Lemma truncateToSecond_whole_list times :
  Forall (λ t, time.nsec t = 0) times → truncateToSecond <$> times = times.
Proof.
  induction 1 as [|t times Ht _ IH]; [done|].
  by rewrite fmap_cons, IH, truncateToSecond_whole.
Qed.

End checkpoint.

(** Why a storable record has a timestamp for each login, years of four
    digits and zone offsets of whole minutes.  The collector builds no such
    record as these: a login without timestamp would not be stored; a year
    of five digits would be stored and not load; a zone offset of thirty
    seconds would be written as [+00:00]. *)
Example checkpoint_of_records_not_storable :
  commitTimesOf runtime.mapRange {[ "alice" := [] ]} = ∅
  ∧ load runtime.json_Unmarshal
      (store runtime.mapRange runtime.json_Marshal
         {[ "alice" := [time.mkTime 253402300800 0 0] ]})
    = None
  ∧ load runtime.json_Unmarshal
      (store runtime.mapRange runtime.json_Marshal
         {[ "alice" := [time.mkTime 0 0 30] ]})
    = Some {[ "alice" := [time.mkTime 30 0 0] ]}.
Proof. repeat split; vm_compute; reflexivity. Qed.

Example format_offset_of_seconds :
  time.Format_RFC3339 (time.mkTime 0 0 30) = "1970-01-01T00:00:30+00:00".
Proof. vm_compute. reflexivity. Qed.

Example format_year_10000 :
  time.Format_RFC3339 (time.mkTime 253402300800 0 0) = "10000-01-01T00:00:00Z".
Proof. vm_compute. reflexivity. Qed.

(** *** The properties of a bucket *)

(** C5.  The counter the Aggregator keeps for a user is the number of the
    user's timestamps strictly after [from] and strictly before [to] (no
    counter when there is none), every entry of the bucket carries that
    number, and the test of line 171 holds of a timestamp exactly when it is
    strictly within the range: a timestamp at the instant of [from] or of
    [to] fails it. *)
Theorem count_strictly_within
    (mapRange : ∀ V : Type, gmap string V → list (string * V))
    (sortSlice : ∀ A : Type, (A → A → bool) → list A → list A)
    (users : gmap string user) (from to : time.Time)
    (k : string) (obj : user) :
  MapRangeSpec mapRange → SortSliceSpec sortSlice →
  users !! k = Some obj →
  timesByUserOf mapRange users from to !! k
  = (if countInRange (times obj) from to =? 0 then None
     else Some (countInRange (times obj) from to))
  ∧ (∀ e, e ∈ ranking mapRange sortSlice users from to →
          count e = countInRange (times (u e)) from to)
  ∧ (∀ t, time.After t from && time.Before t to = true
          ↔ strictlyWithin from to t)
  ∧ (∀ t, time.Equal t from = true ∨ time.Equal t to = true →
          time.After t from && time.Before t to = false).
Proof.
  intros Hrange Hsort Hk. split; [|split; [|split]].
  - rewrite timesByUserOf_spec, lookup_omap, Hk by done. done.
  - intros e. rewrite ranking_entries by done.
    rewrite elem_of_entriesInRange. naive_solver.
  - intros t. apply inRange_spec.
  - intros t Ht. apply not_true_iff_false. rewrite inRange_spec.
    intros [H1 H2]. destruct Ht as [Ht|Ht].
    + by apply (instantLt_irrefl_Equal_r _ _ Ht).
    + by apply (instantLt_irrefl_Equal _ _ Ht).
Qed.

Lemma count_strictly_within_witness :
  timesByUserOf runtime.mapRange sampleUsers jan2021 jan2022 !! "carol"
  = Some 1
  ∧ time.After jan2021 jan2021 && time.Before jan2021 jan2022 = false
  ∧ time.After jan2022 jan2021 && time.Before jan2022 jan2022 = false
  ∧ time.After (in2021 10) jan2021 && time.Before (in2021 10) jan2022 = true.
Proof.
  destruct (count_strictly_within runtime.mapRange runtime.sortSlice
              sampleUsers jan2021 jan2022 "carol"
              (mkuser "https://github.com/carol" "carol" "carol"
                      [jan2021; in2021 10; jan2022])
              runtime_MapRangeSpec runtime_SortSliceSpec)
    as (H1 & _ & H3 & H4); [by vm_compute|].
  split; [rewrite H1; by vm_compute|].
  split; [apply H4; left; by vm_compute|].
  split; [apply H4; right; by vm_compute|].
  apply (proj2 (H3 _)). split; left; vm_compute; reflexivity.
Defined.

Lemma ranking_sorted
    (mapRange : ∀ V : Type, gmap string V → list (string * V))
    (sortSlice : ∀ A : Type, (A → A → bool) → list A → list A)
    (users : gmap string user) (from to : time.Time) :
  SortSliceSpec sortSlice →
  StronglySorted rankedBefore (ranking mapRange sortSlice users from to).
Proof.
  intros Hsort. apply Sorted_StronglySorted; [apply _|].
  eapply Sorted_weaken;
    [|apply (proj2 (Hsort _ less _)), less_StrictWeakOrder].
  intros a b. apply less_false.
Qed.

(** The text of a block, written out: the summary line with its two
    numbers, an empty line, and the labels of the entries, each the display
    name linked to the profile with the count in brackets, separated by
    commas. *)
Lemma formatContributors_text
    (mapRange : ∀ V : Type, gmap string V → list (string * V))
    (sortSlice : ∀ A : Type, (A → A → bool) → list A → list A)
    (users : gmap string user) (from to : time.Time) :
  formatContributors mapRange sortSlice users from to
  = (pretty (Z.of_nat (length (ranking mapRange sortSlice users from to)))
     ++ " contributors, "
     ++ pretty (sumCounts (ranking mapRange sortSlice users from to))
     ++ " commits" ++ String "010" (String "010" ""))
    ++ strings.Join
         ((λ e, "[" ++ name (u e) ++ "](" ++ userURL (u e) ++ ") ("
                ++ pretty (count e) ++ ")")
            <$> ranking mapRange sortSlice users from to) ", ".
Proof. unfold formatContributors. by rewrite totalAndLabels_spec. Qed.

(** C6.  The entries of a bucket are the users with a timestamp strictly
    within the range, each once with its in-range count, and the block
    lists them by count, larger first, and by login, smaller first, among
    those of one count: each entry is ranked before every later one, an
    entry with more commits stands before one with fewer, and of two entries
    with the same count the one with the smaller login stands first.  The
    block is the summary line followed by the labels of the entries in this
    order. *)
Theorem ranking_by_count_then_login
    (mapRange : ∀ V : Type, gmap string V → list (string * V))
    (sortSlice : ∀ A : Type, (A → A → bool) → list A → list A)
    (users : gmap string user) (from to : time.Time) :
  MapRangeSpec mapRange → SortSliceSpec sortSlice →
  ranking mapRange sortSlice users from to
  ≡ₚ omap (λ kv, if countInRange (times kv.2) from to =? 0 then None
                 else Some (mkEntry kv.2 (countInRange (times kv.2) from to)))
          (map_to_list users)
  ∧ (∀ i j a b,
       ranking mapRange sortSlice users from to !! i = Some a →
       ranking mapRange sortSlice users from to !! j = Some b →
       ((i < j)%nat →
        count b < count a
        ∨ (count a = count b ∧ String.le (login (u a)) (login (u b))))
       ∧ (count b < count a → (i < j)%nat)
       ∧ (count a = count b →
          String.ltb (login (u a)) (login (u b)) = true → (i < j)%nat))
  ∧ formatContributors mapRange sortSlice users from to
    = (pretty (Z.of_nat (length (ranking mapRange sortSlice users from to)))
       ++ " contributors, "
       ++ pretty (sumCounts (ranking mapRange sortSlice users from to))
       ++ " commits" ++ String "010" (String "010" ""))
      ++ strings.Join
           ((λ e, "[" ++ name (u e) ++ "](" ++ userURL (u e) ++ ") ("
                  ++ pretty (count e) ++ ")")
              <$> ranking mapRange sortSlice users from to) ", ".
Proof.
  intros Hrange Hsort.
  pose proof (ranking_sorted mapRange sortSlice users from to Hsort) as Hss.
  split; [by apply ranking_entries|].
  split; [|by apply formatContributors_text].
  intros i j a b Hi Hj.
  assert ((j < i)%nat → rankedBefore b a) as Hji.
  { intros H. by apply (StronglySorted_lookup_lt _ _ _ _ _ _ Hss Hj Hi). }
  split; [|split].
  - intros Hij. by apply (StronglySorted_lookup_lt _ _ _ _ _ _ Hss Hi Hj).
  - intros Hc. destruct (Nat.lt_total i j) as [?|[->|H]]; [done| |].
    + rewrite Hi in Hj. injection Hj as ->. lia.
    + destruct (Hji H) as [?|[? _]]; lia.
  - intros Hc Hlt. apply ltb_true_le in Hlt as [Hle Hne].
    destruct (Nat.lt_total i j) as [?|[->|H]]; [done|congruence|].
    destruct Hne. apply (rankedBefore_antisym a b); [by right|by apply Hji].
Qed.

Lemma ranking_by_count_then_login_witness :
  ranking runtime.mapRange runtime.sortSlice sampleUsers jan2021 jan2022
  = [mkEntry (mkuser "https://github.com/alice" "alice" "Alice"
                     [in2021 1; in2021 2]) 2;
     mkEntry (mkuser "https://github.com/bob" "bob" "Bob"
                     [in2021 5; in2021 70]) 2;
     mkEntry (mkuser "https://github.com/carol" "carol" "carol"
                     [jan2021; in2021 10; jan2022]) 1]
  ∧ formatContributors runtime.mapRange runtime.sortSlice sampleUsers
      jan2021 jan2022
    = "3 contributors, 5 commits" ++ String "010" (String "010"
        "[Alice](https://github.com/alice) (2), [Bob](https://github.com/bob) (2), [carol](https://github.com/carol) (1)").
Proof.
  destruct (ranking_by_count_then_login runtime.mapRange runtime.sortSlice
              sampleUsers jan2021 jan2022
              runtime_MapRangeSpec runtime_SortSliceSpec) as (_ & _ & H).
  split; [by vm_compute|]. rewrite H. by vm_compute.
Defined.

(** A user has a count in a bucket exactly when one of its timestamps is
    strictly within the range. *)
Lemma countInRange_pos (ts : list time.Time) (from to : time.Time) :
  0 < countInRange ts from to ↔ Exists (strictlyWithin from to) ts.
Proof.
  unfold countInRange. induction ts as [|t ts IH].
  { split; [simpl; lia|by intros ?%Exists_nil]. }
  rewrite filter_cons, Exists_cons. case_decide; simpl; [|tauto].
  split; [by left|lia].
Qed.

(** The counts of all users add up to the number of timestamps in range. *)
Lemma commits_of_all_times (kvs : list (string * user)) (from to : time.Time) :
  foldr (λ kv acc, countInRange (times kv.2) from to + acc) 0 kvs
  = Z.of_nat (length (filter (strictlyWithin from to)
                        (mbind (λ kv, times kv.2) kvs))).
Proof.
  induction kvs as [|[k obj] kvs IH]; [done|].
  cbn [foldr]. rewrite IH. cbn [mbind list_bind].
  rewrite filter_app, length_app. unfold countInRange. simpl. lia.
Qed.

(** C8.  A block begins with its summary line: the number of users that
    have a timestamp strictly within the range, the word contributors, the
    number of such timestamps of all users, the word commits, and an empty
    line; the labels of the ranking follow.  When no timestamp is in range,
    and so when the range is empty, the block is the summary line with two
    zeros. *)
Theorem summary_line_counts
    (mapRange : ∀ V : Type, gmap string V → list (string * V))
    (sortSlice : ∀ A : Type, (A → A → bool) → list A → list A)
    (users : gmap string user) (from to : time.Time) :
  MapRangeSpec mapRange → SortSliceSpec sortSlice →
  formatContributors mapRange sortSlice users from to
  = (pretty (Z.of_nat (length (filter
               (λ kv, Exists (strictlyWithin from to) (times kv.2))
               (map_to_list users))))
     ++ " contributors, "
     ++ pretty (Z.of_nat (length (filter (strictlyWithin from to)
                  (mbind (λ kv, times kv.2) (map_to_list users)))))
     ++ " commits" ++ String "010" (String "010" ""))
    ++ strings.Join
         ((λ e, "[" ++ name (u e) ++ "](" ++ userURL (u e) ++ ") ("
                ++ pretty (count e) ++ ")")
            <$> ranking mapRange sortSlice users from to) ", "
  ∧ ((∀ k obj t, users !! k = Some obj → t ∈ times obj →
                 ¬ strictlyWithin from to t) →
     formatContributors mapRange sortSlice users from to
     = "0 contributors, 0 commits" ++ String "010" (String "010" ""))
  ∧ (¬ instantLt from to →
     formatContributors mapRange sortSlice users from to
     = "0 contributors, 0 commits" ++ String "010" (String "010" "")).
Proof.
  intros Hrange Hsort.
  assert (contributorsInRange users from to
          = Z.of_nat (length (filter
              (λ kv, Exists (strictlyWithin from to) (times kv.2))
              (map_to_list users)))) as Hn.
  { unfold contributorsInRange. do 2 f_equal. apply list_filter_iff.
    intros [k obj]. apply countInRange_pos. }
  assert (commitsInRange users from to
          = Z.of_nat (length (filter (strictlyWithin from to)
              (mbind (λ kv, times kv.2) (map_to_list users))))) as Hm.
  { unfold commitsInRange. apply commits_of_all_times. }
  pose proof (ranking_entries mapRange sortSlice Hrange Hsort users from to)
    as Hperm.
  assert (formatContributors mapRange sortSlice users from to
          = (pretty (contributorsInRange users from to) ++ " contributors, "
             ++ pretty (commitsInRange users from to)
             ++ " commits" ++ String "010" (String "010" ""))
            ++ strings.Join
                 ((λ e, "[" ++ name (u e) ++ "](" ++ userURL (u e) ++ ") ("
                        ++ pretty (count e) ++ ")")
                    <$> ranking mapRange sortSlice users from to) ", ")
    as Heq.
  { rewrite formatContributors_text.
    rewrite Hperm at 1 2. unfold entriesInRange.
    by rewrite length_omap_entryOf, sumCounts_omap_entryOf. }
  assert ((∀ k obj t, users !! k = Some obj → t ∈ times obj →
                      ¬ strictlyWithin from to t) →
          formatContributors mapRange sortSlice users from to
          = "0 contributors, 0 commits" ++ String "010" (String "010" ""))
    as Hzero.
  { intros Hnone.
    assert (entriesInRange users from to = []) as Hnil.
    { apply elem_of_nil_inv. intros e.
      rewrite elem_of_entriesInRange. intros (k & Hk & Hc & Hpos).
      rewrite Hc in Hpos. apply countInRange_pos in Hpos.
      apply Exists_exists in Hpos as (t & Ht & Hin).
      by apply (Hnone k (u e) t). }
    rewrite formatContributors_text.
    rewrite Hnil in Hperm. apply Permutation_nil_r in Hperm.
    by rewrite Hperm. }
  split; [by rewrite Heq, Hn, Hm|]. split; [done|].
  intros Hft. apply Hzero. intros k obj t _ _ [H1 H2]. apply Hft.
  unfold instantLt in *. lia.
Qed.

Lemma summary_line_counts_witness :
  formatContributors runtime.mapRange runtime.sortSlice sampleUsers
    jan2021 jan2022
  = "3 contributors, 5 commits" ++ String "010" (String "010"
      "[Alice](https://github.com/alice) (2), [Bob](https://github.com/bob) (2), [carol](https://github.com/carol) (1)")
  ∧ formatContributors runtime.mapRange runtime.sortSlice
      {[ "dave" := mkuser "https://github.com/dave" "dave" "Dave" [jan2022] ]}
      jan2021 jan2022
    = "0 contributors, 0 commits" ++ String "010" (String "010" "")
  ∧ formatContributors runtime.mapRange runtime.sortSlice sampleUsers
      jan2022 jan2021
    = "0 contributors, 0 commits" ++ String "010" (String "010" "").
Proof.
  split; [|split].
  - rewrite (proj1 (summary_line_counts runtime.mapRange runtime.sortSlice
                      sampleUsers jan2021 jan2022
                      runtime_MapRangeSpec runtime_SortSliceSpec)).
    by vm_compute.
  - apply (proj1 (proj2 (summary_line_counts runtime.mapRange
                           runtime.sortSlice _ jan2021 jan2022
                           runtime_MapRangeSpec runtime_SortSliceSpec))).
    intros k obj t [<- <-]%lookup_singleton_Some Ht.
    apply list_elem_of_singleton in Ht as ->.
    apply (bool_decide_unpack _). by vm_compute.
  - apply (proj2 (proj2 (summary_line_counts runtime.mapRange
                           runtime.sortSlice sampleUsers jan2022 jan2021
                           runtime_MapRangeSpec runtime_SortSliceSpec))).
    apply (bool_decide_unpack _). by vm_compute.
Defined.

(** With one user per login, the ranking is the same list whatever the
    [range] order and the sort: two rankings are sorted permutations of the
    same entries, and entries ranked each before the other are equal. *)
Lemma ranking_unique
    (mapRange1 mapRange2 : ∀ V : Type, gmap string V → list (string * V))
    (sortSlice1 sortSlice2 : ∀ A : Type, (A → A → bool) → list A → list A)
    (users : gmap string user) (from to : time.Time) :
  MapRangeSpec mapRange1 → SortSliceSpec sortSlice1 →
  MapRangeSpec mapRange2 → SortSliceSpec sortSlice2 →
  (∀ k1 k2 o1 o2, users !! k1 = Some o1 → users !! k2 = Some o2 →
                  login o1 = login o2 → k1 = k2) →
  ranking mapRange1 sortSlice1 users from to
  = ranking mapRange2 sortSlice2 users from to.
Proof.
  intros Hr1 Hs1 Hr2 Hs2 Hlogins.
  pose proof (ranking_entries mapRange1 sortSlice1 Hr1 Hs1 users from to)
    as Hp1.
  pose proof (ranking_entries mapRange2 sortSlice2 Hr2 Hs2 users from to)
    as Hp2.
  apply (StronglySorted_unique_strong rankedBefore).
  - intros a b Ha Hb Hab Hba.
    destruct (rankedBefore_antisym a b Hab Hba) as [Hc Hl].
    rewrite Hp1 in Ha. rewrite Hp2 in Hb.
    apply elem_of_entriesInRange in Ha as (ka & Hka & _).
    apply elem_of_entriesInRange in Hb as (kb & Hkb & _).
    pose proof (Hlogins _ _ _ _ Hka Hkb Hl) as ->.
    destruct a, b; simpl in *. congruence.
  - by apply ranking_sorted.
  - by apply ranking_sorted.
  - by rewrite Hp1, Hp2.
Qed.

(** C10.  Two runs of the formatter on the same users and range give the
    same text, whatever order each run's [range] visits the maps in and
    whatever its sort does with equal elements, provided no two users of the
    mapping have the same login (line 275 files each user under its
    login). *)
Theorem formatContributors_deterministic
    (mapRange1 mapRange2 : ∀ V : Type, gmap string V → list (string * V))
    (sortSlice1 sortSlice2 : ∀ A : Type, (A → A → bool) → list A → list A)
    (users : gmap string user) (from to : time.Time) :
  MapRangeSpec mapRange1 → SortSliceSpec sortSlice1 →
  MapRangeSpec mapRange2 → SortSliceSpec sortSlice2 →
  (∀ k1 k2 o1 o2, users !! k1 = Some o1 → users !! k2 = Some o2 →
                  login o1 = login o2 → k1 = k2) →
  formatContributors mapRange1 sortSlice1 users from to
  = formatContributors mapRange2 sortSlice2 users from to.
Proof.
  intros Hr1 Hs1 Hr2 Hs2 Hlogins.
  unfold formatContributors.
  by rewrite (ranking_unique mapRange1 mapRange2 sortSlice1 sortSlice2).
Qed.

Lemma formatContributors_deterministic_witness :
  formatContributors runtime.mapRange runtime.sortSlice sampleUsers
    jan2021 jan2022
  = formatContributors runtime2.mapRange runtime2.sortSlice sampleUsers
      jan2021 jan2022.
Proof.
  apply (formatContributors_deterministic
           runtime.mapRange runtime2.mapRange
           runtime.sortSlice runtime2.sortSlice sampleUsers jan2021 jan2022
           runtime_MapRangeSpec runtime_SortSliceSpec
           runtime2_MapRangeSpec runtime2_SortSliceSpec).
  intros k1 k2 o1 o2 H1 H2.
  unfold sampleUsers in H1, H2.
  repeat (apply lookup_insert_Some in H1 as [[<- <-]|[? H1]];
          [|try (apply lookup_singleton_Some in H1 as [<- <-])]);
  repeat (apply lookup_insert_Some in H2 as [[<- <-]|[? H2]];
          [|try (apply lookup_singleton_Some in H2 as [<- <-])]);
  simpl; congruence.
Defined.

(** The hypothesis on logins cannot be dropped: on two users filed under
    one login the order of the block follows the sort. *)
Example same_login_order_is_the_runtimes :
  formatContributors runtime.mapRange runtime.sortSlice twins jan2021 jan2022
  = "2 contributors, 2 commits" ++ newline ++ newline
    ++ "[A](https://github.com/x) (1), [B](https://github.com/x) (1)"
  ∧ formatContributors runtime.mapRange runtime2.sortSlice twins
      jan2021 jan2022
    = "2 contributors, 2 commits" ++ newline ++ newline
      ++ "[B](https://github.com/x) (1), [A](https://github.com/x) (1)".
Proof. by vm_compute. Qed.

(** ** The Bounded Enricher: collation of the results *)

Section collation.

Implicit Types (blocklisted blocklistedNames : gset string)
  (received : list user) (users : gmap string user).

(** The blocklist is the set of the comma-separated fields of the flag. *)
Lemma elem_of_blocklistedOf (flagBlocklist x : string) :
  x ∈ blocklistedOf flagBlocklist ↔ x ∈ strings.Split flagBlocklist ",".
Proof.
  unfold blocklistedOf.
  assert (∀ l (acc : gset string),
    x ∈ foldl (λ blocklisted blocked, {[ blocked ]} ∪ blocklisted) acc l
    ↔ x ∈ acc ∨ x ∈ l) as H.
  { induction l as [|b l IH]; intros acc; simpl; [set_solver|].
    rewrite IH. set_solver. }
  rewrite H. set_solver.
Qed.

(** Every user the collation keeps was received, is filed under its login,
    and is neither blocklisted by login nor by name. *)
Lemma collate_lookup blocklisted blocklistedNames received k r :
  collate blocklisted blocklistedNames received !! k = Some r →
  r ∈ received ∧ login r = k
  ∧ (login r ∉ blocklisted) ∧ (name r ∉ blocklistedNames).
Proof.
  unfold collate.
  assert (∀ users,
    foldl (collateStep blocklisted blocklistedNames) users received !! k
      = Some r →
    users !! k = Some r
    ∨ (r ∈ received ∧ login r = k
       ∧ (login r ∉ blocklisted) ∧ (name r ∉ blocklistedNames))) as H.
  { induction received as [|x received IH]; intros users Hk; simpl in Hk;
      [by left|].
    destruct (IH _ Hk) as [Hx|(? & ? & ? & ?)].
    - unfold collateStep in Hx.
      repeat case_bool_decide; [by left..|].
      apply lookup_insert_Some in Hx as [[<- <-]|[_ ?]]; [|by left].
      right. repeat split; [by left|done..].
    - right. repeat split; [by right|done..]. }
  intros Hk. by destruct (H ∅ Hk) as [?|?].
Qed.

End collation.

Example sample_enriched :
  enrichedUsers runtime.mapRange runtime.arrival sampleProfiles
    sampleBlocklist sampleRoster sampleUsersIn
  = Some {[ "external1" :=
              mkuser "https://github.com/external1" "external1" "external1"
                [time.mkTime 1609459201 0 0;
                 time.mkTime 1609477199 0 (-18000)] ]}.
Proof. by vm_compute. Qed.

(** The mapping the formatter is called on has one user per login: each
    user is filed under its own. *)
Lemma enrichedUsers_keyed_by_login
    (mapRange : ∀ V : Type, gmap string V → list (string * V))
    (arrival : ∀ A : Type, list A → list A)
    (Users_Get : string → option github.User)
    (flagBlocklist roster : string) (usersIn : gmap string (list string))
    (users : gmap string user) (k1 k2 : string) (o1 o2 : user) :
  enrichedUsers mapRange arrival Users_Get flagBlocklist roster usersIn
    = Some users →
  users !! k1 = Some o1 → users !! k2 = Some o2 →
  login o1 = login o2 → k1 = k2.
Proof.
  unfold enrichedUsers. destruct (mapM _ _) as [sent|]; [|done].
  intros [= <-] H1 H2 Hl.
  apply collate_lookup in H1 as (_ & <- & _).
  by apply collate_lookup in H2 as (_ & <- & _).
Qed.

(** So every block of the report is the same text in every run. *)
Lemma report_block_deterministic
    (mapRange mapRange1 mapRange2
       : ∀ V : Type, gmap string V → list (string * V))
    (sortSlice1 sortSlice2 : ∀ A : Type, (A → A → bool) → list A → list A)
    (arrival : ∀ A : Type, list A → list A)
    (Users_Get : string → option github.User)
    (flagBlocklist roster : string) (usersIn : gmap string (list string))
    (users : gmap string user) (from to : time.Time) :
  MapRangeSpec mapRange1 → SortSliceSpec sortSlice1 →
  MapRangeSpec mapRange2 → SortSliceSpec sortSlice2 →
  enrichedUsers mapRange arrival Users_Get flagBlocklist roster usersIn
    = Some users →
  formatContributors mapRange1 sortSlice1 users from to
  = formatContributors mapRange2 sortSlice2 users from to.
Proof.
  intros Hr1 Hs1 Hr2 Hs2 Hen. unfold formatContributors.
  rewrite (ranking_unique mapRange1 mapRange2 sortSlice1 sortSlice2);
    [done..|].
  intros k1 k2 o1 o2. by eapply enrichedUsers_keyed_by_login.
Qed.

(** C4.  Whatever checkpoint, blocklist, roster and profiles the phase is
    run on, and whatever bucket is rendered: no entry of the bucket belongs
    to a user whose login is a field of the blocklist flag or whose display
    name is one of the roster's internal names. *)
Theorem filtered_identities_absent
    (mapRange : ∀ V : Type, gmap string V → list (string * V))
    (sortSlice : ∀ A : Type, (A → A → bool) → list A → list A)
    (arrival : ∀ A : Type, list A → list A)
    (Users_Get : string → option github.User)
    (flagBlocklist roster : string) (usersIn : gmap string (list string))
    (users : gmap string user) (from to : time.Time) (e : toSortEntry) :
  MapRangeSpec mapRange → SortSliceSpec sortSlice →
  enrichedUsers mapRange arrival Users_Get flagBlocklist roster usersIn
    = Some users →
  e ∈ ranking mapRange sortSlice users from to →
  (login (u e) ∉ strings.Split flagBlocklist ",")
  ∧ (name (u e) ∉ (getOrganizationEmailsAndNamesFromAuthors roster).2).
Proof.
  intros Hrange Hsort Hen He.
  rewrite ranking_entries in He by done.
  apply elem_of_entriesInRange in He as (k & Hk & _).
  unfold enrichedUsers in Hen.
  destruct (mapM _ _) as [sent|]; [|done]. injection Hen as <-.
  apply collate_lookup in Hk as (_ & _ & Hb & Hn).
  by rewrite <-elem_of_blocklistedOf.
Qed.

Lemma filtered_identities_absent_witness :
  ("external1" ∉ strings.Split sampleBlocklist ",")
  ∧ ("external1" ∉ (getOrganizationEmailsAndNamesFromAuthors sampleRoster).2).
Proof.
  apply (filtered_identities_absent
           runtime.mapRange runtime.sortSlice runtime.arrival sampleProfiles
           sampleBlocklist sampleRoster sampleUsersIn
           {[ "external1" :=
                mkuser "https://github.com/external1" "external1" "external1"
                  [time.mkTime 1609459201 0 0;
                   time.mkTime 1609477199 0 (-18000)] ]}
           jan2021 jan2022
           (mkEntry
              (mkuser "https://github.com/external1" "external1" "external1"
                 [time.mkTime 1609459201 0 0;
                  time.mkTime 1609477199 0 (-18000)]) 2)
           runtime_MapRangeSpec runtime_SortSliceSpec).
  - by vm_compute.
  - vm_compute (ranking _ _ _ _ _). by left.
Defined.

(** ** The rate limit of the enrichment goroutines *)

Section rate_limit.

Import enrich.

Implicit Types (s : state) (rs : list (string * pc)) (p : pc).

(** How a step of one goroutine changes a count over the goroutines. *)
Lemma length_filter_insert {A} (P : A → Prop) `{∀ x, Decision (P x)}
    (l : list A) (i : nat) (x y : A) :
  l !! i = Some x →
  (length (filter P (<[ i := y ]> l)) + (if decide (P x) then 1 else 0)
   = length (filter P l) + (if decide (P y) then 1 else 0))%nat.
Proof.
  intros Hi.
  rewrite <-(take_drop_middle l i x Hi) at 2.
  rewrite (insert_take_drop l i y) by (by eapply lookup_lt_Some).
  rewrite !filter_app, !filter_cons, !length_app.
  repeat case_decide; simpl; lia.
Qed.

Lemma running_le_holding s : (running s ≤ holding s)%nat.
Proof.
  unfold running, holding.
  induction (routines s) as [|[l p] rs IH]; [done|].
  rewrite !filter_cons. cbn [snd].
  destruct p; simpl; repeat case_decide; simpl; try done; lia.
Qed.

Lemma slotsAccounted_initial : slotsAccounted initial.
Proof.
  split; [done|]. split; [compute; lia|done].
Qed.

Lemma holding_insert s i l p p' :
  routines s !! i = Some (l, p) →
  (length (filter (λ r, holdsSlot r.2 = true) (<[ i := (l, p') ]> (routines s)))
   + (if holdsSlot p then 1 else 0)
   = holding s + (if holdsSlot p' then 1 else 0))%nat.
Proof.
  intros Hi. unfold holding.
  pose proof (length_filter_insert (λ r : string * pc, holdsSlot r.2 = true)
                (routines s) i (l, p) (l, p') Hi) as H.
  simpl in H. by destruct (holdsSlot p), (holdsSlot p').
Qed.

Lemma slotsAccounted_mainStep logins s s' :
  slotsAccounted s → mainStep logins s = Some s' → slotsAccounted s'.
Proof.
  intros (Hacc & Hcap & Hfill). unfold mainStep, slotsAccounted, holding, filled in *.
  destruct (main s) as [i|[|l rest]| |] eqn:Hm; intros Hs.
  - specialize (Hfill i eq_refl).
    destruct (Nat.ltb_spec i userRateLimit).
    + destruct (Nat.ltb_spec (rateLimit s) userRateLimit); [|done].
      injection Hs as <-. simpl. rewrite Hfill in *. simpl in *.
      repeat split; [lia..|done].
    + injection Hs as <-. simpl. rewrite Hfill in *. simpl in *.
      repeat split; [lia|done..].
  - injection Hs as <-. simpl. repeat split; [done..|]. intros; done.
  - injection Hs as <-. simpl.
    rewrite filter_app, length_app. simpl.
    repeat split; [lia|done|]. intros; done.
  - destruct (wg s =? 0)%nat; [|done]. injection Hs as <-. simpl.
    repeat split; [done..|]. intros; done.
  - done.
Qed.

Lemma slotsAccounted_routineStep i s s' :
  slotsAccounted s → routineStep i s = Some s' → slotsAccounted s'.
Proof.
  intros (Hacc & Hcap & Hfill). unfold routineStep.
  destruct (routines s !! i) as [[l p]|] eqn:Hi; [|done].
  assert (∀ j, main s ≠ Fill j) as Hmain.
  { intros j Hj. by rewrite (Hfill j Hj) in Hi. }
  assert (∀ p', (∀ j, main s = Fill j →
                  <[ i := (l, p') ]> (routines s) = [])) as Hfill'.
  { intros p' j Hj. by destruct (Hmain j). }
  unfold slotsAccounted, filled in *.
  destruct p; intros Hs.
  - destruct (Nat.ltb_spec 0 (rateLimit s)); [|done]. injection Hs as <-.
    pose proof (holding_insert s i l Acquire Lookup Hi) as H'.
    unfold holding. simpl in *. repeat split; [lia|done|apply Hfill'].
  - injection Hs as <-.
    pose proof (holding_insert s i l Lookup DeferDone Hi) as H'.
    unfold holding. simpl in *. repeat split; [lia|done|apply Hfill'].
  - injection Hs as <-.
    pose proof (holding_insert s i l DeferDone Release Hi) as H'.
    unfold holding. simpl in *. repeat split; [lia|done|apply Hfill'].
  - destruct (Nat.ltb_spec (rateLimit s) userRateLimit); [|done].
    injection Hs as <-.
    pose proof (holding_insert s i l Release Finished Hi) as H'.
    unfold holding. simpl in *. repeat split; [lia|done|apply Hfill'].
  - done.
Qed.

Lemma slotsAccounted_run logins schedule s s' :
  slotsAccounted s → run logins s schedule = Some s' → slotsAccounted s'.
Proof.
  revert s. induction schedule as [|a schedule IH]; intros s Hs Hrun.
  { simpl in Hrun. by injection Hrun as <-. }
  simpl in Hrun. destruct (exec logins s a) as [s1|] eqn:Hexec; [|done].
  apply (IH s1); [|done]. destruct a; simpl in Hexec.
  - by eapply slotsAccounted_mainStep.
  - by eapply slotsAccounted_routineStep.
Qed.

(** A goroutine that holds a slot is counted. *)
Lemma holding_pos s i l p :
  routines s !! i = Some (l, p) → holdsSlot p = true → (0 < holding s)%nat.
Proof.
  intros Hi Hp. unfold holding.
  assert ((l, p) ∈ filter (λ r : string * pc, holdsSlot r.2 = true) (routines s))
    as Hin.
  { apply list_elem_of_filter. split; [done|]. by eapply list_elem_of_lookup_2. }
  destruct (filter _ _); [by apply elem_of_nil in Hin|simpl; lia].
Qed.

(** A goroutine enters the lookup only from its receive, which takes a
    token out of the channel. *)
Lemma routineStep_into_Lookup s i l s' :
  routineStep i s = Some s' →
  routines s' !! i = Some (l, Lookup) →
  routines s !! i = Some (l, Acquire) ∧ S (rateLimit s') = rateLimit s.
Proof.
  unfold routineStep.
  destruct (routines s !! i) as [[l0 p]|] eqn:Hi; [|done].
  assert (i < length (routines s))%nat as Hlt by (by eapply lookup_lt_Some).
  destruct p; intros Hs Hi'.
  - destruct (Nat.ltb_spec 0 (rateLimit s)); [|done]. injection Hs as <-.
    simpl in *. rewrite list_lookup_insert_eq in Hi' by done.
    injection Hi' as ->. split; [done|lia].
  - injection Hs as <-. simpl in Hi'.
    by rewrite list_lookup_insert_eq in Hi' by done.
  - injection Hs as <-. simpl in Hi'.
    by rewrite list_lookup_insert_eq in Hi' by done.
  - destruct (Nat.ltb_spec (rateLimit s) userRateLimit); [|done].
    injection Hs as <-. simpl in Hi'.
    by rewrite list_lookup_insert_eq in Hi' by done.
  - done.
Qed.

End rate_limit.

(** C9.  In every state the enrichment phase can reach, under every
    schedule: at most [userRateLimit] = 20 goroutines are inside the lookup;
    the tokens in the channel and the goroutines between their receive and
    their send add up to the tokens main sent; a goroutine that has not
    received a token cannot step while twenty hold one; the send that gives
    a token back never blocks; and the only step into the lookup is the
    receive of a token. *)
Theorem lookups_within_rate_limit
    (logins : list string) (schedule : list enrich.action) (s : enrich.state) :
  enrich.run logins enrich.initial schedule = Some s →
  (enrich.running s ≤ enrich.userRateLimit)%nat
  ∧ (enrich.rateLimit s + enrich.holding s = enrich.filled s)%nat
  ∧ (∀ i l, enrich.routines s !! i = Some (l, enrich.Acquire) →
            enrich.holding s = enrich.userRateLimit →
            enrich.routineStep i s = None)
  ∧ (∀ i l, enrich.routines s !! i = Some (l, enrich.Release) →
            is_Some (enrich.routineStep i s))
  ∧ (∀ i l s', enrich.routineStep i s = Some s' →
               enrich.routines s' !! i = Some (l, enrich.Lookup) →
               enrich.routines s !! i = Some (l, enrich.Acquire)
               ∧ S (enrich.rateLimit s') = enrich.rateLimit s).
Proof.
  intros Hrun.
  destruct (slotsAccounted_run logins schedule _ s slotsAccounted_initial Hrun)
    as (Hacc & Hcap & Hfill).
  pose proof (running_le_holding s).
  split; [lia|]. split; [done|]. split; [|split].
  - intros i l Hi Hfull. unfold enrich.routineStep. rewrite Hi.
    destruct (Nat.ltb_spec 0 (enrich.rateLimit s)); [lia|done].
  - intros i l Hi. unfold enrich.routineStep. rewrite Hi.
    pose proof (holding_pos s i l _ Hi eq_refl).
    destruct (Nat.ltb_spec (enrich.rateLimit s) enrich.userRateLimit);
      [by eexists|lia].
  - intros i l s' Hstep Hi'. by eapply routineStep_into_Lookup.
Qed.

Lemma lookups_within_rate_limit_witness :
  enrich.running sampleState = 20%nat
  ∧ (enrich.running sampleState ≤ enrich.userRateLimit)%nat
  ∧ enrich.routines sampleState !! 20%nat = Some ("user20", enrich.Acquire)
  ∧ enrich.routineStep 20 sampleState = None.
Proof.
  destruct (lookups_within_rate_limit sampleLogins sampleSchedule sampleState)
    as (H1 & H2 & H3 & H4 & H5); [by vm_compute|].
  split; [by vm_compute|]. split; [exact H1|]. split; [by vm_compute|].
  apply (H3 20%nat "user20"); by vm_compute.
Defined.
(** ** The paginated listings *)

Section listings.

Context {Repository : Type}.
Variable Organizations_ListMembers
  : string → github.ListOptions → option (list github.User * Z).
Variable Repositories_ListByOrg
  : string → github.ListOptions → option (list Repository * Z).
Variable Repositories_ListCommits
  : string → string → github.ListOptions
    → option (list github.RepositoryCommit * Z).

Implicit Types (opts : github.ListOptions) (logins : gmap string github.User)
  (members : list github.User).

(** A login is filed with the last member listed under it. *)
Lemma addMembers_lookup logins members l :
  addMembers logins members !! l
  = match last (filter (λ m, github.GetLogin m = l) members) with
    | Some m => Some m
    | None => logins !! l
    end.
Proof.
  unfold addMembers. revert logins.
  induction members as [|m members IH]; intros logins; [done|].
  cbn [foldl]. rewrite IH, filter_cons.
  destruct (decide (github.GetLogin m = l)) as [<-|Hne].
  - rewrite lookup_insert_eq.
    destruct (filter _ members) as [|m' ms] eqn:E; [done|].
    rewrite (last_cons m (m' :: ms)). by destruct (last (m' :: ms)).
  - by rewrite lookup_insert_ne.
Qed.

Lemma addMembers_app logins members1 members2 :
  addMembers logins (members1 ++ members2)
  = addMembers (addMembers logins members1) members2.
Proof. unfold addMembers. by rewrite foldl_app. Qed.

Lemma membersLoop_pages fuel org opts logins (pages : list (list github.User)) :
  pagesOfListing (Organizations_ListMembers org) opts pages →
  (length pages ≤ fuel)%nat →
  membersLoop Organizations_ListMembers fuel org opts logins
  = Returned (addMembers logins (concat pages)).
Proof.
  revert fuel opts logins.
  induction pages as [|items rest IH]; intros fuel opts logins Hp Hf; [done|].
  destruct fuel as [|fuel]; [simpl in Hf; lia|].
  cbn [membersLoop]. simpl in Hp. destruct rest as [|items' rest].
  - rewrite Hp. simpl. by rewrite app_nil_r.
  - destruct Hp as (next & Hnext & -> & Hp).
    rewrite (proj2 (Z.eqb_neq next 0) Hnext). cbn [negb].
    rewrite (IH fuel); [|done|simpl in *; lia].
    by rewrite (concat_cons items), addMembers_app.
Qed.

Lemma membersLoop_error fuel org opts logins (pages : list (list github.User)) :
  pagesBeforeError (Organizations_ListMembers org) opts pages →
  (length pages < fuel)%nat →
  membersLoop Organizations_ListMembers fuel org opts logins = Failed.
Proof.
  revert fuel opts logins.
  induction pages as [|items rest IH]; intros fuel opts logins Hp Hf;
    (destruct fuel as [|fuel]; [simpl in Hf; lia|]); cbn [membersLoop].
  - simpl in Hp. by rewrite Hp.
  - destruct Hp as (next & Hnext & -> & Hp).
    rewrite (proj2 (Z.eqb_neq next 0) Hnext). cbn [negb].
    apply IH; [done|simpl in *; lia].
Qed.

Lemma repositoriesLoop_pages fuel org opts (repos : list Repository)
    (pages : list (list Repository)) :
  pagesOfListing (Repositories_ListByOrg org) opts pages →
  (length pages ≤ fuel)%nat →
  repositoriesLoop Repositories_ListByOrg fuel org opts repos
  = Returned (repos ++ concat pages)%list.
Proof.
  revert fuel opts repos.
  induction pages as [|items rest IH]; intros fuel opts repos Hp Hf; [done|].
  destruct fuel as [|fuel]; [simpl in Hf; lia|].
  cbn [repositoriesLoop]. simpl in Hp. destruct rest as [|items' rest].
  - rewrite Hp. simpl. by rewrite app_nil_r.
  - destruct Hp as (next & Hnext & -> & Hp).
    rewrite (proj2 (Z.eqb_neq next 0) Hnext). cbn [negb].
    rewrite (IH fuel); [|done|simpl in *; lia].
    by rewrite (concat_cons items), app_assoc.
Qed.

Lemma repositoriesLoop_unending fuel org opts (repos : list Repository) :
  (∀ opts', ∃ add NextPage,
     Repositories_ListByOrg org opts' = Some (add, NextPage) ∧ NextPage ≠ 0) →
  repositoriesLoop Repositories_ListByOrg fuel org opts repos = OutOfFuel.
Proof.
  intros Hnext. revert opts repos.
  induction fuel as [|fuel IH]; intros opts repos; [done|].
  cbn [repositoriesLoop].
  destruct (Hnext opts) as (add & next & -> & Hne).
  rewrite (proj2 (Z.eqb_neq next 0) Hne). cbn [negb]. apply IH.
Qed.

Section commit_pages.

Variables (organizationMembers emails names : gset string).

Implicit Types (userTimes : gmap string (list time.Time)).

Lemma commitsLoop_pages fuel org repo opts userTimes
    (pages : list (list github.RepositoryCommit)) :
  pagesOfListing (Repositories_ListCommits org repo) opts pages →
  (length pages ≤ fuel)%nat →
  commitsLoop Repositories_ListCommits organizationMembers emails names
    fuel org repo opts userTimes
  = Returned (foldl (commitStep organizationMembers emails names)
                    userTimes (concat pages)).
Proof.
  revert fuel opts userTimes.
  induction pages as [|items rest IH]; intros fuel opts userTimes Hp Hf;
    [done|].
  destruct fuel as [|fuel]; [simpl in Hf; lia|].
  cbn [commitsLoop]. simpl in Hp. destruct rest as [|items' rest].
  - rewrite Hp. simpl. by rewrite app_nil_r.
  - destruct Hp as (next & Hnext & -> & Hp).
    rewrite (proj2 (Z.eqb_neq next 0) Hnext). cbn [negb].
    rewrite (IH fuel); [|done|simpl in *; lia].
    by rewrite (concat_cons items), foldl_app.
Qed.

Lemma reposLoop_pages fuel org (repos : list string) userTimes
    (pagess : list (list (list github.RepositoryCommit))) :
  Forall2 (λ repo pages,
             pagesOfListing (Repositories_ListCommits org repo)
               (github.mkListOptions 0 1000) pages
             ∧ (length pages ≤ fuel)%nat) repos pagess →
  reposLoop Repositories_ListCommits organizationMembers emails names
    fuel org repos userTimes
  = Returned (foldl (commitStep organizationMembers emails names)
                    userTimes (concat ((λ pages, concat pages) <$> pagess))).
Proof.
  intros H. revert userTimes.
  induction H as [|repo pages repos pagess [Hp Hf] _ IH]; intros userTimes;
    [done|].
  cbn [reposLoop]. rewrite (commitsLoop_pages _ _ _ _ _ pages) by done.
  rewrite IH, fmap_cons, (concat_cons (concat pages)). by rewrite foldl_app.
Qed.

End commit_pages.

End listings.

(** X1.  When the member listing of the organization ends, on the pages
    [pages] from the first on, [getOrganizationLogins] returns after one
    call per page, with one entry per login listed: a login is a key
    exactly when a member with it is on some page, and it is filed with the
    last such member. *)
Theorem getOrganizationLogins_of_pages
    (Organizations_ListMembers
       : string → github.ListOptions → option (list github.User * Z))
    (fuel : nat) (org : string) (pages : list (list github.User)) :
  pagesOfListing (Organizations_ListMembers org)
    (github.mkListOptions 0 100) pages →
  (length pages ≤ fuel)%nat →
  ∃ logins,
    getOrganizationLogins Organizations_ListMembers fuel org = Returned logins
    ∧ (∀ l, logins !! l
            = last (filter (λ m, github.GetLogin m = l) (concat pages)))
    ∧ (∀ l, l ∈ dom logins
            ↔ ∃ m, m ∈ concat pages ∧ github.GetLogin m = l).
Proof.
  intros Hp Hf. eexists. split; [by apply membersLoop_pages|].
  assert (∀ l, addMembers ∅ (concat pages) !! l
               = last (filter (λ m, github.GetLogin m = l) (concat pages)))
    as Hl.
  { intros l. rewrite addMembers_lookup, lookup_empty.
    by destruct (last _). }
  split; [done|]. intros l. rewrite elem_of_dom, Hl. split.
  - intros [m Hm]. exists m. apply last_Some_elem_of in Hm.
    by apply list_elem_of_filter in Hm as [? ?].
  - intros (m & Hin & Hm).
    assert (m ∈ filter (λ m, github.GetLogin m = l) (concat pages)) as Hf'
      by (by apply list_elem_of_filter).
    destruct (filter _ (concat pages)) as [|x xs] eqn:E.
    + by apply elem_of_nil in Hf'.
    + apply last_is_Some. done.
Qed.

Lemma getOrganizationLogins_of_pages_witness :
  ∃ logins,
    getOrganizationLogins sampleMembers 2 "cockroachdb" = Returned logins
    ∧ logins !! "jane"
      = Some (github.mkUser "jane" "Jane D." "https://github.com/jane")
    ∧ logins !! "nobody" = None.
Proof.
  destruct (getOrganizationLogins_of_pages sampleMembers 2 "cockroachdb"
              [[github.mkUser "jane" "Jane Doe" "https://github.com/jane";
                github.mkUser "joe" "" "https://github.com/joe"];
               [github.mkUser "jane" "Jane D." "https://github.com/jane"]])
    as (logins & Hret & Hl & _).
  - exists 2. by vm_compute.
  - simpl. lia.
  - exists logins. split; [done|]. rewrite !Hl. by vm_compute.
Defined.

(** X2.  When a call of the member listing fails, after the pages [pages],
    [getOrganizationLogins] gives the error and none of the members it has
    read. *)
Theorem getOrganizationLogins_error
    (Organizations_ListMembers
       : string → github.ListOptions → option (list github.User * Z))
    (fuel : nat) (org : string) (pages : list (list github.User)) :
  pagesBeforeError (Organizations_ListMembers org)
    (github.mkListOptions 0 100) pages →
  (length pages < fuel)%nat →
  getOrganizationLogins Organizations_ListMembers fuel org = Failed.
Proof. intros Hp Hf. by apply (membersLoop_error _ _ _ _ _ pages). Qed.

Lemma getOrganizationLogins_error_witness :
  getOrganizationLogins sampleBrokenMembers 2 "cockroachdb" = Failed.
Proof.
  apply (getOrganizationLogins_error sampleBrokenMembers 2 "cockroachdb"
           [[github.mkUser "jane" "Jane Doe" "https://github.com/jane";
             github.mkUser "joe" "" "https://github.com/joe"]]).
  - exists 2. by vm_compute.
  - simpl. lia.
Defined.

(** X3.  When the repository listing ends, [getRepositories] returns the
    repositories of its pages, in the order of the pages and within each
    page. *)
Theorem getRepositories_of_pages (Repository : Type)
    (Repositories_ListByOrg
       : string → github.ListOptions → option (list Repository * Z))
    (fuel : nat) (flagOrganization : string)
    (pages : list (list Repository)) :
  pagesOfListing (Repositories_ListByOrg flagOrganization)
    (github.mkListOptions 0 0) pages →
  (length pages ≤ fuel)%nat →
  getRepositories Repositories_ListByOrg fuel flagOrganization
  = Returned (concat pages).
Proof.
  intros Hp Hf. unfold getRepositories.
  by rewrite (repositoriesLoop_pages _ _ _ _ _ pages).
Qed.

Lemma getRepositories_of_pages_witness :
  getRepositories sampleRepositories 3 "cockroachdb"
  = Returned ["cockroach"; "pebble"; "docs"].
Proof.
  apply (getRepositories_of_pages string sampleRepositories 3 "cockroachdb"
           [["cockroach"; "pebble"]; ["docs"]; []]).
  - exists 2. split; [done|]. split; [by vm_compute|].
    exists 3. by vm_compute.
  - simpl. lia.
Defined.

(** X4.  The listing loops have no bound of their own: as long as every
    answer names a next page, [getRepositories] has not returned, however
    many calls it has made. *)
Theorem getRepositories_unending (Repository : Type)
    (Repositories_ListByOrg
       : string → github.ListOptions → option (list Repository * Z))
    (fuel : nat) (flagOrganization : string) :
  (∀ opts, ∃ add NextPage,
     Repositories_ListByOrg flagOrganization opts = Some (add, NextPage)
     ∧ NextPage ≠ 0) →
  getRepositories Repositories_ListByOrg fuel flagOrganization = OutOfFuel.
Proof. intros H. by apply repositoriesLoop_unending. Qed.

Lemma getRepositories_unending_witness :
  getRepositories sampleUnendingRepositories 1000 "cockroachdb" = OutOfFuel.
Proof.
  apply (getRepositories_unending string sampleUnendingRepositories 1000
           "cockroachdb").
  intros opts. by exists ["cockroach"], 1.
Defined.

(** X5.  When the commit listing of every repository of the flag ends, the
    loops of [main] leave in [userTimes] what the collector's loop body
    makes of all the commits, repository after repository and page after
    page: paging changes nothing to the record. *)
Theorem collectRepositories_of_pages
    (Repositories_ListCommits
       : string → string → github.ListOptions
         → option (list github.RepositoryCommit * Z))
    (organizationMembers emails names : gset string)
    (fuel : nat) (flagOrganization flagRepos : string)
    (pagess : list (list (list github.RepositoryCommit))) :
  Forall2 (λ repo pages,
             pagesOfListing (Repositories_ListCommits flagOrganization repo)
               (github.mkListOptions 0 1000) pages
             ∧ (length pages ≤ fuel)%nat)
          (strings.Split flagRepos ",") pagess →
  collectRepositories Repositories_ListCommits organizationMembers emails
    names fuel flagOrganization flagRepos
  = Returned (collect organizationMembers emails names
                (concat ((λ pages, concat pages) <$> pagess))).
Proof. intros H. by apply reposLoop_pages. Qed.

Lemma collectRepositories_of_pages_witness :
  collectRepositories sampleCommits {[ "jane" ]} ∅ ∅ 2 "cockroachdb"
    "cockroach,pebble"
  = Returned {[ "external1" := [time.mkTime 1600000300 0 0;
                                time.mkTime 1500000000 0 0];
                "external2" := [time.mkTime 1600000000 0 0] ]}.
Proof.
  rewrite (collectRepositories_of_pages sampleCommits {[ "jane" ]} ∅ ∅ 2
             "cockroachdb" "cockroach,pebble"
             [[[sampleCommit "external1" "external1@gmail.com" 1600000300 [];
                sampleCommit "jane" "jane@cockroachlabs.com" 1600000200 []];
               [sampleCommit "external1" "external1@gmail.com" 1600000100
                  ["0a1b2c"];
                sampleCommit "external2" "external2@gmail.com" 1600000000 []]];
              [[sampleCommit "external1" "external1@gmail.com" 1500000000
                  []]]]).
  - by vm_compute.
  - vm_compute (strings.Split _ _).
    repeat (apply Forall2_cons; split); [| |done].
    + split; [|simpl; lia]. exists 2. by vm_compute.
    + split; [|simpl; lia]. by vm_compute.
Defined.

(** ** What the collector records *)

Section collected.

Variables (organizationMembers emails names : gset string).

Implicit Types (commit : github.RepositoryCommit)
  (commits : list github.RepositoryCommit)
  (userTimes : gmap string (list time.Time)).

Lemma keptDates_cons login commit commits :
  keptDates organizationMembers emails names login (commit :: commits)
  = if decide (skipCommit organizationMembers emails names commit = false
               ∧ github.GetLogin (github.GetAuthor commit) = login)
    then authorDate commit
           :: keptDates organizationMembers emails names login commits
    else keptDates organizationMembers emails names login commits.
Proof. unfold keptDates. rewrite filter_cons. by case_decide. Qed.

(** The loop body, repeated: a login gains the author dates of its commits
    that pass the guards, after those it had. *)
Lemma foldl_commitStep_lookup userTimes commits login :
  foldl (commitStep organizationMembers emails names) userTimes commits
    !! login
  = match keptDates organizationMembers emails names login commits with
    | [] => userTimes !! login
    | dates => Some (default [] (userTimes !! login) ++ dates)%list
    end.
Proof.
  revert userTimes.
  induction commits as [|commit commits IH]; intros userTimes; [done|].
  cbn [foldl]. rewrite IH, keptDates_cons. unfold commitStep.
  destruct (skipCommit organizationMembers emails names commit) eqn:Hskip.
  { rewrite decide_False by (by intros [? _]). done. }
  destruct (decide (github.GetLogin (github.GetAuthor commit) = login))
    as [<-|Hne].
  - rewrite decide_True by done. rewrite lookup_insert_eq. cbn [default].
    fold (authorDate commit).
    destruct (keptDates _ _ _ _ commits) as [|d ds]; [done|].
    unfold id. by rewrite <-app_assoc.
  - rewrite decide_False by (by intros [_ ?]).
    by rewrite lookup_insert_ne.
Qed.

Lemma elem_of_keptDates login commits t :
  t ∈ keptDates organizationMembers emails names login commits ↔
    ∃ commit, commit ∈ commits
      ∧ skipCommit organizationMembers emails names commit = false
      ∧ github.GetLogin (github.GetAuthor commit) = login
      ∧ authorDate commit = t.
Proof.
  unfold keptDates. rewrite list_elem_of_fmap. split.
  - intros (c & -> & Hc). apply list_elem_of_filter in Hc as [[? ?] ?].
    by exists c.
  - intros (c & Hin & Hs & Hl & <-). exists c. split; [done|].
    by apply list_elem_of_filter.
Qed.

End collected.

(** X6.  The ContributionRecord of a listing: a login has an entry exactly
    when one of its commits passes the seven guards, and the entry holds the
    author dates of those commits, once each, in the order of the
    listing. *)
Theorem collect_kept_dates_in_order
    (organizationMembers emails names : gset string)
    (commits : list github.RepositoryCommit) (login : string) :
  collect organizationMembers emails names commits !! login
  = match keptDates organizationMembers emails names login commits with
    | [] => None
    | dates => Some dates
    end.
Proof.
  unfold collect. rewrite foldl_commitStep_lookup, lookup_empty.
  by destruct (keptDates _ _ _ _ _).
Qed.

(** X7.  What the collector never records: the empty login, the login of a
    member of the organization, a login without timestamp, or the date of a
    commit whose git commit lists a parent, of a merge of a pull request, or
    of an author with an internal email or name. *)
Theorem collect_never_records
    (organizationMembers emails names : gset string)
    (commits : list github.RepositoryCommit) (login : string)
    (times : list time.Time) :
  collect organizationMembers emails names commits !! login = Some times →
  login ≠ "" ∧ (login ∉ organizationMembers) ∧ times ≠ []
  ∧ ∀ t, t ∈ times →
      ∃ commit, commit ∈ commits ∧ authorDate commit = t
        ∧ github.GetLogin (github.GetAuthor commit) = login
        ∧ github.Parents (github.GetCommit commit) = []
        ∧ strings.HasPrefix (github.GetMessage (github.GetCommit commit))
            "Merge pull request " = false
        ∧ strings.Contains
            (github.GetEmail (github.Commit_GetAuthor (github.GetCommit commit)))
            internalDomain = false
        ∧ (github.GetEmail (github.Commit_GetAuthor (github.GetCommit commit))
           ∉ emails)
        ∧ (github.GetName (github.GetAuthor commit) ∉ names).
Proof.
  unfold collect. rewrite foldl_commitStep_lookup, lookup_empty. intros H.
  destruct (keptDates organizationMembers emails names login commits)
    as [|d ds] eqn:E; [done|].
  cbn [default app] in H. injection H as <-.
  assert (∀ t, t ∈ d :: ds →
            ∃ commit, commit ∈ commits
              ∧ skipCommit organizationMembers emails names commit = false
              ∧ github.GetLogin (github.GetAuthor commit) = login
              ∧ authorDate commit = t) as Hkept.
  { intros t. rewrite <-E. apply elem_of_keptDates. }
  destruct (Hkept d) as (c & _ & Hs & Hl & _); [by left|].
  apply skipCommit_false in Hs as (_ & Hne & Hmem & _). rewrite Hl in *.
  split; [done|]. split; [done|]. split; [done|].
  intros t Ht. destruct (Hkept t Ht) as (c' & Hin & Hs' & Hl' & Hd).
  apply skipCommit_false in Hs' as (? & ? & ? & ? & ? & ? & ?).
  exists c'. by repeat split.
Qed.

Lemma collect_never_records_witness :
  "external1" ≠ "" ∧ ("external1" ∉ ({[ "jane" ]} : gset string))
  ∧ [time.mkTime 1600000300 0 0] ≠ [].
Proof.
  destruct (collect_never_records {[ "jane" ]} ∅ ∅
              [sampleCommit "external1" "external1@gmail.com" 1600000300 [];
               sampleCommit "jane" "jane@cockroachlabs.com" 1600000200 [];
               sampleCommit "external1" "external1@gmail.com" 1600000100
                 ["0a1b2c"]]
              "external1" [time.mkTime 1600000300 0 0])
    as (H1 & H2 & H3 & _); [by vm_compute|].
  by repeat split.
Defined.

(** X29.  Growing the filters never adds a contribution: with more
    organization members, internal emails or internal names, the dates
    recorded for a login are a subsequence of those recorded before, so a
    login the collector did not record is not recorded then either. *)
Theorem more_filters_record_less
    (organizationMembers emails names : gset string)
    (organizationMembers' emails' names' : gset string)
    (commits : list github.RepositoryCommit) (login : string) :
  organizationMembers ⊆ organizationMembers' →
  emails ⊆ emails' → names ⊆ names' →
  keptDates organizationMembers' emails' names' login commits
  `sublist_of` keptDates organizationMembers emails names login commits
  ∧ (collect organizationMembers emails names commits !! login = None →
     collect organizationMembers' emails' names' commits !! login = None).
Proof.
  intros Hm He Hn.
  assert (keptDates organizationMembers' emails' names' login commits
          `sublist_of` keptDates organizationMembers emails names login commits)
    as Hsub.
  { induction commits as [|c commits IH]; [done|].
    rewrite !keptDates_cons.
    destruct (decide (skipCommit organizationMembers' emails' names' c = false
                      ∧ github.GetLogin (github.GetAuthor c) = login))
      as [[Hs Hl]|Hnot].
    - rewrite decide_True; [by apply sublist_skip|].
      split; [|done]. apply skipCommit_false in Hs. apply skipCommit_false.
      destruct Hs as (? & ? & ? & ? & ? & ? & ?).
      repeat split; [done..|set_solver|done|done|set_solver|set_solver].
    - case_decide; [by apply sublist_cons|done]. }
  split; [done|]. unfold collect.
  rewrite !foldl_commitStep_lookup, !lookup_empty.
  destruct (keptDates organizationMembers emails names login commits)
    as [|d ds]; [|done].
  apply sublist_nil_r in Hsub. by rewrite Hsub.
Qed.

Lemma more_filters_record_less_witness :
  collect {[ "jane"; "external1" ]} ∅ ∅
    [sampleCommit "external1" "external1@gmail.com" 1600000300 [];
     sampleCommit "jane" "jane@cockroachlabs.com" 1600000200 []]
    !! "jane" = None.
Proof.
  apply (proj2 (more_filters_record_less {[ "jane" ]} ∅ ∅
                  {[ "jane"; "external1" ]} ∅ ∅
                  [sampleCommit "external1" "external1@gmail.com"
                     1600000300 [];
                   sampleCommit "jane" "jane@cockroachlabs.com"
                     1600000200 []]
                  "jane" ltac:(set_solver) ltac:(done) ltac:(done))).
  by vm_compute.
Defined.

(** ** What the checkpoint holds *)

Section stored.

Variable mapRange : ∀ V : Type, gmap string V → list (string * V).
Context {Artifact : Type}.
Variable json_Marshal : gmap string (list string) → Artifact.
Variable json_Unmarshal : Artifact → option (gmap string (list string)).
Hypothesis Hrange : MapRangeSpec mapRange.
Hypothesis Hjson : JSONSpec json_Marshal json_Unmarshal.

Implicit Types (userTimes : gmap string (list time.Time)).

(** A record the checkpoint can hold comes back cut to the second. *)
Lemma load_store_storable userTimes :
  storable userTimes →
  load json_Unmarshal (store mapRange json_Marshal userTimes)
  = Some (recordToSecond userTimes).
Proof.
  intros Hst. unfold load, store. rewrite commitTimesOf_spec by done.
  assert (∀ k ss, omap formattedTimes userTimes !! k = Some ss →
            ∃ times, userTimes !! k = Some times ∧ times ≠ []
              ∧ ss = time.Format_RFC3339 <$> times
              ∧ utf8.ValidString k = true ∧ Forall representable times)
    as Hentry.
  { intros k ss Hk. rewrite lookup_omap in Hk.
    destruct (userTimes !! k) as [times|] eqn:Hk'; [|done].
    destruct (Hst _ _ Hk') as (Hutf & Hne & Hrep). simpl in Hk.
    destruct times as [|t times]; [done|]. injection Hk as <-.
    by exists (t :: times). }
  rewrite Hjson.
  - rewrite bool_decide_eq_true_2.
    + f_equal. apply map_eq. intros k. unfold recordToSecond.
      rewrite lookup_omap, lookup_omap, lookup_fmap.
      destruct (userTimes !! k) as [times|] eqn:Hk; [|done].
      destruct (Hst _ _ Hk) as (_ & Hne & Hrep). simpl.
      destruct times as [|t times]; [done|].
      cbn [formattedTimes option_bind mbind].
      by apply parseTimes_Format.
    + intros k ss Hk.
      destruct (Hentry _ _ Hk) as (times & _ & _ & -> & _ & Hrep).
      by rewrite parseTimes_Format.
  - intros k ss Hk.
    destruct (Hentry _ _ Hk) as (times & _ & _ & -> & Hutf & Hrep).
    split; [done|]. apply Forall_fmap.
    eapply Forall_impl; [done|]. intros t' Ht'. by apply Format_ValidString.
Qed.

End stored.

(** The record of the collector can be stored, when the logins and the
    author dates of the commits it keeps can be written. *)
Lemma collect_storable (organizationMembers emails names : gset string)
    (commits : list github.RepositoryCommit) :
  (∀ commit, commit ∈ commits →
     skipCommit organizationMembers emails names commit = false →
     utf8.ValidString (github.GetLogin (github.GetAuthor commit)) = true
     ∧ representable (authorDate commit)) →
  storable (collect organizationMembers emails names commits).
Proof.
  intros Hok login times Hl. unfold collect in Hl.
  rewrite foldl_commitStep_lookup, lookup_empty in Hl.
  destruct (keptDates organizationMembers emails names login commits)
    as [|d ds] eqn:E; [done|].
  cbn [default app] in Hl. injection Hl as <-.
  assert (∀ t, t ∈ d :: ds →
            ∃ commit, commit ∈ commits
              ∧ skipCommit organizationMembers emails names commit = false
              ∧ github.GetLogin (github.GetAuthor commit) = login
              ∧ authorDate commit = t) as Hkept.
  { intros t. rewrite <-E. apply elem_of_keptDates. }
  split; [|split; [done|]].
  - destruct (Hkept d) as (c & Hin & Hs & <- & _); [by left|].
    by apply Hok.
  - apply Forall_forall. intros t Ht.
    destruct (Hkept t Ht) as (c & Hin & Hs & _ & <-). by apply Hok.
Qed.

(** C3.  Loading what was stored gives the ContributionRecord back with
    every timestamp equal to the original to the second: the same second of
    the same instant, in the same zone, without the fraction of a second;
    when the timestamps have no fraction it is the record itself.  This
    holds of every record the checkpoint can hold, and the record that the
    collector builds is one, whatever the commits, as long as the logins and
    author dates that the API delivered for the commits it keeps can be
    written: the collector has no login without a timestamp. *)
Theorem load_store_to_the_second
    (mapRange : ∀ V : Type, gmap string V → list (string * V))
    (Artifact : Type)
    (json_Marshal : gmap string (list string) → Artifact)
    (json_Unmarshal : Artifact → option (gmap string (list string)))
    (userTimes : gmap string (list time.Time)) :
  MapRangeSpec mapRange → JSONSpec json_Marshal json_Unmarshal →
  storable userTimes →
  load json_Unmarshal (store mapRange json_Marshal userTimes)
  = Some (recordToSecond userTimes)
  ∧ (∀ t, time.unixSec (truncateToSecond t) = time.unixSec t
          ∧ time.zoneOffset (truncateToSecond t) = time.zoneOffset t)
  ∧ (map_Forall (λ _ times, Forall (λ t, time.nsec t = 0) times) userTimes →
     load json_Unmarshal (store mapRange json_Marshal userTimes)
     = Some userTimes)
  ∧ (∀ (organizationMembers emails names : gset string)
       (commits : list github.RepositoryCommit),
       (∀ commit, commit ∈ commits →
          skipCommit organizationMembers emails names commit = false →
          utf8.ValidString (github.GetLogin (github.GetAuthor commit)) = true
          ∧ representable (authorDate commit)) →
       storable (collect organizationMembers emails names commits)).
Proof.
  intros Hrange Hjson Hst.
  pose proof (load_store_storable mapRange json_Marshal json_Unmarshal
                Hrange Hjson userTimes Hst) as Hload.
  split; [done|]. split; [done|]. split.
  - intros Hwhole. rewrite Hload. f_equal. apply map_eq. intros k.
    unfold recordToSecond. rewrite lookup_fmap.
    destruct (userTimes !! k) as [times|] eqn:Hk; [|done].
    simpl. f_equal. apply truncateToSecond_whole_list. apply (Hwhole _ _ Hk).
  - intros. by apply collect_storable.
Qed.

Lemma load_store_to_the_second_witness :
  load runtime.json_Unmarshal
    (store runtime.mapRange runtime.json_Marshal
       {[ "external1" := [time.mkTime 1609459201 999 0;
                          time.mkTime 1609477199 0 (-18000)] ]})
  = Some {[ "external1" := [time.mkTime 1609459201 0 0;
                            time.mkTime 1609477199 0 (-18000)] ]}.
Proof.
  destruct (load_store_to_the_second runtime.mapRange _
              runtime.json_Marshal runtime.json_Unmarshal
              {[ "external1" := [time.mkTime 1609459201 999 0;
                                 time.mkTime 1609477199 0 (-18000)] ]}
              runtime_MapRangeSpec runtime_JSONSpec) as [H _].
  - intros k times [<- <-]%lookup_singleton_Some.
    split; [by vm_compute|]. split; [done|].
    repeat (apply Forall_cons; split); [| |apply Forall_nil];
      unfold representable; repeat split; try (vm_compute; congruence).
  - rewrite H. vm_compute. reflexivity.
Defined.

(** X8.  The checkpoint has one entry for each login of the record that has
    a timestamp, with the RFC 3339 texts of the login's timestamps in their
    order, and no entry for a login without timestamp; the order in which
    [range] visits the record changes nothing to it. *)
Theorem checkpoint_entries
    (mapRange : ∀ V : Type, gmap string V → list (string * V))
    (userTimes : gmap string (list time.Time)) (login : string) :
  MapRangeSpec mapRange →
  commitTimesOf mapRange userTimes !! login
  = match userTimes !! login with
    | Some (t :: times) => Some (time.Format_RFC3339 <$> t :: times)
    | Some [] | None => None
    end.
Proof.
  intros Hrange. rewrite commitTimesOf_spec by done. rewrite lookup_omap.
  destruct (userTimes !! login) as [[|t times]|]; done.
Qed.

Lemma checkpoint_entries_witness :
  commitTimesOf runtime2.mapRange
    {[ "external1" := [time.mkTime 1609459201 0 0;
                       time.mkTime 1609477199 0 (-18000)];
       "external2" := [] ]} !! "external1"
  = Some ["2021-01-01T00:00:01Z"; "2020-12-31T23:59:59-05:00"].
Proof.
  rewrite (checkpoint_entries runtime2.mapRange _ "external1"
             runtime2_MapRangeSpec).
  by vm_compute.
Defined.

(** X9.  No login is lost between the collector and the report: when the
    logins of the commits that pass the guards are valid UTF-8 and their
    author dates can be written in RFC 3339, the record loaded from the
    checkpoint is the collected record with every timestamp cut to the
    second. *)
Theorem collected_record_round_trip
    (mapRange : ∀ V : Type, gmap string V → list (string * V))
    (Artifact : Type)
    (json_Marshal : gmap string (list string) → Artifact)
    (json_Unmarshal : Artifact → option (gmap string (list string)))
    (organizationMembers emails names : gset string)
    (commits : list github.RepositoryCommit) :
  MapRangeSpec mapRange → JSONSpec json_Marshal json_Unmarshal →
  (∀ commit, commit ∈ commits →
     skipCommit organizationMembers emails names commit = false →
     utf8.ValidString (github.GetLogin (github.GetAuthor commit)) = true
     ∧ representable (authorDate commit)) →
  load json_Unmarshal
    (store mapRange json_Marshal
       (collect organizationMembers emails names commits))
  = Some (recordToSecond (collect organizationMembers emails names commits)).
Proof.
  intros Hrange Hjson Hok. apply load_store_storable; [done..|].
  by apply collect_storable.
Qed.

Lemma collected_record_round_trip_witness :
  load runtime.json_Unmarshal
    (store runtime.mapRange runtime.json_Marshal
       (collect {[ "jane" ]} ∅ ∅
          [sampleCommit "external1" "external1@gmail.com" 1600000300 [];
           sampleCommit "jane" "jane@cockroachlabs.com" 1600000200 []]))
  = Some {[ "external1" := [time.mkTime 1600000300 0 0] ]}.
Proof.
  rewrite (collected_record_round_trip runtime.mapRange _
             runtime.json_Marshal runtime.json_Unmarshal {[ "jane" ]} ∅ ∅
             [sampleCommit "external1" "external1@gmail.com" 1600000300 [];
              sampleCommit "jane" "jane@cockroachlabs.com" 1600000200 []]
             runtime_MapRangeSpec runtime_JSONSpec).
  - by vm_compute.
  - intros commit Hin Hs.
    apply elem_of_cons in Hin as [->|Hin];
      [|apply elem_of_cons in Hin as [->|Hin];
        [by vm_compute in Hs|by apply elem_of_nil in Hin]].
    split; [by vm_compute|].
    unfold representable; repeat split; try (vm_compute; congruence).
Defined.

(** ** What the enrichment keeps *)

Section enriched.

Variable mapRange : ∀ V : Type, gmap string V → list (string * V).
Variable arrival : ∀ A : Type, list A → list A.
Variable Users_Get : string → option github.User.
Hypothesis Hrange : MapRangeSpec mapRange.
Hypothesis Harrival : ArrivalSpec arrival.

Implicit Types (blocklisted blocklistedNames : gset string)
  (received sent : list user) (users : gmap string user)
  (usersIn : gmap string (list string)) (r : user).

(** A loop that gives up at the first failure gives up exactly when one of
    its steps fails. *)
Lemma mapM_None_elem {A B} (f : A → option B) (xs : list A) :
  mapM f xs = None ↔ ∃ x, x ∈ xs ∧ f x = None.
Proof.
  induction xs as [|a xs IH].
  { split; [done|]. intros (x & Hx & _). by apply elem_of_nil in Hx. }
  cbn. destruct (f a) as [b|] eqn:Ha; simpl.
  - destruct (mapM f xs) as [bs|]; simpl.
    + split; [done|]. intros (x & [->|Hx]%elem_of_cons & Hf); [congruence|].
      assert (Some bs = None) as Hbs by (apply (proj2 IH); by exists x).
      done.
    + split; [|done]. intros _.
      destruct (proj1 IH eq_refl) as (x & Hx & Hf).
      exists x. split; [by right|done].
  - split; [|done]. intros _. exists a. split; [by left|done].
Qed.

Lemma lookupUser_Some l timesIn r :
  lookupUser Users_Get l timesIn = Some r ↔
    ∃ ghUser times,
      Users_Get l = Some ghUser ∧ parseTimes timesIn = Some times
      ∧ r = mkuser (github.GetHTMLURL ghUser) l
              (if String.eqb (github.GetName ghUser) "" then l
               else github.GetName ghUser)
              times.
Proof.
  unfold lookupUser.
  destruct (Users_Get l) as [ghUser|]; simpl; [|naive_solver].
  destruct (parseTimes timesIn) as [times|]; simpl; naive_solver.
Qed.

Lemma lookupUser_None l timesIn :
  lookupUser Users_Get l timesIn = None ↔
    Users_Get l = None
    ∨ ∃ tIn, tIn ∈ timesIn ∧ time.Parse_RFC3339 tIn = None.
Proof.
  assert (parseTimes timesIn = None
          ↔ ∃ tIn, tIn ∈ timesIn ∧ time.Parse_RFC3339 tIn = None) as Hp.
  { unfold parseTimes. apply mapM_None_elem. }
  unfold lookupUser.
  destruct (Users_Get l) as [ghUser|]; simpl; [|naive_solver].
  destruct (parseTimes timesIn) as [times|] eqn:E; simpl.
  - split; [done|]. intros [?|H]; [done|]. apply Hp in H. done.
  - split; [|done]. intros _. right. by apply Hp.
Qed.

(** The collation does not touch the key of a login it does not receive. *)
Lemma foldl_collateStep_other blocklisted blocklistedNames received users k :
  (∀ r, r ∈ received → login r ≠ k) →
  foldl (collateStep blocklisted blocklistedNames) users received !! k
  = users !! k.
Proof.
  revert users. induction received as [|x received IH]; intros users Hk;
    [done|].
  cbn [foldl]. rewrite IH by (intros r Hr; apply Hk; by right).
  unfold collateStep. repeat case_bool_decide; [done..|].
  rewrite lookup_insert_ne; [done|]. apply Hk. by left.
Qed.

(** Received once, a user that is not blocklisted is filed under its
    login. *)
Lemma foldl_collateStep_kept blocklisted blocklistedNames received users r :
  NoDup (login <$> received) → r ∈ received →
  login r ∉ blocklisted → name r ∉ blocklistedNames →
  foldl (collateStep blocklisted blocklistedNames) users received
    !! login r = Some r.
Proof.
  revert users. induction received as [|x received IH];
    intros users Hnd Hin Hb Hn; [by apply elem_of_nil in Hin|].
  rewrite fmap_cons in Hnd. apply NoDup_cons in Hnd as [Hx Hnd].
  cbn [foldl]. apply elem_of_cons in Hin as [->|Hin].
  - rewrite foldl_collateStep_other.
    + unfold collateStep. rewrite !bool_decide_eq_false_2 by done.
      apply lookup_insert_eq.
    + intros r Hr Heq. apply Hx. rewrite <-Heq.
      by apply list_elem_of_fmap_2.
  - by apply IH.
Qed.

(** What the goroutines send: one user per login of the checkpoint, the
    result of its lookup. *)
Lemma sent_spec usersIn sent :
  mapM (λ kv, lookupUser Users_Get kv.1 kv.2) (mapRange _ usersIn)
    = Some sent →
  NoDup (login <$> sent)
  ∧ ∀ r, r ∈ sent ↔
      ∃ timesIn, usersIn !! login r = Some timesIn
        ∧ lookupUser Users_Get (login r) timesIn = Some r.
Proof.
  intros Hm. apply mapM_Some_1 in Hm.
  assert (∀ kv r, lookupUser Users_Get kv.1 kv.2 = Some r → login r = kv.1)
    as Hlogin.
  { intros kv r (? & ? & _ & _ & ->)%lookupUser_Some. done. }
  assert (login <$> sent = (mapRange _ usersIn).*1) as Hkeys.
  { induction Hm as [|kv r kvs rs Hr _ IH]; [done|].
    rewrite !fmap_cons, IH. f_equal. by apply Hlogin. }
  split; [rewrite Hkeys; by apply mapRange_NoDup|].
  intros r. split.
  - intros Hin. apply list_elem_of_lookup in Hin as [i Hi].
    destruct (Forall2_lookup_r _ _ _ _ _ Hm Hi) as ([k v] & Hkv & Hr).
    pose proof (Hlogin _ _ Hr) as Hl. simpl in Hl, Hr. subst k.
    exists v. split; [|done].
    apply elem_of_map_to_list. rewrite <-(Hrange _ usersIn).
    by eapply list_elem_of_lookup_2.
  - intros (timesIn & Hk & Hr).
    apply elem_of_map_to_list in Hk. rewrite <-(Hrange _ usersIn) in Hk.
    apply list_elem_of_lookup in Hk as [i Hi].
    destruct (Forall2_lookup_l _ _ _ _ _ Hm Hi) as (r' & Hr' & Hl).
    simpl in Hl. rewrite Hr in Hl. injection Hl as <-.
    by eapply list_elem_of_lookup_2.
Qed.

(** The enriched users, key by key. *)
Lemma enrichedUsers_lookup flagBlocklist roster usersIn users l r :
  enrichedUsers mapRange arrival Users_Get flagBlocklist roster usersIn
    = Some users →
  users !! l = Some r ↔
    ∃ timesIn,
      usersIn !! l = Some timesIn
      ∧ lookupUser Users_Get l timesIn = Some r
      ∧ (l ∉ strings.Split flagBlocklist ",")
      ∧ (name r ∉ (getOrganizationEmailsAndNamesFromAuthors roster).2).
Proof.
  unfold enrichedUsers.
  destruct (mapM _ _) as [sent|] eqn:Hm; [|done]. intros [= <-].
  destruct (sent_spec _ _ Hm) as [Hnd Hsent].
  split.
  - intros Hl. apply collate_lookup in Hl as (Hin & <- & Hb & Hn).
    rewrite (Harrival _ sent) in Hin.
    apply Hsent in Hin as (timesIn & ? & ?).
    exists timesIn. by rewrite <-elem_of_blocklistedOf.
  - intros (timesIn & Hk & Hr & Hb & Hn).
    assert (login r = l) as <-.
    { by apply lookupUser_Some in Hr as (? & ? & _ & _ & ->). }
    apply foldl_collateStep_kept; [| |by rewrite elem_of_blocklistedOf|done].
    + by rewrite (Harrival _ sent).
    + rewrite (Harrival _ sent). apply Hsent. by exists timesIn.
Qed.

(** The enrichment gives no users exactly when a lookup fails. *)
Lemma enrichedUsers_None flagBlocklist roster usersIn :
  enrichedUsers mapRange arrival Users_Get flagBlocklist roster usersIn = None
  ↔ ∃ l timesIn, usersIn !! l = Some timesIn
                 ∧ lookupUser Users_Get l timesIn = None.
Proof.
  unfold enrichedUsers.
  assert (mapM (λ kv, lookupUser Users_Get kv.1 kv.2) (mapRange _ usersIn)
            = None
          ↔ ∃ l timesIn, usersIn !! l = Some timesIn
              ∧ lookupUser Users_Get l timesIn = None) as Hm.
  { rewrite mapM_None_elem. split.
    - intros ([k v] & Hin & Hnone). exists k, v.
      rewrite (Hrange _ usersIn) in Hin. by apply elem_of_map_to_list in Hin.
    - intros (k & v & Hk & Hnone). exists (k, v). split; [|done].
      rewrite (Hrange _ usersIn). by apply elem_of_map_to_list. }
  rewrite <-Hm. destruct (mapM _ _); simpl; split; done.
Qed.

End enriched.

(** X10.  The users the report is made from, key by key, whatever the order
    of [range] and the order in which the lookups finish: a login of the
    checkpoint that is not a field of the blocklist flag, and whose display
    name is not an internal name, is filed under itself with the URL of its
    profile, its parsed timestamps, and as display name the name of its
    profile, or the login when the profile has none; nothing else is in the
    mapping. *)
Theorem enrichedUsers_are_the_unfiltered_lookups
    (mapRange : ∀ V : Type, gmap string V → list (string * V))
    (arrival : ∀ A : Type, list A → list A)
    (Users_Get : string → option github.User)
    (flagBlocklist roster : string) (usersIn : gmap string (list string))
    (users : gmap string user) (l : string) (r : user) :
  MapRangeSpec mapRange → ArrivalSpec arrival →
  enrichedUsers mapRange arrival Users_Get flagBlocklist roster usersIn
    = Some users →
  users !! l = Some r ↔
    ∃ timesIn ghUser times,
      usersIn !! l = Some timesIn
      ∧ Users_Get l = Some ghUser
      ∧ mapM time.Parse_RFC3339 timesIn = Some times
      ∧ r = mkuser (github.GetHTMLURL ghUser) l
              (if String.eqb (github.GetName ghUser) "" then l
               else github.GetName ghUser)
              times
      ∧ (l ∉ strings.Split flagBlocklist ",")
      ∧ (name r ∉ (getOrganizationEmailsAndNamesFromAuthors roster).2).
Proof.
  intros Hrange Harrival Hen.
  rewrite (enrichedUsers_lookup _ _ _ Hrange Harrival _ _ _ _ _ _ Hen).
  setoid_rewrite lookupUser_Some. naive_solver.
Qed.

Lemma enrichedUsers_are_the_unfiltered_lookups_witness :
  ({[ "external1" :=
        mkuser "https://github.com/external1" "external1" "external1"
          [time.mkTime 1609459201 0 0; time.mkTime 1609477199 0 (-18000)] ]}
     : gmap string user) !! "spammer" = None.
Proof.
  apply eq_None_not_Some. intros [r Hr].
  apply (enrichedUsers_are_the_unfiltered_lookups
           runtime.mapRange runtime.arrival sampleProfiles
           sampleBlocklist sampleRoster sampleUsersIn _ "spammer" r
           runtime_MapRangeSpec runtime_ArrivalSpec) in Hr;
    [|by vm_compute].
  destruct Hr as (? & ? & ? & _ & _ & _ & _ & Hb & _).
  apply Hb. vm_compute (strings.Split _ _). set_solver.
Defined.

(** X11.  The enrichment aborts exactly when a lookup fails or a timestamp
    of the checkpoint does not parse, for any login of the checkpoint, the
    blocklisted ones included: there is no partial result. *)
Theorem enrichedUsers_aborts_on_any_failure
    (mapRange : ∀ V : Type, gmap string V → list (string * V))
    (arrival : ∀ A : Type, list A → list A)
    (Users_Get : string → option github.User)
    (flagBlocklist roster : string) (usersIn : gmap string (list string)) :
  MapRangeSpec mapRange →
  enrichedUsers mapRange arrival Users_Get flagBlocklist roster usersIn = None
  ↔ ∃ l timesIn,
      usersIn !! l = Some timesIn
      ∧ (Users_Get l = None
         ∨ ∃ tIn, tIn ∈ timesIn ∧ time.Parse_RFC3339 tIn = None).
Proof.
  intros Hrange.
  rewrite (enrichedUsers_None mapRange arrival Users_Get Hrange).
  by setoid_rewrite lookupUser_None.
Qed.

Lemma enrichedUsers_aborts_on_any_failure_witness :
  enrichedUsers runtime.mapRange runtime.arrival sampleProfiles
    sampleBlocklist sampleRoster
    {[ "spammer" := ["2021-03-04 05:06:07"];
       "external1" := ["2021-01-01T00:00:01Z"] ]} = None.
Proof.
  apply (enrichedUsers_aborts_on_any_failure runtime.mapRange runtime.arrival
           sampleProfiles sampleBlocklist sampleRoster _
           runtime_MapRangeSpec).
  exists "spammer", ["2021-03-04 05:06:07"]. split; [by vm_compute|].
  right. exists "2021-03-04 05:06:07". split; [by left|by vm_compute].
Defined.

(** A timestamp of the checkpoint that only the layout parser takes, here
    with an hour of one digit, does not abort the enrichment. *)
Example enrichment_of_a_one_digit_hour :
  enrichedUsers runtime.mapRange runtime.arrival sampleProfiles
    sampleBlocklist sampleRoster
    {[ "external1" := ["2021-03-04T5:06:07Z"] ]}
  = Some {[ "external1" :=
              mkuser "https://github.com/external1" "external1" "external1"
                [time.mkTime 1614834367 0 0] ]}.
Proof. by vm_compute. Qed.

(** X12.  No entry of a bucket has an empty display name, unless its login
    is empty: a user whose profile has no name is shown under its login. *)
Theorem ranked_display_name_not_empty
    (mapRange : ∀ V : Type, gmap string V → list (string * V))
    (sortSlice : ∀ A : Type, (A → A → bool) → list A → list A)
    (arrival : ∀ A : Type, list A → list A)
    (Users_Get : string → option github.User)
    (flagBlocklist roster : string) (usersIn : gmap string (list string))
    (users : gmap string user) (from to : time.Time) (e : toSortEntry) :
  MapRangeSpec mapRange → SortSliceSpec sortSlice → ArrivalSpec arrival →
  enrichedUsers mapRange arrival Users_Get flagBlocklist roster usersIn
    = Some users →
  e ∈ ranking mapRange sortSlice users from to →
  login (u e) ≠ "" → name (u e) ≠ "".
Proof.
  intros Hrange Hsort Harrival Hen He.
  rewrite ranking_entries in He by done.
  apply elem_of_entriesInRange in He as (k & Hk & _).
  apply (enrichedUsers_lookup _ _ _ Hrange Harrival _ _ _ _ _ _ Hen) in Hk
    as (timesIn & _ & Hr & _).
  apply lookupUser_Some in Hr as (ghUser & times & _ & _ & ->). simpl.
  destruct (String.eqb_spec (github.GetName ghUser) ""); done.
Qed.

Lemma ranked_display_name_not_empty_witness :
  name (mkuser "https://github.com/external1" "external1" "external1"
          [time.mkTime 1609459201 0 0; time.mkTime 1609477199 0 (-18000)])
  ≠ "".
Proof.
  apply (ranked_display_name_not_empty
           runtime.mapRange runtime.sortSlice runtime.arrival sampleProfiles
           sampleBlocklist sampleRoster sampleUsersIn
           {[ "external1" :=
                mkuser "https://github.com/external1" "external1" "external1"
                  [time.mkTime 1609459201 0 0;
                   time.mkTime 1609477199 0 (-18000)] ]}
           jan2021 jan2022
           (mkEntry
              (mkuser "https://github.com/external1" "external1" "external1"
                 [time.mkTime 1609459201 0 0;
                  time.mkTime 1609477199 0 (-18000)]) 2)
           runtime_MapRangeSpec runtime_SortSliceSpec runtime_ArrivalSpec).
  - by vm_compute.
  - vm_compute (ranking _ _ _ _ _). by left.
  - done.
Defined.

(** ** More about the roster parser *)

Section roster_names.

Implicit Types (line contents n : string) (acc : gset string * gset string).

Lemma lineStep_names acc line n :
  n ∈ (lineStep acc line).2 ↔
    n ∈ acc.2 ∨
    (skippedLine line = false ∧
     ∃ i f, list_find isEmailField (strings.Split line " ") = Some (i, f)
            ∧ n = strings.Join (take i (strings.Split line " ")) " ").
Proof.
  destruct (skippedLine line) eqn:Hs.
  { rewrite lineStep_skipped by done. naive_solver. }
  unfold skippedLine in Hs. apply orb_false_iff in Hs as [Hc Hd].
  unfold lineStep. rewrite Hc, Hd, fieldsLoop_spec. cbn [snd negb].
  destruct (list_find isEmailField (strings.Split line " ")) as [[j f]|].
  - rewrite elem_of_union, elem_of_singleton. cbn [Nat.add]. split.
    + intros [->|?]; [right|by left]. split; [done|]. by exists j, f.
    + intros [?|(_ & i & f' & [= <- <-] & ->)]; [by right|by left].
  - split; [by left|]. by intros [?|(_ & ? & ? & ? & _)].
Qed.

Lemma foldl_lineStep_names (lines : list string) acc n :
  n ∈ (foldl lineStep acc lines).2 ↔
    n ∈ acc.2 ∨
    ∃ line i f, line ∈ lines ∧ skippedLine line = false
      ∧ list_find isEmailField (strings.Split line " ") = Some (i, f)
      ∧ n = strings.Join (take i (strings.Split line " ")) " ".
Proof.
  revert acc. induction lines as [|l lines IH]; intros acc; simpl.
  { split; [by left|]. intros [?|(?&?&?&Hin&_)]; [done|]. by inv Hin. }
  rewrite IH, lineStep_names. split.
  - intros [[?|(Hs & i & f & ? & ?)]|(l' & i & f & ? & ?)].
    + by left.
    + right. exists l, i, f. split; [by left|done].
    + right. exists l', i, f. split; [by right|done].
  - intros [?|(l' & i & f & Hin & Hs & ? & ?)]; [by left; left|].
    inv Hin.
    + left; right. split; [done|]. by exists i, f.
    + right. by exists l', i, f.
Qed.

(** Splitting at a separator splits the fields. *)
Lemma Split_app (a b : string) (c : ascii) :
  strings.Split (a ++ String c b) c
  = (strings.Split a c ++ strings.Split b c)%list.
Proof.
  induction a as [|x a IH].
  { change ("" ++ String c b) with (String c b). cbn [strings.Split].
    by rewrite Ascii.eqb_refl. }
  change (String x a ++ String c b) with (String x (a ++ String c b)).
  cbn [strings.Split]. rewrite IH.
  destruct (Ascii.eqb x c); [done|].
  pose proof (Split_nonempty a c).
  by destruct (strings.Split a c).
Qed.

(** The lines of a roster add to what is there, each on its own. *)
Lemma foldl_lineStep_union (lines : list string) acc :
  foldl lineStep acc lines
  = (acc.1 ∪ (foldl lineStep (∅, ∅) lines).1,
     acc.2 ∪ (foldl lineStep (∅, ∅) lines).2).
Proof.
  destruct (foldl lineStep acc lines) as [E N] eqn:H. f_equal.
  - apply set_eq. intros e.
    replace E with (foldl lineStep acc lines).1 by (by rewrite H).
    rewrite elem_of_union, !foldl_lineStep_emails. set_solver.
  - apply set_eq. intros n.
    replace N with (foldl lineStep acc lines).2 by (by rewrite H).
    rewrite elem_of_union, !foldl_lineStep_names. set_solver.
Qed.

End roster_names.

(** X13.  A name is in the internal-names set exactly when a line of the
    roster that is not a comment and contains the internal domain has an
    email field, and the name is the text of the fields before the first
    one, joined by spaces: a line without email field gives no name. *)
Theorem roster_names_of_kept_lines (contents n : string) :
  n ∈ (getOrganizationEmailsAndNamesFromAuthors contents).2 ↔
  ∃ line i f,
    line ∈ strings.Split contents "010"
    ∧ strings.HasPrefix line "#" = false
    ∧ strings.Contains line internalDomain = true
    ∧ list_find isEmailField (strings.Split line " ") = Some (i, f)
    ∧ n = strings.Join (take i (strings.Split line " ")) " ".
Proof.
  unfold getOrganizationEmailsAndNamesFromAuthors.
  rewrite foldl_lineStep_names. simpl. split.
  - intros [Hin|(line & i & f & Hl & Hs & Hf & ->)]; [set_solver|].
    unfold skippedLine in Hs. apply orb_false_iff in Hs as [Hc Hd].
    apply negb_false_iff in Hd. by exists line, i, f.
  - intros (line & i & f & Hl & Hc & Hd & Hf & ->). right.
    exists line, i, f. repeat split; [done| |done].
    unfold skippedLine. by rewrite Hc, Hd.
Qed.

(** X14.  The roster is read line by line, each line on its own: the sets
    of two rosters written one after the other are the unions of their
    sets, so neither the order of the lines nor a repeated line matters. *)
Theorem roster_of_concatenation (contents1 contents2 : string) :
  getOrganizationEmailsAndNamesFromAuthors
    (contents1 ++ newline ++ contents2)
  = ( (getOrganizationEmailsAndNamesFromAuthors contents1).1
      ∪ (getOrganizationEmailsAndNamesFromAuthors contents2).1,
      (getOrganizationEmailsAndNamesFromAuthors contents1).2
      ∪ (getOrganizationEmailsAndNamesFromAuthors contents2).2 ).
Proof.
  unfold getOrganizationEmailsAndNamesFromAuthors.
  change (newline ++ contents2) with (String "010" contents2).
  rewrite Split_app, foldl_app. apply foldl_lineStep_union.
Qed.

(** X15.  A roster line that begins with its email field gives the empty
    name, and with the empty name in the set the collector skips every
    commit whose author has no name in the profile. *)
Theorem roster_line_beginning_with_email_hides_unnamed_authors
    (contents line f : string) (rest : list string)
    (organizationMembers : gset string) (commit : github.RepositoryCommit) :
  line ∈ strings.Split contents "010" →
  strings.HasPrefix line "#" = false →
  strings.Contains line internalDomain = true →
  strings.Split line " " = f :: rest →
  isEmailField f = true →
  "" ∈ (getOrganizationEmailsAndNamesFromAuthors contents).2
  ∧ (github.GetName (github.GetAuthor commit) = "" →
     skipCommit organizationMembers
       (getOrganizationEmailsAndNamesFromAuthors contents).1
       (getOrganizationEmailsAndNamesFromAuthors contents).2 commit = true).
Proof.
  intros Hl Hc Hd Hsplit Hf.
  assert ("" ∈ (getOrganizationEmailsAndNamesFromAuthors contents).2) as Hn.
  { unfold getOrganizationEmailsAndNamesFromAuthors.
    apply foldl_lineStep_names. right. exists line, 0%nat, f.
    split; [done|]. split; [unfold skippedLine; by rewrite Hc, Hd|].
    rewrite Hsplit. cbn [list_find]. rewrite decide_True by (by rewrite Hf).
    done. }
  split; [done|]. intros Hname.
  destruct (skipCommit _ _ _ commit) eqn:Hskip; [done|].
  apply skipCommit_false in Hskip as (_ & _ & _ & _ & _ & Hnot & _).
  by rewrite Hname in Hnot.
Qed.

Lemma roster_line_beginning_with_email_hides_unnamed_authors_witness :
  "" ∈ (getOrganizationEmailsAndNamesFromAuthors
          "<jane@cockroachlabs.com> Jane Doe").2
  ∧ skipCommit ∅
      (getOrganizationEmailsAndNamesFromAuthors
         "<jane@cockroachlabs.com> Jane Doe").1
      (getOrganizationEmailsAndNamesFromAuthors
         "<jane@cockroachlabs.com> Jane Doe").2
      (sampleCommit "external1" "external1@gmail.com" 1600000300 [])
    = true.
Proof.
  destruct (roster_line_beginning_with_email_hides_unnamed_authors
              "<jane@cockroachlabs.com> Jane Doe"
              "<jane@cockroachlabs.com> Jane Doe"
              "<jane@cockroachlabs.com>" ["Jane"; "Doe"] ∅
              (sampleCommit "external1" "external1@gmail.com" 1600000300 []))
    as [H1 H2]; [by left|by vm_compute..|].
  split; [exact H1|]. by apply H2.
Defined.

Example roster_of_two_parts :
  getOrganizationEmailsAndNamesFromAuthors
    ("Jane Doe <jane@cockroachlabs.com>" ++ newline
     ++ "# Joe <joe@cockroachlabs.com>" ++ newline
     ++ "Jane Doe <jd@cockroachlabs.com>")
  = ({[ "jane@cockroachlabs.com"; "jd@cockroachlabs.com" ]}, {[ "Jane Doe" ]}).
Proof. by vm_compute. Qed.

(** ** The comma-separated flags *)

Section flags.

Implicit Types (s : string) (c : ascii) (l : list string).

(** A string without the separator is its own only field. *)
Lemma Split_without_separator s c :
  strings.Contains s (String c "") = false → strings.Split s c = [s].
Proof.
  induction s as [|a s IH]; [done|].
  cbn [strings.Contains String.prefix strings.Split].
  destruct (Ascii.eqb_spec a c) as [->|Hne].
  - destruct (ascii_dec c c); [|done]. by destruct s.
  - destruct (ascii_dec c a) as [->|_]; [done|].
    intros H. simpl in H. by rewrite IH.
Qed.

(** Splitting a join gives the joined strings back, when there is one at
    least and none contains the separator. *)
Lemma Split_Join l c :
  l ≠ [] →
  Forall (λ s, strings.Contains s (String c "") = false) l →
  strings.Split (strings.Join l (String c "")) c = l.
Proof.
  intros Hne Hl. induction Hl as [|x l Hx Hl IH]; [done|].
  destruct l as [|y l].
  - by apply Split_without_separator.
  - rewrite Join_cons_cons.
    change (String c "" ++ strings.Join (y :: l) (String c ""))
      with (String c (strings.Join (y :: l) (String c ""))).
    rewrite Split_app, IH by done.
    by rewrite Split_without_separator.
Qed.

Lemma blocklistedOf_list_to_set (flagBlocklist : string) :
  blocklistedOf flagBlocklist
  = list_to_set (strings.Split flagBlocklist ",").
Proof.
  apply set_eq. intros x.
  by rewrite elem_of_blocklistedOf, elem_of_list_to_set.
Qed.

Lemma fromReposOf_fmap (flagRepos flagOrganization : string) :
  fromReposOf flagRepos flagOrganization
  = repoLink flagOrganization <$> strings.Split flagRepos ",".
Proof.
  unfold fromReposOf.
  assert (∀ l acc,
    foldl (λ fromRepos repo,
             (fromRepos ++ [repoLink flagOrganization repo])%list) acc l
    = (acc ++ (repoLink flagOrganization <$> l))%list) as H.
  { induction l as [|x l IH]; intros acc; simpl; [by rewrite app_nil_r|].
    by rewrite IH, <-app_assoc. }
  by rewrite H.
Qed.

End flags.

(** X16.  The blocklist flag made of logins joined by commas blocks these
    logins and no other, when none of them contains a comma; the flag is not
    trimmed, and the empty flag blocks the empty login. *)
Theorem blocklist_of_joined_logins (logins : list string) :
  Forall (λ l, strings.Contains l "," = false) logins →
  blocklistedOf (strings.Join logins ",")
  = match logins with
    | [] => {[ "" ]}
    | _ => list_to_set logins
    end.
Proof.
  intros Hl. rewrite blocklistedOf_list_to_set.
  destruct logins as [|l logins]; [by vm_compute|].
  by rewrite Split_Join.
Qed.

Lemma blocklist_of_joined_logins_witness :
  blocklistedOf "craig[bot], spammer"
  = {[ "craig[bot]"; " spammer" ]}.
Proof.
  change "craig[bot], spammer"
    with (strings.Join ["craig[bot]"; " spammer"] ",").
  rewrite (blocklist_of_joined_logins ["craig[bot]"; " spammer"]).
  - by vm_compute.
  - repeat (apply Forall_cons; split); [by vm_compute..|done].
Defined.

(** X17.  The report names its sources in the order of the flag, one link
    per repository: for repository names without comma, joined by commas,
    the links are those of the names. *)
Theorem fromRepos_of_joined_names (repos : list string)
    (flagOrganization : string) :
  repos ≠ [] →
  Forall (λ repo, strings.Contains repo "," = false) repos →
  fromReposOf (strings.Join repos ",") flagOrganization
  = repoLink flagOrganization <$> repos.
Proof. intros Hne Hl. by rewrite fromReposOf_fmap, Split_Join. Qed.

Lemma fromRepos_of_joined_names_witness :
  fromReposOf "cockroach,pebble" "cockroachdb"
  = ["[cockroach](https://github.com/cockroachdb/cockroach)";
     "[pebble](https://github.com/cockroachdb/pebble)"].
Proof.
  change "cockroach,pebble" with (strings.Join ["cockroach"; "pebble"] ",").
  rewrite (fromRepos_of_joined_names ["cockroach"; "pebble"] "cockroachdb").
  - by vm_compute.
  - done.
  - repeat (apply Forall_cons; split); [by vm_compute..|done].
Defined.

(** ** Ranges that share a bound *)

Section split.

Implicit Types (t a b c : time.Time) (ts : list time.Time).

(** Between two instants, a third one cuts the timestamps in three: those
    before it, those at it and those after it. *)
Lemma countInRange_split ts a b c :
  instantLt a b → instantLt b c →
  countInRange ts a c
  = countInRange ts a b + countInRange ts b c
    + Z.of_nat (length (filter (sameInstant b) ts)).
Proof.
  intros Hab Hbc. unfold countInRange.
  induction ts as [|t ts IH]; [done|].
  rewrite !filter_cons.
  unfold strictlyWithin, instantLt, sameInstant in *.
  repeat case_decide; cbn [length]; lia.
Qed.

Lemma default_countOf a c (obj : user) :
  default 0 (countOf a c obj) = countInRange (times obj) a c.
Proof.
  unfold countOf.
  by destruct (Z.eqb_spec (countInRange (times obj) a c) 0) as [->|?].
Qed.

End split.

(** X18.  Of two ranges that share a bound, and of the range that spans
    both: a user's count in the spanning range is the sum of the counts in
    the two, plus the user's timestamps at the instant of the shared bound,
    which are counted in the spanning range and in neither part. *)
Theorem counts_of_adjacent_ranges
    (mapRange : ∀ V : Type, gmap string V → list (string * V))
    (users : gmap string user) (from mid to : time.Time)
    (k : string) (obj : user) :
  MapRangeSpec mapRange →
  users !! k = Some obj →
  instantLt from mid → instantLt mid to →
  default 0 (timesByUserOf mapRange users from to !! k)
  = default 0 (timesByUserOf mapRange users from mid !! k)
    + default 0 (timesByUserOf mapRange users mid to !! k)
    + Z.of_nat (length (filter (sameInstant mid) (times obj))).
Proof.
  intros Hrange Hk H1 H2.
  rewrite !timesByUserOf_spec, !lookup_omap, Hk by done. cbn [mbind option_bind].
  rewrite !default_countOf. by apply countInRange_split.
Qed.

Lemma counts_of_adjacent_ranges_witness :
  default 0 (timesByUserOf runtime.mapRange sampleUsers
               (in2021 (-10)) (in2021 90) !! "carol")
  = 0 + 1 + 1.
Proof.
  rewrite (counts_of_adjacent_ranges runtime.mapRange sampleUsers
             (in2021 (-10)) jan2021 (in2021 90) "carol"
             (mkuser "https://github.com/carol" "carol" "carol"
                [jan2021; in2021 10; jan2022])
             runtime_MapRangeSpec);
    [by vm_compute|by vm_compute|left; vm_compute; reflexivity
    |left; vm_compute; reflexivity].
Defined.

(** X28.  A block lists every user that has a timestamp strictly within the
    range once, with the number of such timestamps, and lists nothing else:
    the ranking is a rearrangement of these entries, and a user of the
    mapping without timestamp in range has no entry. *)
Theorem block_lists_each_contributor_once
    (mapRange : ∀ V : Type, gmap string V → list (string * V))
    (sortSlice : ∀ A : Type, (A → A → bool) → list A → list A)
    (users : gmap string user) (from to : time.Time) :
  MapRangeSpec mapRange → SortSliceSpec sortSlice →
  ranking mapRange sortSlice users from to
  ≡ₚ omap (λ kv, if countInRange (times kv.2) from to =? 0 then None
                 else Some (mkEntry kv.2 (countInRange (times kv.2) from to)))
          (map_to_list users)
  ∧ (∀ k obj, users !! k = Some obj →
       0 < countInRange (times obj) from to →
       mkEntry obj (countInRange (times obj) from to)
       ∈ ranking mapRange sortSlice users from to)
  ∧ (∀ e, e ∈ ranking mapRange sortSlice users from to → 0 < count e).
Proof.
  intros Hrange Hsort.
  pose proof (ranking_entries mapRange sortSlice Hrange Hsort users from to)
    as Hperm.
  split; [exact Hperm|]. split.
  - intros k obj Hk Hpos. rewrite Hperm. apply elem_of_entriesInRange.
    by exists k.
  - intros e He. rewrite Hperm in He.
    by apply elem_of_entriesInRange in He as (_ & _ & _ & ?).
Qed.

Lemma block_lists_each_contributor_once_witness :
  mkEntry (mkuser "https://github.com/carol" "carol" "carol"
             [jan2021; in2021 10; jan2022]) 1
  ∈ ranking runtime.mapRange runtime.sortSlice sampleUsers jan2021 jan2022.
Proof.
  destruct (block_lists_each_contributor_once runtime.mapRange
              runtime.sortSlice sampleUsers jan2021 jan2022
              runtime_MapRangeSpec runtime_SortSliceSpec) as (_ & H & _).
  apply (H "carol" (mkuser "https://github.com/carol" "carol" "carol"
                      [jan2021; in2021 10; jan2022])); by vm_compute.
Defined.

(** ** The years of the calendar *)

Section years.

Import time.

(** The day count of a January 1. *)
Lemma daysFromCivil_jan1 year :
  daysFromCivil year 1 1
  = daysPer400Years * ((year - 1) / 400)
    + daysBeforeCycleYear ((year - 1) mod 400).
Proof.
  unfold daysFromCivil. cbn [daysBefore]. change (3 <=? 1) with false.
  rewrite andb_false_r. lia.
Qed.

Lemma daysBeforeCycleYear_succ y :
  0 <= y < 399 →
  daysBeforeCycleYear (y + 1)
  = daysBeforeCycleYear y + yearLength (isLeap (y + 1)).
Proof.
  intros Hy. apply Z.eqb_eq.
  apply (allBelow_spec
           (λ y, daysBeforeCycleYear (y + 1)
                 =? daysBeforeCycleYear y + yearLength (isLeap (y + 1))) 399);
    [|done].
  vm_compute. reflexivity.
Qed.

(** A year is 365 or 366 days long. *)
Lemma daysFromCivil_next_year year :
  daysFromCivil (year + 1) 1 1
  = daysFromCivil year 1 1 + yearLength (isLeap year).
Proof.
  rewrite !daysFromCivil_jan1.
  replace (year + 1 - 1) with year by lia.
  assert (0 <= (year - 1) mod 400 < 400) as Hr
    by (by apply Z.mod_pos_bound).
  assert (year - 1 = 400 * ((year - 1) / 400) + (year - 1) mod 400) as Hq
    by (by apply Z.div_mod).
  set (q := (year - 1) / 400) in *. set (r := (year - 1) mod 400) in *.
  clearbody q r.
  assert (year = 400 * q + r + 1) as -> by lia.
  rewrite isLeap_cycle.
  destruct (decide (r = 399)) as [->|Hne].
  - replace (400 * q + 399 + 1) with (0 + (q + 1) * 400) by lia.
    rewrite Z_div_plus_full, Z_mod_plus_full by lia.
    vm_compute (daysBeforeCycleYear 399). vm_compute (yearLength _).
    vm_compute (daysBeforeCycleYear _). change (0 / 400) with 0.
    unfold daysPer400Years. lia.
  - replace (400 * q + r + 1) with ((r + 1) + q * 400) by lia.
    rewrite Z_div_plus_full, Z_mod_plus_full by lia.
    rewrite (Z.div_small (r + 1) 400), (Z.mod_small (r + 1) 400) by lia.
    rewrite daysBeforeCycleYear_succ by lia. lia.
Qed.

Lemma yearLength_pos leap : 365 <= yearLength leap <= 366.
Proof. destruct leap; simpl; lia. Qed.

(** Later years begin later. *)
Lemma daysFromCivil_year_mono year (n : nat) :
  daysFromCivil year 1 1 + 365 * Z.of_nat n
  <= daysFromCivil (year + Z.of_nat n) 1 1.
Proof.
  induction n as [|n IH].
  { replace (year + Z.of_nat 0) with year by lia. lia. }
  replace (year + Z.of_nat (S n)) with (year + Z.of_nat n + 1) by lia.
  rewrite daysFromCivil_next_year.
  pose proof (yearLength_pos (isLeap (year + Z.of_nat n))). lia.
Qed.

Lemma daysFromCivil_year_lt y1 y2 :
  y1 < y2 → daysFromCivil (y1 + 1) 1 1 <= daysFromCivil y2 1 1.
Proof.
  intros H.
  pose proof (daysFromCivil_year_mono (y1 + 1) (Z.to_nat (y2 - y1 - 1))) as Hm.
  replace (y1 + 1 + Z.of_nat (Z.to_nat (y2 - y1 - 1))) with y2 in Hm by lia.
  lia.
Qed.

(** The days of a year lie between its January 1 and the next. *)
Lemma daysFromCivil_within_year year month day :
  1 <= month <= 12 → 1 <= day <= daysIn month year →
  daysFromCivil year 1 1 <= daysFromCivil year month day
  < daysFromCivil (year + 1) 1 1.
Proof.
  intros Hm Hd. rewrite daysFromCivil_next_year, daysFromCivil_jan1.
  unfold daysFromCivil. unfold daysIn in Hd. unfold yearLength.
  set (base := daysPer400Years * ((year - 1) / 400)
               + daysBeforeCycleYear ((year - 1) mod 400)).
  clearbody base.
  assert (month = 1 ∨ month = 2 ∨ month = 3 ∨ month = 4 ∨ month = 5
          ∨ month = 6 ∨ month = 7 ∨ month = 8 ∨ month = 9 ∨ month = 10
          ∨ month = 11 ∨ month = 12) as Hcases by lia.
  destruct (isLeap year);
    repeat (destruct Hcases as [->|Hcases]); try subst month;
    cbn in Hd |- *; lia.
Qed.

(** The year of a time is the one its day lies in. *)
Lemma Year_spec t year :
  Year t = year ↔
    daysFromCivil year 1 1 <= localDays t < daysFromCivil (year + 1) 1 1.
Proof.
  assert (daysFromCivil (Year t) 1 1 <= localDays t
          < daysFromCivil (Year t + 1) 1 1) as Hin.
  { unfold Year.
    destruct (civilFromDays (localDays t)) as [[y m] d] eqn:Hciv.
    destruct (civilFromDays_spec _ _ _ _ Hciv) as (Hm & Hd & <-).
    by apply daysFromCivil_within_year. }
  split; [by intros <-|]. intros Hy.
  destruct (Z.lt_total (Year t) year) as [Hlt|[?|Hlt]]; [|done|].
  - pose proof (daysFromCivil_year_lt _ _ Hlt). lia.
  - pose proof (daysFromCivil_year_lt _ _ Hlt). lia.
Qed.

Lemma yearStart_unixSec year :
  unixSec (yearStart year)
  = (daysFromCivil year 1 1 - unixEpochDays) * secondsPerDay.
Proof. unfold yearStart, Date. cbn [unixSec]. lia. Qed.

Lemma yearStart_lt y1 y2 :
  y1 < y2 → unixSec (yearStart (y1 + 1)) <= unixSec (yearStart y2).
Proof.
  intros H. rewrite !yearStart_unixSec.
  pose proof (daysFromCivil_year_lt _ _ H). unfold secondsPerDay. lia.
Qed.

Lemma yearStart_next year :
  unixSec (yearStart year) < unixSec (yearStart (year + 1)).
Proof.
  rewrite !yearStart_unixSec, daysFromCivil_next_year.
  pose proof (yearLength_pos (isLeap year)). unfold secondsPerDay. lia.
Qed.

(** A time is within a year's bucket when its UTC day is in the year, the
    first instant of the year apart. *)
Lemma yearBucket_spec t year :
  0 <= nsec t →
  strictlyWithin (yearStart year) (yearStart (year + 1)) t ↔
    Year (inUTC t) = year ∧ ¬ sameInstant t (yearStart year).
Proof.
  intros Hns. rewrite Year_spec.
  unfold strictlyWithin, instantLt, sameInstant, localDays.
  rewrite !yearStart_unixSec.
  change (nsec (yearStart year)) with 0.
  change (nsec (yearStart (year + 1))) with 0.
  cbn [inUTC unixSec zoneOffset]. unfold secondsPerDay, unixEpochDays.
  rewrite Z.add_0_r.
  set (s := unixSec t). set (d1 := daysFromCivil year 1 1).
  set (d2 := daysFromCivil (year + 1) 1 1).
  split.
  - intros [H1 H2]. split; [divlia|lia].
  - intros [H1 H2]. split; divlia.
Qed.

End years.

Section yearly.

Implicit Types (t : time.Time) (year : Z).

Lemma Equal_sameInstant t u' : time.Equal t u' = true ↔ sameInstant t u'.
Proof.
  unfold time.Equal, sameInstant. by rewrite andb_true_iff, !Z.eqb_eq.
Qed.

Lemma instantLt_trans (a b c : time.Time) :
  instantLt a b → instantLt b c → instantLt a c.
Proof. unfold instantLt. lia. Qed.

Lemma instantLt_irrefl (a : time.Time) : ¬ instantLt a a.
Proof. unfold instantLt. lia. Qed.

(** The first instants of the years are in the order of the years. *)
Lemma yearStart_instantLt y1 y2 :
  y1 < y2 → instantLt (yearStart y1) (yearStart y2).
Proof.
  intros H. left. pose proof (yearStart_next y1).
  pose proof (yearStart_lt y1 y2 H). lia.
Qed.

Lemma yearStart_instant_le y1 y2 (t : time.Time) :
  y1 < y2 → instantLt t (yearStart (y1 + 1)) → instantLt t (yearStart y2).
Proof.
  intros H Ht. destruct (decide (y1 + 1 = y2)) as [<-|Hne]; [done|].
  eapply instantLt_trans; [done|]. apply yearStart_instantLt. lia.
Qed.

(** A time whose UTC year is before [year] is before the first instant of
    [year]. *)
Lemma before_yearStart t year :
  time.Year (inUTC t) < year →
  time.unixSec t < time.unixSec (yearStart year).
Proof.
  intros Hlt.
  destruct (proj1 (Year_spec (inUTC t) _) eq_refl) as [_ Hday].
  pose proof (daysFromCivil_year_lt _ _ Hlt) as Hle.
  rewrite yearStart_unixSec. unfold time.localDays in Hday.
  cbn [inUTC time.unixSec time.zoneOffset] in Hday.
  rewrite Z.add_0_r in Hday.
  unfold time.secondsPerDay, time.unixEpochDays in *.
  set (d := time.daysFromCivil year 1 1) in *.
  set (d' := time.daysFromCivil (time.Year (inUTC t) + 1) 1 1) in *.
  clearbody d d'. divlia.
Qed.

Lemma String_concat_empty_cons (x : string) (xs : list string) :
  String.concat "" (x :: xs) = x ++ String.concat "" xs.
Proof. destruct xs; simpl; [by rewrite string_app_nil_r|done]. Qed.

Lemma yearsLoop_spec
    (mapRange : ∀ V : Type, gmap string V → list (string * V))
    (sortSlice : ∀ A : Type, (A → A → bool) → list A → list A)
    (n : nat) year (users : gmap string user) (out : string) :
  yearsLoop mapRange sortSlice n year users out
  = out ++ String.concat ""
             ((λ y, yearSection y
                      (formatContributors mapRange sortSlice users
                         (yearStart y) (yearStart (y + 1))))
                <$> ((λ i : nat, year - Z.of_nat i) <$> seq 0 n)).
Proof.
  revert year out. induction n as [|n IH]; intros year out.
  { simpl. by rewrite string_app_nil_r. }
  cbn [yearsLoop]. rewrite IH, string_app_assoc.
  change (seq 0 (S n)) with (0%nat :: seq 1 n).
  rewrite <-(fmap_S_seq 0%nat n), !fmap_cons, String_concat_empty_cons.
  replace (year - Z.of_nat 0) with year by lia.
  do 4 f_equal. rewrite <-list_fmap_compose.
  apply list_fmap_ext. intros i x _. simpl. lia.
Qed.

Lemma elem_of_yearsOf year y : y ∈ yearsOf year ↔ 2014 <= y <= year.
Proof.
  unfold yearsOf. rewrite list_elem_of_fmap. split.
  - intros (i & -> & Hi). apply elem_of_seq in Hi. lia.
  - intros Hy. exists (Z.to_nat (year - y)). split; [lia|].
    apply elem_of_seq. lia.
Qed.

Lemma yearsOf_descending year :
  StronglySorted (λ a b, b < a) (yearsOf year).
Proof.
  unfold yearsOf. generalize (Z.to_nat (year - 2013)) as n.
  generalize 0%nat as k. intros k n. revert k.
  induction n as [|n IH]; intros k; [constructor|].
  cbn [seq fmap list_fmap]. constructor; [apply IH|].
  apply Forall_forall. intros y (i & -> & Hi)%list_elem_of_fmap.
  apply elem_of_seq in Hi. lia.
Qed.

End yearly.

(** X19.  A commit is counted in the section of the year of its date in
    UTC, whatever its own zone: a timestamp passes the test of a yearly
    bucket exactly when the year of its instant in UTC is the bucket's year
    and it is not the first instant of that year. *)
Theorem yearly_bucket_is_the_utc_year (t : time.Time) (year : Z) :
  0 <= time.nsec t →
  time.After t (yearStart year) && time.Before t (yearStart (year + 1)) = true
  ↔ time.Year (inUTC t) = year ∧ time.Equal t (yearStart year) = false.
Proof.
  intros Hns. rewrite inRange_spec, yearBucket_spec by done.
  rewrite <-Equal_sameInstant.
  destruct (time.Equal t (yearStart year)); naive_solver.
Qed.

Lemma yearly_bucket_is_the_utc_year_witness :
  time.After (time.mkTime 1609477199 0 (-18000)) (yearStart 2021)
  && time.Before (time.mkTime 1609477199 0 (-18000)) (yearStart 2022) = true
  ∧ time.Year (time.mkTime 1609477199 0 (-18000)) = 2020.
Proof.
  split; [|by vm_compute].
  apply (yearly_bucket_is_the_utc_year
           (time.mkTime 1609477199 0 (-18000)) 2021); [simpl; lia|].
  split; vm_compute; reflexivity.
Defined.

(** X20.  The yearly buckets are disjoint: a timestamp is counted in the
    section of one year at most. *)
Theorem yearly_buckets_disjoint (t : time.Time) (year1 year2 : Z) :
  time.After t (yearStart year1) && time.Before t (yearStart (year1 + 1))
    = true →
  time.After t (yearStart year2) && time.Before t (yearStart (year2 + 1))
    = true →
  year1 = year2.
Proof.
  rewrite !inRange_spec. intros [Ha1 Hb1] [Ha2 Hb2].
  destruct (Z.lt_total year1 year2) as [Hlt|[?|Hlt]]; [|done|].
  - destruct (instantLt_irrefl t).
    eapply instantLt_trans; [|exact Ha2]. by eapply yearStart_instant_le.
  - destruct (instantLt_irrefl t).
    eapply instantLt_trans; [|exact Ha1]. by eapply yearStart_instant_le.
Qed.

Lemma yearly_buckets_disjoint_witness : 2021 = 2021.
Proof.
  apply (yearly_buckets_disjoint (in2021 10) 2021 2021); by vm_compute.
Defined.

(** X21.  A commit stamped with the first instant of a year in UTC is in
    the section of no year: the bucket of its year begins after it, and the
    bucket of the year before ends before it. *)
Theorem first_instant_of_a_year_in_no_section (year year' : Z) :
  time.After (yearStart year) (yearStart year')
  && time.Before (yearStart year) (yearStart (year' + 1)) = false.
Proof.
  apply not_true_iff_false. rewrite inRange_spec. intros [Ha Hb].
  destruct (Z.lt_total year year') as [Hlt|[<-|Hlt]].
  - destruct (instantLt_irrefl (yearStart year)).
    eapply instantLt_trans; [|exact Ha]. by apply yearStart_instantLt.
  - by destruct (instantLt_irrefl (yearStart year)).
  - destruct (instantLt_irrefl (yearStart year)).
    by eapply yearStart_instant_le.
Qed.

(** X30.  A commit dated before 2014 in UTC is never reported: it fails
    the test of the all-time bucket, whatever the clock, and the test of
    the bucket of every year from 2014 on. *)
Theorem commits_before_2014_not_reported (t now2 : time.Time) (year : Z) :
  time.Year (inUTC t) < 2014 →
  time.After t (yearStart 2014) && time.Before t now2 = false
  ∧ (2014 <= year →
     time.After t (yearStart year) && time.Before t (yearStart (year + 1))
     = false).
Proof.
  intros Hlt.
  assert (∀ y, 2014 <= y → time.After t (yearStart y) = false) as Hafter.
  { intros y Hy. apply not_true_iff_false. rewrite After_spec.
    assert (time.Year (inUTC t) < y) as Hlt' by lia.
    pose proof (before_yearStart t y Hlt'). unfold instantLt. lia. }
  split.
  - by rewrite Hafter.
  - intros Hy. by rewrite Hafter.
Qed.

Lemma commits_before_2014_not_reported_witness :
  time.After (time.mkTime 1388534399 0 18000) (yearStart 2014)
  && time.Before (time.mkTime 1388534399 0 18000) sampleNow = false.
Proof.
  destruct (commits_before_2014_not_reported
              (time.mkTime 1388534399 0 18000) sampleNow 2014) as [H _];
    [by vm_compute|exact H].
Defined.

(** X22.  The report is its head followed by one section per year, from the
    year of the clock down to 2014, the newest first; a clock set before
    2014 gives no section.  The head is an empty line, the time of
    generation, the links of the repositories, the title of the all-time
    block and that block, from the first instant of 2014 to the clock, and
    the title of the yearly sections; a section is the year as its title and
    the block of the year's bucket, from the first instant of the year to
    the first instant of the next. *)
Theorem report_sections_by_year
    (mapRange : ∀ V : Type, gmap string V → list (string * V))
    (sortSlice : ∀ A : Type, (A → A → bool) → list A → list A)
    (now1 now2 now3 : time.Time) (flagRepos flagOrganization : string)
    (users : gmap string user) :
  let nl := String "010" "" in
  report mapRange sortSlice now1 now2 now3 flagRepos flagOrganization users
  = (nl ++ "Last generated at " ++ time.Format_RFC3339 now1 ++ "." ++ nl
     ++ nl ++ "Contributions from: "
     ++ strings.Join
          ((λ repo, "[" ++ repo ++ "](https://github.com/" ++ flagOrganization
                    ++ "/" ++ repo ++ ")")
             <$> strings.Split flagRepos ",") ", "
     ++ "." ++ nl
     ++ nl ++ "# All-Time External Contributors" ++ nl
     ++ nl ++ formatContributors mapRange sortSlice users
                (time.Date 2014 1 1 0 0 0 0 0) now2 ++ nl
     ++ nl ++ "# By Year" ++ nl)
    ++ String.concat ""
         ((λ y, "## " ++ pretty y ++ nl ++ nl
                ++ formatContributors mapRange sortSlice users
                     (time.Date y 1 1 0 0 0 0 0)
                     (time.Date (y + 1) 1 1 0 0 0 0 0)
                ++ nl ++ nl)
            <$> yearsOf (time.Year now3))
  ∧ (∀ y, y ∈ yearsOf (time.Year now3) ↔ 2014 <= y <= time.Year now3)
  ∧ StronglySorted (λ a b, b < a) (yearsOf (time.Year now3)).
Proof.
  intros nl. split; [|split].
  - unfold report. rewrite yearsLoop_spec, fromReposOf_fmap. done.
  - intros y. apply elem_of_yearsOf.
  - apply yearsOf_descending.
Qed.

Example report_of_2015 :
  report runtime.mapRange runtime.sortSlice
    (time.mkTime 1420070400 0 0) (time.mkTime 1420070400 0 0)
    (time.mkTime 1420070400 0 0) "cockroach,pebble" "cockroachdb"
    {[ "alice" := mkuser "https://github.com/alice" "alice" "Alice"
                    [time.mkTime 1400000000 0 0] ]}
  = newline ++ "Last generated at 2015-01-01T00:00:00Z." ++ newline
    ++ newline ++ "Contributions from: [cockroach](https://github.com/cockroachdb/cockroach), [pebble](https://github.com/cockroachdb/pebble)." ++ newline
    ++ newline ++ "# All-Time External Contributors" ++ newline
    ++ newline ++ "1 contributors, 1 commits" ++ newline ++ newline
    ++ "[Alice](https://github.com/alice) (1)" ++ newline
    ++ newline ++ "# By Year" ++ newline
    ++ "## 2015" ++ newline ++ newline
    ++ "0 contributors, 0 commits" ++ newline ++ newline ++ newline ++ newline
    ++ "## 2014" ++ newline ++ newline
    ++ "1 contributors, 1 commits" ++ newline ++ newline
    ++ "[Alice](https://github.com/alice) (1)" ++ newline ++ newline.
Proof. by vm_compute. Qed.

(** ** The barrier and the end of the enrichment phase *)

Section barrier.

Import enrich.

Implicit Types (s : state) (logins : list string) (p : pc).

Lemma wgAccounted_initial logins : wgAccounted logins initial.
Proof. by repeat split. Qed.

Lemma waitedFor_insert s i l p p' :
  routines s !! i = Some (l, p) →
  (length (filter (λ r, awaited r.2 = true) (<[ i := (l, p') ]> (routines s)))
   + (if awaited p then 1 else 0)
   = waitedFor s + (if awaited p' then 1 else 0))%nat.
Proof.
  intros Hi. unfold waitedFor.
  pose proof (length_filter_insert (λ r : string * pc, awaited r.2 = true)
                (routines s) i (l, p) (l, p') Hi) as H.
  simpl in H. by destruct (awaited p), (awaited p').
Qed.

Lemma fst_insert_pc s i l p p' :
  routines s !! i = Some (l, p) →
  (<[ i := (l, p') ]> (routines s)).*1 = (routines s).*1.
Proof.
  intros Hi. rewrite list_fmap_insert. apply list_insert_id.
  by rewrite list_lookup_fmap, Hi.
Qed.

Lemma wgAccounted_mainStep logins s s' :
  slotsAccounted s → wgAccounted logins s →
  mainStep logins s = Some s' → wgAccounted logins s'.
Proof.
  intros (_ & _ & Hfill) (Hwg & Hlogins & Hdone).
  unfold mainStep, wgAccounted, waitedFor, unspawned in *.
  destruct (main s) as [i|[|l rest]| |] eqn:Hm; intros Hs.
  - specialize (Hfill i eq_refl).
    destruct (i <? userRateLimit)%nat.
    + destruct (rateLimit s <? userRateLimit)%nat; [|done].
      injection Hs as <-. simpl. done.
    + injection Hs as <-. simpl. rewrite Hfill in *. done.
  - injection Hs as <-. simpl. by rewrite app_nil_r in *.
  - injection Hs as <-. simpl.
    rewrite filter_app, length_app, fmap_app, <-app_assoc. simpl.
    repeat split; [lia|done|done].
  - destruct (Nat.eqb_spec (wg s) 0); [|done]. injection Hs as <-. simpl.
    done.
  - done.
Qed.

Lemma wgAccounted_routineStep logins i s s' :
  wgAccounted logins s → routineStep i s = Some s' → wgAccounted logins s'.
Proof.
  intros (Hwg & Hlogins & Hdone). unfold routineStep.
  destruct (routines s !! i) as [[l p]|] eqn:Hi; [|done].
  unfold wgAccounted, waitedFor, unspawned in *.
  destruct p; intros Hs.
  - destruct (0 <? rateLimit s)%nat; [|done]. injection Hs as <-.
    pose proof (waitedFor_insert s i l Acquire Lookup Hi) as H'.
    unfold waitedFor in H'. simpl in *.
    rewrite (fst_insert_pc s i l Acquire) by done.
    repeat split; [lia|done|done].
  - injection Hs as <-.
    pose proof (waitedFor_insert s i l Lookup DeferDone Hi) as H'.
    unfold waitedFor in H'. simpl in *.
    rewrite (fst_insert_pc s i l Lookup) by done.
    repeat split; [lia|done|done].
  - injection Hs as <-.
    pose proof (waitedFor_insert s i l DeferDone Release Hi) as H'.
    unfold waitedFor in H'. simpl in *.
    rewrite (fst_insert_pc s i l DeferDone) by done.
    repeat split; [lia|done|]. intros Hc. rewrite (Hdone Hc). done.
  - destruct (rateLimit s <? userRateLimit)%nat; [|done].
    injection Hs as <-.
    pose proof (waitedFor_insert s i l Release Finished Hi) as H'.
    unfold waitedFor in H'. simpl in *.
    rewrite (fst_insert_pc s i l Release) by done.
    repeat split; [lia|done|done].
  - done.
Qed.

Lemma accounted_run logins schedule s s' :
  slotsAccounted s → wgAccounted logins s →
  run logins s schedule = Some s' →
  slotsAccounted s' ∧ wgAccounted logins s'.
Proof.
  revert s. induction schedule as [|a schedule IH]; intros s Hs Hw Hrun.
  { simpl in Hrun. by injection Hrun as <-. }
  simpl in Hrun. destruct (exec logins s a) as [s1|] eqn:Hexec; [|done].
  apply (IH s1); [| |done]; destruct a; simpl in Hexec.
  - by eapply slotsAccounted_mainStep.
  - by eapply slotsAccounted_routineStep.
  - by eapply wgAccounted_mainStep.
  - by eapply wgAccounted_routineStep.
Qed.

(** A count that is not zero has something to count. *)
Lemma filter_length_pos {A} (P : A → Prop) `{∀ x, Decision (P x)}
    (l : list A) :
  (0 < length (filter P l))%nat → ∃ i x, l !! i = Some x ∧ P x.
Proof.
  intros Hlen. destruct (filter P l) as [|x xs] eqn:E; [simpl in Hlen; lia|].
  assert (x ∈ filter P l) as Hx by (rewrite E; by left).
  apply list_elem_of_filter in Hx as [HP Hin].
  apply list_elem_of_lookup in Hin as [i Hi]. by exists i, x.
Qed.

Lemma filter_length_zero {A} (P : A → Prop) `{∀ x, Decision (P x)}
    (l : list A) :
  length (filter P l) = 0%nat → Forall (λ x, ¬ P x) l.
Proof.
  intros Hlen. apply Forall_forall. intros x Hin HP.
  assert (x ∈ filter P l) as Hx by (by apply list_elem_of_filter).
  destruct (filter P l); [by apply elem_of_nil in Hx|done].
Qed.

(** A goroutine past its receive can always step. *)
Lemma holder_can_step s i l p :
  slotsAccounted s → routines s !! i = Some (l, p) → holdsSlot p = true →
  is_Some (routineStep i s).
Proof.
  intros (Hacc & Hcap & _) Hi Hp. unfold routineStep. rewrite Hi.
  pose proof (holding_pos s i l p Hi Hp).
  destruct p; try done; [by eexists..|].
  destruct (Nat.ltb_spec (rateLimit s) userRateLimit); [by eexists|].
  unfold filled, userRateLimit in *. destruct (main s); simpl in *; lia.
Qed.

(** As long as a goroutine is waited for, one of the goroutines can
    step. *)
Lemma awaited_can_step s i l p :
  slotsAccounted s → (∀ j, main s ≠ Fill j) →
  routines s !! i = Some (l, p) → awaited p = true →
  ∃ j, is_Some (routineStep j s).
Proof.
  intros Hs Hmain Hi Hp.
  destruct (holdsSlot p) eqn:Hh; [exists i; by eapply holder_can_step|].
  assert (p = Acquire) as -> by (by destruct p).
  destruct (Nat.ltb_spec 0 (rateLimit s)) as [Hpos|Hzero].
  - exists i. unfold routineStep. rewrite Hi.
    rewrite (proj2 (Nat.ltb_lt _ _) Hpos). by eexists.
  - destruct Hs as (Hacc & Hcap & Hfill).
    assert (0 < holding s)%nat as Hhold.
    { unfold filled, userRateLimit in *. destruct (main s) as [i0| | |] eqn:Hm;
        [by destruct (Hmain i0)|simpl in *; lia..]. }
    destruct (filter_length_pos _ _ Hhold) as (j & [l' p'] & Hj & Hp').
    exists j. by eapply (holder_can_step s j l' p').
Qed.

Lemma sum_stepsLeft_insert s i l p p' :
  routines s !! i = Some (l, p) →
  (sum_list_with (λ r, stepsLeft r.2) (<[ i := (l, p') ]> (routines s))
   + stepsLeft p
   = sum_list_with (λ r, stepsLeft r.2) (routines s) + stepsLeft p')%nat.
Proof.
  intros Hi.
  rewrite <-(take_drop_middle (routines s) i (l, p) Hi) at 2.
  rewrite (insert_take_drop (routines s) i (l, p'))
    by (by eapply lookup_lt_Some).
  rewrite !sum_list_with_app. simpl. lia.
Qed.

(** Every step takes one from the steps to go. *)
Lemma exec_stepsToGo logins s a s' :
  exec logins s a = Some s' →
  stepsToGo logins s = S (stepsToGo logins s').
Proof.
  unfold stepsToGo, mainStepsLeft, unspawned.
  destruct a as [|i]; simpl.
  - unfold mainStep.
    destruct (main s) as [i|[|l rest]| |] eqn:Hm; intros Hs.
    + destruct (Nat.ltb_spec i userRateLimit).
      * destruct (rateLimit s <? userRateLimit)%nat; [|done].
        injection Hs as <-. unfold userRateLimit in *. simpl. lia.
      * injection Hs as <-. unfold userRateLimit in *. simpl. lia.
    + injection Hs as <-. simpl. lia.
    + injection Hs as <-. simpl.
      rewrite sum_list_with_app. simpl. lia.
    + destruct (wg s =? 0)%nat; [|done]. injection Hs as <-. simpl. lia.
    + done.
  - unfold routineStep.
    destruct (routines s !! i) as [[l p]|] eqn:Hi; [|done].
    destruct p; intros Hs.
    + destruct (0 <? rateLimit s)%nat; [|done]. injection Hs as <-.
      pose proof (sum_stepsLeft_insert s i l Acquire Lookup Hi).
      simpl in *. destruct (main s); lia.
    + injection Hs as <-.
      pose proof (sum_stepsLeft_insert s i l Lookup DeferDone Hi).
      simpl in *. destruct (main s); lia.
    + injection Hs as <-.
      pose proof (sum_stepsLeft_insert s i l DeferDone Release Hi).
      simpl in *. destruct (main s); lia.
    + destruct (rateLimit s <? userRateLimit)%nat; [|done].
      injection Hs as <-.
      pose proof (sum_stepsLeft_insert s i l Release Finished Hi).
      simpl in *. destruct (main s); lia.
    + done.
Qed.

Lemma run_stepsToGo logins schedule s s' :
  run logins s schedule = Some s' →
  stepsToGo logins s = (length schedule + stepsToGo logins s')%nat.
Proof.
  revert s. induction schedule as [|a schedule IH]; intros s Hrun.
  { simpl in Hrun. by injection Hrun as <-. }
  simpl in Hrun. destruct (exec logins s a) as [s1|] eqn:Hexec; [|done].
  rewrite (exec_stepsToGo _ _ _ _ Hexec), (IH _ Hrun). simpl. lia.
Qed.

Lemma sum_list_with_zero {A} (f : A → nat) (l : list A) :
  sum_list_with f l = 0%nat → Forall (λ x, f x = 0%nat) l.
Proof.
  induction l as [|x l IH]; [constructor|]. simpl. intros H.
  constructor; [lia|apply IH; lia].
Qed.

Lemma stepsToGo_zero logins s : stepsToGo logins s = 0%nat → phaseOver s.
Proof.
  unfold stepsToGo, mainStepsLeft, phaseOver. intros H.
  split; [destruct (main s); (done || lia)|].
  assert (sum_list_with (λ r, stepsLeft r.2) (routines s) = 0%nat) as Hsum
    by lia.
  apply sum_list_with_zero in Hsum.
  eapply Forall_impl; [done|]. intros [l p] Hp. simpl in *. by destruct p.
Qed.

End barrier.

(** X23.  The barrier: under every schedule, main cannot pass [wg.Wait()]
    while a goroutine has not called [wg.Done()], and once main is past it
    there is one goroutine for each login of the checkpoint, in the order
    they were started, and each has left its lookup and called
    [wg.Done()]. *)
Theorem all_lookups_done_after_wait
    (logins : list string) (schedule : list enrich.action) (s : enrich.state) :
  enrich.run logins enrich.initial schedule = Some s →
  (enrich.main s = enrich.Collect →
   (enrich.routines s).*1 = logins
   ∧ Forall (λ r, r.2 = enrich.Release ∨ r.2 = enrich.Finished)
            (enrich.routines s))
  ∧ (∀ i l p, enrich.main s = enrich.Wait →
              enrich.routines s !! i = Some (l, p) → awaited p = true →
              enrich.mainStep logins s = None).
Proof.
  intros Hrun.
  destruct (accounted_run logins schedule _ s slotsAccounted_initial
              (wgAccounted_initial logins) Hrun)
    as [_ (Hwg & Hlogins & Hdone)].
  split.
  - intros Hc. unfold unspawned in Hlogins. rewrite Hc, app_nil_r in Hlogins.
    split; [done|]. specialize (Hdone Hc). rewrite Hwg in Hdone.
    apply filter_length_zero in Hdone.
    eapply Forall_impl; [done|]. intros [l p] Hp. simpl in *.
    destruct p; auto; by destruct Hp.
  - intros i l p Hw Hi Hp. unfold enrich.mainStep. rewrite Hw.
    assert (0 < waitedFor s)%nat as Hpos.
    { unfold waitedFor.
      assert ((l, p) ∈ filter (λ r : string * enrich.pc, awaited r.2 = true)
                         (enrich.routines s)) as Hin.
      { apply list_elem_of_filter. split; [done|].
        by eapply list_elem_of_lookup_2. }
      destruct (filter _ _); [by apply elem_of_nil in Hin|simpl; lia]. }
    destruct (Nat.eqb_spec (enrich.wg s) 0); [lia|done].
Qed.

Lemma all_lookups_done_after_wait_witness :
  enrich.mainStep sampleLogins sampleWaitingState = None.
Proof.
  destruct (all_lookups_done_after_wait sampleLogins sampleWaitingSchedule
              sampleWaitingState) as [_ H]; [by vm_compute|].
  apply (H 0%nat "user0" enrich.Lookup); by vm_compute.
Defined.

(** X24.  The phase cannot get stuck: in every state it can reach, either
    main is past the barrier and every goroutine has finished, or main or
    one of the goroutines can take a step. *)
Theorem enrichment_never_deadlocks
    (logins : list string) (schedule : list enrich.action) (s : enrich.state) :
  enrich.run logins enrich.initial schedule = Some s →
  phaseOver s ∨ ∃ a, is_Some (enrich.exec logins s a).
Proof.
  intros Hrun.
  destruct (accounted_run logins schedule _ s slotsAccounted_initial
              (wgAccounted_initial logins) Hrun)
    as [Hslots (Hwg & Hlogins & Hdone)].
  pose proof Hslots as (Hacc & Hcap & Hfill).
  destruct (enrich.main s) as [i|rest| |] eqn:Hm.
  - right. exists enrich.MainStep. simpl. unfold enrich.mainStep. rewrite Hm.
    destruct (Nat.ltb_spec i enrich.userRateLimit); [|by eexists].
    destruct (Nat.ltb_spec (enrich.rateLimit s) enrich.userRateLimit);
      [by eexists|].
    unfold enrich.filled in Hacc. rewrite Hm in Hacc. lia.
  - right. exists enrich.MainStep. simpl. unfold enrich.mainStep. rewrite Hm.
    destruct rest; by eexists.
  - right. destruct (Nat.eqb_spec (enrich.wg s) 0) as [Hz|Hnz].
    + exists enrich.MainStep. simpl. unfold enrich.mainStep.
      rewrite Hm, Hz. by eexists.
    + assert (0 < waitedFor s)%nat as Hpos by lia.
      destruct (filter_length_pos _ _ Hpos) as (i & [l p] & Hi & Hp).
      destruct (awaited_can_step s i l p Hslots) as [j Hj]; [|done..|].
      { intros j. by rewrite Hm. }
      by exists (enrich.Go j).
  - destruct (decide (Forall (λ r : string * enrich.pc, r.2 = enrich.Finished)
                        (enrich.routines s))) as [Hall|Hnot].
    { by left. }
    right. apply not_Forall_Exists in Hnot; [|apply _].
    apply Exists_exists in Hnot as ([l p] & Hin & Hp). simpl in Hp.
    apply list_elem_of_lookup in Hin as [i Hi].
    assert (awaited p = false) as Haw.
    { specialize (Hdone eq_refl). rewrite Hwg in Hdone.
      apply filter_length_zero in Hdone.
      rewrite Forall_forall in Hdone.
      specialize (Hdone (l, p) (list_elem_of_lookup_2 _ _ _ Hi)).
      simpl in Hdone. by destruct (awaited p). }
    exists (enrich.Go i). simpl.
    apply (holder_can_step s i l p); [done..|]. by destruct p.
Qed.

Lemma enrichment_never_deadlocks_witness :
  phaseOver sampleState ∨ ∃ a, is_Some (enrich.exec sampleLogins sampleState a).
Proof.
  apply (enrichment_never_deadlocks sampleLogins sampleSchedule sampleState).
  by vm_compute.
Defined.

(** X25.  The phase ends, if every lookup returns: with [n] logins, every
    schedule has at most [5 n + 23] steps (twenty tokens, one goroutine
    started and four steps of it per login, the barrier and the loop
    exits), and a schedule of that many steps leaves main past the barrier
    and every goroutine finished. *)
Theorem enrichment_ends
    (logins : list string) (schedule : list enrich.action) (s : enrich.state) :
  enrich.run logins enrich.initial schedule = Some s →
  (length schedule + stepsToGo logins s = 5 * length logins + 23)%nat
  ∧ (length schedule = (5 * length logins + 23)%nat → phaseOver s).
Proof.
  intros Hrun. pose proof (run_stepsToGo _ _ _ _ Hrun) as H.
  assert (stepsToGo logins enrich.initial = (5 * length logins + 23)%nat)
    as Hinit.
  { unfold stepsToGo, mainStepsLeft, unspawned, enrich.userRateLimit.
    simpl. lia. }
  split; [lia|]. intros Hlen. apply (stepsToGo_zero logins). lia.
Qed.

Lemma enrichment_ends_witness :
  ∃ s, enrich.run ["user0"] enrich.initial sampleFullSchedule = Some s
       ∧ phaseOver s.
Proof.
  destruct (enrich.run ["user0"] enrich.initial sampleFullSchedule)
    as [s|] eqn:Hrun; [|by vm_compute in Hrun].
  exists s. split; [done|].
  by apply (proj2 (enrichment_ends ["user0"] sampleFullSchedule s Hrun)).
Defined.

(** ** The two modes of [main] *)

(** The keys of the member map are the logins listed. *)
Lemma dom_addMembers (logins : gmap string github.User)
    (members : list github.User) :
  dom (addMembers logins members)
  = dom logins ∪ list_to_set (github.GetLogin <$> members).
Proof.
  unfold addMembers. revert logins.
  induction members as [|m members IH]; intros logins; simpl.
  { set_solver. }
  rewrite IH, dom_insert_L. set_solver.
Qed.

Section main_facts.

Variable mapRange : ∀ V : Type, gmap string V → list (string * V).
Variable sortSlice : ∀ A : Type, (A → A → bool) → list A → list A.
Variable arrival : ∀ A : Type, list A → list A.
Context {Bytes : Type}.
Variable json_Marshal : gmap string (list string) → Bytes.
Variable json_Unmarshal : Bytes → option (gmap string (list string)).
Variable bytesOf : string → Bytes.
Variable Users_Get : string → option github.User.
Variable Organizations_ListMembers
  : string → github.ListOptions → option (list github.User * Z).
Variable Repositories_ListCommits
  : string → string → github.ListOptions
    → option (list github.RepositoryCommit * Z).
Variable Repositories_GetContents : string → string → string → option string.
Hypothesis Hrange : MapRangeSpec mapRange.
Hypothesis Harrival : ArrivalSpec arrival.
Hypothesis Hjson : JSONSpec json_Marshal json_Unmarshal.

Implicit Types (userTimes : gmap string (list time.Time))
  (files : gmap string Bytes) (fl : flags).

(** What is read back from the checkpoint of a record that can be stored. *)
Lemma Unmarshal_store userTimes :
  storable userTimes →
  json_Unmarshal (store mapRange json_Marshal userTimes)
  = Some (omap formattedTimes userTimes).
Proof.
  intros Hst. unfold store. rewrite commitTimesOf_spec by done.
  apply Hjson. intros k ss Hk. rewrite lookup_omap in Hk.
  destruct (userTimes !! k) as [times|] eqn:Hk'; [|done].
  destruct (Hst _ _ Hk') as (Hutf & Hne & Hrep). simpl in Hk.
  destruct times as [|t times]; [done|]. injection Hk as <-.
  split; [done|].
  change (Forall (λ s : string, utf8.ValidString s = true)
            (time.Format_RFC3339 <$> t :: times)).
  apply Forall_fmap.
  eapply Forall_impl; [done|]. intros t' Ht'. by apply Format_ValidString.
Qed.


End main_facts.

(** X26.  A full run, end to end.  When the listings end, the roster can be
    fetched, and every commit that passes the guards has a login that is
    valid UTF-8 with a profile and an author date that RFC 3339 can write,
    [main] writes the checkpoint of the collected record and then the
    report of these users: one for each login with a commit that passes the
    guards, unless the login is on the blocklist or its display name is an
    internal name, with the author dates of those commits cut to the
    second. *)
Theorem main_reports_the_collected_logins
    (mapRange : ∀ V : Type, gmap string V → list (string * V))
    (sortSlice : ∀ A : Type, (A → A → bool) → list A → list A)
    (arrival : ∀ A : Type, list A → list A)
    (Bytes : Type)
    (json_Marshal : gmap string (list string) → Bytes)
    (json_Unmarshal : Bytes → option (gmap string (list string)))
    (bytesOf : string → Bytes)
    (Users_Get : string → option github.User)
    (Organizations_ListMembers
       : string → github.ListOptions → option (list github.User * Z))
    (Repositories_ListCommits
       : string → string → github.ListOptions
         → option (list github.RepositoryCommit * Z))
    (Repositories_GetContents : string → string → string → option string)
    (fuel : nat) (fl : flags) (now1 now2 now3 : time.Time)
    (files : gmap string Bytes)
    (memberPages : list (list github.User)) (authors : string)
    (commitPages : list (list (list github.RepositoryCommit))) :
  let organizationMembers : gset string :=
    list_to_set (github.GetLogin <$> concat memberPages) in
  let emails := (getOrganizationEmailsAndNamesFromAuthors authors).1 in
  let names := (getOrganizationEmailsAndNamesFromAuthors authors).2 in
  let commits := concat ((λ pages, concat pages) <$> commitPages) in
  MapRangeSpec mapRange → ArrivalSpec arrival →
  JSONSpec json_Marshal json_Unmarshal →
  flagUseIntermediate fl = false →
  pagesOfListing (Organizations_ListMembers (flagOrganization fl))
    (github.mkListOptions 0 100) memberPages →
  (length memberPages ≤ fuel)%nat →
  Repositories_GetContents (flagAuthorsOrg fl) (flagAuthorsRepo fl)
    (flagAuthorsPath fl) = Some authors →
  Forall2 (λ repo pages,
             pagesOfListing
               (Repositories_ListCommits (flagOrganization fl) repo)
               (github.mkListOptions 0 1000) pages
             ∧ (length pages ≤ fuel)%nat)
          (strings.Split (flagRepos fl) ",") commitPages →
  (∀ commit, commit ∈ commits →
     skipCommit organizationMembers emails names commit = false →
     utf8.ValidString (github.GetLogin (github.GetAuthor commit)) = true
     ∧ representable (authorDate commit)
     ∧ is_Some (Users_Get (github.GetLogin (github.GetAuthor commit)))) →
  ∃ users,
    main mapRange sortSlice arrival json_Marshal json_Unmarshal bytesOf
      Users_Get Organizations_ListMembers Repositories_ListCommits
      Repositories_GetContents fuel fl now1 now2 now3 files
    = (<[ flagOutput fl :=
            bytesOf (report mapRange sortSlice now1 now2 now3
                       (flagRepos fl) (flagOrganization fl) users) ]>
         (<[ flagIntermediateOutput fl :=
               store mapRange json_Marshal
                 (collect organizationMembers emails names commits) ]>
            files),
       Returned tt)
    ∧ ∀ l r,
        users !! l = Some r ↔
          ∃ ghUser,
            keptDates organizationMembers emails names l commits ≠ []
            ∧ Users_Get l = Some ghUser
            ∧ r = mkuser (github.GetHTMLURL ghUser) l
                    (if String.eqb (github.GetName ghUser) "" then l
                     else github.GetName ghUser)
                    (truncateToSecond
                       <$> keptDates organizationMembers emails names l
                             commits)
            ∧ (l ∉ strings.Split (flagBlocklist fl) ",")
            ∧ (name r ∉ names).
Proof.
  intros organizationMembers emails names commits
    Hrange Harrival Hjson Hmode Hmembers Hfuel Hauthors Hcommits Hok.
  assert (storable (collect organizationMembers emails names commits))
    as Hst.
  { apply collect_storable. intros c Hin Hs.
    destruct (Hok c Hin Hs) as (? & ? & _). done. }
  assert (∀ l timesIn,
    omap formattedTimes (collect organizationMembers emails names commits)
      !! l = Some timesIn ↔
    keptDates organizationMembers emails names l commits ≠ []
    ∧ timesIn = time.Format_RFC3339
                  <$> keptDates organizationMembers emails names l commits)
    as HusersIn.
  { intros l timesIn. rewrite lookup_omap. unfold collect.
    rewrite foldl_commitStep_lookup, lookup_empty.
    destruct (keptDates organizationMembers emails names l commits)
      as [|d ds]; cbn; naive_solver. }
  assert (∀ l, keptDates organizationMembers emails names l commits ≠ [] →
            is_Some (Users_Get l)
            ∧ Forall representable
                (keptDates organizationMembers emails names l commits))
    as Hkept.
  { intros l Hne. split.
    - destruct (keptDates organizationMembers emails names l commits)
        as [|d ds] eqn:E; [done|].
      assert (d ∈ keptDates organizationMembers emails names l commits)
        as Hd by (rewrite E; by left).
      apply elem_of_keptDates in Hd as (c & Hin & Hs & <- & _).
      by destruct (Hok c Hin Hs) as (_ & _ & ?).
    - apply Forall_forall. intros t Ht.
      apply elem_of_keptDates in Ht as (c & Hin & Hs & _ & <-).
      by destruct (Hok c Hin Hs) as (_ & ? & _). }
  destruct (enrichedUsers mapRange arrival Users_Get (flagBlocklist fl)
              authors
              (omap formattedTimes
                 (collect organizationMembers emails names commits)))
    as [users|] eqn:Hen.
  2: { apply (enrichedUsers_None _ _ _ Hrange) in Hen
         as (l & timesIn & Hl & Hnone).
       apply HusersIn in Hl as [Hne ->].
       destruct (Hkept l Hne) as [[ghUser HghUser] Hrep].
       unfold lookupUser in Hnone. rewrite HghUser in Hnone. simpl in Hnone.
       by rewrite parseTimes_Format in Hnone. }
  exists users. split.
  - unfold main. rewrite Hmode. unfold getOrganizationLogins.
    rewrite (membersLoop_pages _ _ _ _ _ memberPages) by done.
    unfold fetchAuthors at 1. rewrite Hauthors.
    rewrite (surjective_pairing
               (getOrganizationEmailsAndNamesFromAuthors authors)).
    rewrite dom_addMembers, dom_empty_L, (left_id_L ∅ (∪)).
    unfold collectRepositories.
    rewrite (reposLoop_pages _ _ _ _ _ _ _ _ commitPages) by done.
    fold (collect organizationMembers emails names commits).
    unfold intermediateOutputToOutput. rewrite lookup_insert_eq.
    rewrite Unmarshal_store by done.
    unfold fetchAuthors. rewrite Hauthors.
    unfold collect, organizationMembers, emails, names, commits in Hen |- *.
    by rewrite Hen.
  - intros l r.
    rewrite (enrichedUsers_lookup _ _ _ Hrange Harrival _ _ _ _ _ _ Hen).
    fold names. split.
    + intros (timesIn & Hl & Hr & Hb & Hn).
      apply HusersIn in Hl as [Hne ->].
      destruct (Hkept l Hne) as [_ Hrep].
      apply lookupUser_Some in Hr as (ghUser & times & Hg & Hp & ->).
      rewrite parseTimes_Format in Hp by done. injection Hp as <-.
      by exists ghUser.
    + intros (ghUser & Hne & Hg & -> & Hb & Hn).
      destruct (Hkept l Hne) as [_ Hrep].
      exists (time.Format_RFC3339
                <$> keptDates organizationMembers emails names l commits).
      split; [by apply HusersIn|]. split; [|done].
      apply lookupUser_Some.
      exists ghUser,
        (truncateToSecond
           <$> keptDates organizationMembers emails names l commits).
      split; [done|]. split; [by apply parseTimes_Format|done].
Qed.


Lemma sample_JSONSpec : JSONSpec sampleMarshal sampleUnmarshal.
Proof. by intros m _. Qed.

Lemma main_reports_the_collected_logins_witness :
  ∃ users,
    main runtime.mapRange runtime.sortSlice runtime.arrival
      sampleMarshal sampleUnmarshal textBytes sampleProfiles sampleMembers
      sampleCommits sampleContents 2 (sampleFlags false)
      sampleNow sampleNow sampleNow ∅
    = (<[ "output.md" :=
            textBytes (report runtime.mapRange runtime.sortSlice
                         sampleNow sampleNow sampleNow
                         "cockroach,pebble" "cockroachdb" users) ]>
         (<[ "intermediate_output.json" :=
               store runtime.mapRange sampleMarshal
                 (collect
                    (list_to_set
                       (github.GetLogin <$> concat sampleMemberPages))
                    (getOrganizationEmailsAndNamesFromAuthors sampleRoster).1
                    (getOrganizationEmailsAndNamesFromAuthors sampleRoster).2
                    (concat ((λ pages, concat pages) <$> sampleCommitPages)))
            ]> ∅),
       Returned tt)
    ∧ users !! "external2"
      = Some (mkuser "https://github.com/external2" "external2" "external2"
                [time.mkTime 1600000000 0 0]).
Proof.
  destruct (main_reports_the_collected_logins
              runtime.mapRange runtime.sortSlice runtime.arrival sampleBytes
              sampleMarshal sampleUnmarshal textBytes sampleProfiles
              sampleMembers sampleCommits sampleContents 2 (sampleFlags false)
              sampleNow sampleNow sampleNow ∅
              sampleMemberPages sampleRoster sampleCommitPages
              runtime_MapRangeSpec runtime_ArrivalSpec sample_JSONSpec)
    as (users & Hmain & Husers).
  - done.
  - exists 2. by vm_compute.
  - simpl. lia.
  - done.
  - vm_compute (strings.Split _ _).
    repeat (apply Forall2_cons; split); [| |done].
    + split; [|simpl; lia]. exists 2. by vm_compute.
    + split; [|simpl; lia]. by vm_compute.
  - intros commit Hin Hskip.
    assert (commit = sampleCommit "external1" "external1@gmail.com"
                       1600000300 []
            ∨ commit = sampleCommit "external2" "external2@gmail.com"
                         1600000000 []
            ∨ commit = sampleCommit "external1" "external1@gmail.com"
                         1500000000 []) as Hcases.
    { cbn in Hin.
      repeat (apply elem_of_cons in Hin as [->|Hin]); auto;
        try (by vm_compute in Hskip).
      by apply elem_of_nil in Hin. }
    destruct Hcases as [-> | [-> | ->]];
      (split; [by vm_compute|]; split;
       [unfold representable; repeat split; vm_compute; congruence
       |vm_compute; by eexists]).
  - exists users. split; [exact Hmain|].
    apply Husers. exists (github.mkUser "external2" "" "https://github.com/external2").
    split; [apply (bool_decide_unpack _); by vm_compute|].
    split; [by vm_compute|]. split; [by vm_compute|].
    split; apply (bool_decide_unpack _); by vm_compute.
Defined.



